(** * Streaming buffer and stitching engine of the real-time voice changer

    A shallow embedding of [src/gui.py]: the ring-buffer update of
    [GUI.audio_callback], the noise gate, the fade windows and frame sizes
    computed by [GUI.start_vc], the envelope-mixing guard, the SOLA offset
    search, the phase wrap of [phase_vocoder], the [Harvest] pool worker and
    the event loop of [GUI.event_handler]; then the whole of
    [phase_vocoder] and of [GUI.audio_callback] over the libraries they
    call, the radio flags of [GUI.load], and a streaming session as a
    run of turns of the event loop and of blocks through the callback.

    Conventions.  Python integers are [Z]; tensors and arrays are lists.
    Where the program computes on 32-bit floats, samples are either left
    abstract (a type parameter) or taken as real numbers: rounding is not
    modelled.  Slider values are decimal fractions and are taken in [Q].
    A Python exception is a value [Raise e] of the result type [res]. *)

From Stdlib Require Import ZArith QArith Qround Reals Lra Lia.
From Stdlib Require Lqa.
From Stdlib Require Import Strings.String Strings.Ascii.
From stdpp Require Import base option list gmap strings.

Close Scope Q_scope.
Close Scope R_scope.
Open Scope Z_scope.

(** ** Python results: a value or an exception *)

Module Py.

Inductive exn : Type :=
| TypeError
| ValueError
| RuntimeError
| ZeroDivisionError
| IndexError
| KeyError
| AttributeError.

Inductive res (A : Type) : Type :=
| Ok (a : A)
| Raise (e : exn).
Arguments Ok {A} a.
Arguments Raise {A} e.

#[export] Instance res_ret : MRet res := fun _ a => Ok a.
#[export] Instance res_bind : MBind res := fun _ _ f r =>
  match r with
  | Ok a => f a
  | Raise e => Raise e
  end.

#[export] Instance exn_eq_dec : EqDecision exn.
Proof. solve_decision. Defined.

#[export] Instance Qlt_decision (x y : Q) : Decision (x < y)%Q.
Proof.
  destruct (Qlt_le_dec x y) as [H | H]; [left; exact H | right].
  apply Qle_not_lt. exact H.
Defined.

#[export] Instance Rlt_decision (x y : R) : Decision (x < y)%R := Rlt_dec x y.

(** *** Slices with step 1

    [adjust len i] is the clamping Python applies to one slice bound: a
    negative bound counts from the end, and every bound is clamped to
    [0..len].  Note that [-0] is [0]: the bound counts from the front. *)

Definition adjust (len i : Z) : Z :=
  if i <? 0 then Z.max 0 (len + i) else Z.min i len.

(** The pair (start, stop) of [l[start:stop]], either bound optional;
    the slice has [stop - start] elements, none when [stop <= start]. *)
Definition slice_bounds (len : Z) (start stop : option Z) : Z * Z :=
  let s := from_option (adjust len) 0 start in
  let e := from_option (adjust len) len stop in
  (s, Z.max s e).

Section Slices.
Context {A : Type}.

(** [l[start:stop]] *)
Definition get_slice (l : list A) (start stop : option Z) : list A :=
  let '(s, e) := slice_bounds (Z.of_nat (length l)) start stop in
  take (Z.to_nat (e - s)) (drop (Z.to_nat s) l).

(** [l[start:stop] = src] on a tensor or an array: the target keeps its
    size, [src] must have the size of the slice or be a single element,
    which is broadcast; any other size raises. *)
Definition set_slice (l : list A) (start stop : option Z) (src : list A)
  : res (list A) :=
  let '(s, e) := slice_bounds (Z.of_nat (length l)) start stop in
  let n := Z.to_nat (e - s) in
  if decide (length src = n)
  then Ok (take (Z.to_nat s) l ++ src ++ drop (Z.to_nat e) l)
  else match src with
       | [x] => Ok (take (Z.to_nat s) l ++ replicate n x ++ drop (Z.to_nat e) l)
       | _ => Raise RuntimeError
       end.

(** [l[start:stop] = x] for a scalar [x]: always broadcast. *)
Definition fill_slice (l : list A) (start stop : option Z) (x : A) : list A :=
  let '(s, e) := slice_bounds (Z.of_nat (length l)) start stop in
  take (Z.to_nat s) l ++ replicate (Z.to_nat (e - s)) x ++ drop (Z.to_nat e) l.

End Slices.

(** *** Elementwise operations on one-dimensional tensors

    [a op b] yields a new tensor: the sizes agree, or one side has a single
    element, which is broadcast.  [a op= b] updates [a] in place: [b] has
    the size of [a] or a single element. *)

Definition broadcast2 {A B C} (f : A → B → C) (a : list A) (b : list B)
  : res (list C) :=
  if decide (length a = length b) then Ok (zip_with f a b)
  else match a, b with
       | [x], _ => Ok (f x <$> b)
       | _, [y] => Ok ((λ x, f x y) <$> a)
       | _, _ => Raise RuntimeError
       end.

Definition inplace2 {A B} (f : A → B → A) (a : list A) (b : list B)
  : res (list A) :=
  if decide (length b = length a) then Ok (zip_with f a b)
  else match b with
       | [y] => Ok ((λ x, f x y) <$> a)
       | _ => Raise RuntimeError
       end.

(** [a // b] on integers and [a / b] with an integer divisor. *)
Definition py_floordiv (a b : Z) : res Z :=
  if decide (b = 0) then Raise ZeroDivisionError else Ok (a / b).

Definition py_truediv (a : Q) (b : Z) : res Q :=
  if decide (b = 0) then Raise ZeroDivisionError else Ok (a / inject_Z b)%Q.

(** [np.round]: to the nearest integer, halves to the even neighbour. *)
Definition np_round (q : Q) : Z :=
  let f := Qfloor q in
  match Qcompare (q - inject_Z f) (1 # 2) with
  | Lt => f
  | Gt => f + 1
  | Eq => if Z.even f then f else f + 1
  end.

(** [torch.zeros(n)], [torch.ones(n)] and [np.zeros(n)] refuse a negative
    size. *)
Definition torch_full {A} (c : A) (n : Z) : res (list A) :=
  if n <? 0 then Raise RuntimeError else Ok (replicate (Z.to_nat n) c).

Definition torch_zeros {A} (zero : A) (n : Z) : res (list A) :=
  torch_full zero n.

Definition np_zeros {A} (zero : A) (n : Z) : res (list A) :=
  if n <? 0 then Raise ValueError else Ok (replicate (Z.to_nat n) zero).

End Py.
Import Py.

(** ** Ring buffers ([GUI.audio_callback], "Update buffers for incoming data") *)

Module RingBuffer.

Section Buf.
Context {A : Type}.

(** [buf[:-n] = buf[n:].clone()] *)
Definition shift_left (n : Z) (buf : list A) : res (list A) :=
  set_slice buf None (Some (- n)) (get_slice buf (Some n) None).

(** [buf[-len(new):] = new] *)
Definition write_tail (new buf : list A) : res (list A) :=
  set_slice buf (Some (- Z.of_nat (length new))) None new.

(** The two statements on [self.input_wav]: shift by [block_frame],
    then write [indata] into the tail. *)
Definition update_input_wav (block_frame : Z) (indata input_wav : list A)
  : res (list A) :=
  buf ← shift_left block_frame input_wav;
  write_tail indata buf.

(** What the update is claimed to do, for the shift [block_frame] and
    the block [new] that the callback hands it: the size kept, the new
    samples in the last [len(new)] positions, and every other position
    [i] holding the old sample at [i + len(new)]. *)
Definition ring_update_ok (block_frame : Z) (buf new : list A) : Prop :=
  ∃ buf', update_input_wav block_frame new buf = Ok buf'
    ∧ length buf' = length buf
    ∧ (∀ i, (i < length new)%nat →
            buf' !! (length buf - length new + i)%nat = new !! i)
    ∧ (∀ i, (i < length buf - length new)%nat →
            buf' !! i = buf !! (i + length new)%nat).

(** What it does: every other position [i] holds the old sample at
    [i + block_frame], the amount of the shift. *)
Definition ring_update_by_shift (block_frame : Z) (buf new : list A) : Prop :=
  ∃ buf', update_input_wav block_frame new buf = Ok buf'
    ∧ length buf' = length buf
    ∧ (∀ i, (i < length new)%nat →
            buf' !! (length buf - length new + i)%nat = new !! i)
    ∧ (∀ i, (i < length buf - length new)%nat →
            buf' !! i = buf !! (i + Z.to_nat block_frame)%nat).

End Buf.

End RingBuffer.

(** ** Noise gate ([GUI.audio_callback], the block under
    [if self.gui_config.threhold > -60]) *)

Module NoiseGate.

Section Gate.
Context {A : Type} (zero : A).

(** The mask [db_threhold]: librosa's framewise RMS of the signal with
    frame length [4 * zc] and hop [zc], without its first two frames,
    converted to dB and compared with the threshold.  The float
    computation is librosa's; the gate only reads the mask. *)
Variable frames_below : list A → Z → Q → list bool.

(** [for i in range(db_threhold.shape[0]): if db_threhold[i]:
    indata[i * zc : (i + 1) * zc] = 0] *)
Definition zero_frames (zc : Z) (db_threhold : list bool) (indata : list A)
  : list A :=
  foldl (λ (acc : list A) (ib : Z * bool),
           if ib.2 then fill_slice acc (Some (ib.1 * zc)) (Some ((ib.1 + 1) * zc)) zero
           else acc)
        indata
        (zip (seqZ 0 (Z.of_nat (length db_threhold))) db_threhold).

(** The gated path: returns the new [rms_buffer] and the new [indata]. *)
Definition gated (zc : Z) (threhold : Q) (rms_buffer indata : list A)
  : res (list A * list A) :=
  let indata1 := rms_buffer ++ indata in
  let db_threhold := frames_below indata1 zc threhold in
  rms_buffer' ← set_slice rms_buffer None None
                   (get_slice indata1 (Some (- 4 * zc)) None);
  let indata2 := get_slice indata1 (Some (2 * zc - zc / 2)) None in
  let indata3 := zero_frames zc db_threhold indata2 in
  let indata4 := get_slice indata3 (Some (zc / 2)) None in
  Ok (rms_buffer', indata4).

(** The gate as the callback runs it: off at the sentinel [-60]. *)
Definition noise_gate (zc : Z) (threhold : Q) (rms_buffer indata : list A)
  : res (list A * list A) :=
  if decide (-60 < threhold)%Q
  then gated zc threhold rms_buffer indata
  else Ok (rms_buffer, indata).

(** The claim that the gated segment has the sample count of the
    un-gated one, for one raw block. *)
Definition same_count_as_ungated (zc : Z) (threhold : Q)
    (rms_buffer indata : list A) : Prop :=
  ∀ rb out, noise_gate zc threhold rms_buffer indata = Ok (rb, out) →
            length out = length indata.

End Gate.

End NoiseGate.

(** ** Frame sizes, buffers and fade windows ([GUI.start_vc]) *)

Module Session.

#[local] Open Scope R_scope.

(** [torch.linspace(start, stop, steps)] *)
Definition linspace (start stop : R) (steps : Z) : res (list R) :=
  if (steps <? 0)%Z then Raise RuntimeError
  else match Z.to_nat steps with
       | O => Ok []
       | S O => Ok [start]
       | n => Ok ((λ i, start + INR i * ((stop - start) / INR (n - 1)))
                  <$> seq 0 n)
       end.

(** [torch.sin(0.5 * np.pi * torch.linspace(0.0, 1.0, steps=n)) ** 2] *)
Definition fade_in_of (sola_buffer_frame : Z) : res (list R) :=
  linspace 0 1 sola_buffer_frame ≫= λ ls : list R,
  Ok ((λ x, sin (0.5 * PI * x) ^ 2) <$> ls).

(** [1 - self.fade_in_window] *)
Definition fade_out_of (fade_in : list R) : list R :=
  (λ x, 1 - x) <$> fade_in.

(** The windows as the specification describes them: power-complementary
    at every index. *)
Definition power_complementary (n : Z) : Prop :=
  ∀ fi t a b, fade_in_of n = Ok fi → fi !! t = Some a →
              fade_out_of fi !! t = Some b → a ^ 2 + b ^ 2 = 1.

#[local] Close Scope R_scope.

Record frames : Type := {
  zc : Z;
  block_frame : Z;
  block_frame_16k : Z;
  crossfade_frame : Z;
  sola_buffer_frame : Z;
  sola_search_frame : Z;
  extra_frame : Z;
  skip_head : Z;
  return_length : Z
}.

Record buffers : Type := {
  input_wav : list R;
  input_wav_denoise : list R;
  input_wav_res : list R;
  rms_buffer : list R;
  sola_buffer : list R;
  nr_buffer : list R;
  output_buffer : list R;
  fade_in_window : list R;
  fade_out_window : list R
}.

(** [int(np.round(t * samplerate / zc)) * zc] *)
Definition round_to_zc (t : Q) (samplerate zc : Z) : res Z :=
  q ← py_truediv (t * inject_Z samplerate)%Q zc;
  Ok (np_round q * zc).

(** The body of [start_vc] from [self.zc = ...] to the fade windows, in
    the order of the source. *)
Definition start_vc_buffers (block_time crossfade_time extra_time : Q)
    (samplerate : Z) : res (frames * buffers) :=
  let zc := samplerate / 100 in
  block_frame ← round_to_zc block_time samplerate zc;
  block_frame_16k ← py_floordiv (160 * block_frame) zc;
  crossfade_frame ← round_to_zc crossfade_time samplerate zc;
  let sola_buffer_frame := Z.min crossfade_frame (4 * zc) in
  let sola_search_frame := zc in
  extra_frame ← round_to_zc extra_time samplerate zc;
  input_wav ← torch_zeros 0%R
    (extra_frame + crossfade_frame + sola_search_frame + block_frame);
  let input_wav_denoise := input_wav in
  res_len ← py_floordiv (160 * Z.of_nat (length input_wav)) zc;
  input_wav_res ← torch_zeros 0%R res_len;
  rms_buffer ← np_zeros 0%R (4 * zc);
  sola_buffer ← torch_zeros 0%R sola_buffer_frame;
  let nr_buffer := sola_buffer in
  let output_buffer := input_wav in
  skip_head ← py_floordiv extra_frame zc;
  return_length ←
    py_floordiv (block_frame + sola_buffer_frame + sola_search_frame) zc;
  fade_in_window ← fade_in_of sola_buffer_frame;
  let fade_out_window := fade_out_of fade_in_window in
  Ok ({| zc := zc; block_frame := block_frame;
         block_frame_16k := block_frame_16k;
         crossfade_frame := crossfade_frame;
         sola_buffer_frame := sola_buffer_frame;
         sola_search_frame := sola_search_frame;
         extra_frame := extra_frame; skip_head := skip_head;
         return_length := return_length |},
      {| input_wav := input_wav; input_wav_denoise := input_wav_denoise;
         input_wav_res := input_wav_res; rms_buffer := rms_buffer;
         sola_buffer := sola_buffer; nr_buffer := nr_buffer;
         output_buffer := output_buffer; fade_in_window := fade_in_window;
         fade_out_window := fade_out_window |}).

End Session.

(** ** Crossfade, envelope mixing, SOLA search ([GUI.audio_callback])
    and the phase wrap of [phase_vocoder] *)

Module Stitch.
Import Session.

#[local] Open Scope R_scope.

(** [x[:L] *= fade_in; x[:L] += tail * fade_out]: the blend of the
    denoiser (with [nr_buffer]) and of the SOLA stage (with
    [sola_buffer]). *)
Definition linear_crossfade (L : Z) (x tail fade_in fade_out : list R)
  : res (list R) :=
  head ← inplace2 Rmult (get_slice x None (Some L)) fade_in;
  x1 ← set_slice x None (Some L) head;
  faded ← broadcast2 Rmult tail fade_out;
  head2 ← inplace2 Rplus (get_slice x1 None (Some L)) faded;
  set_slice x1 None (Some L) head2.

(** Operations the envelope mixer applies to the inferred waveform. *)
Inductive mix_op : Type := OpRmsInput | OpRmsInfer | OpScale.

Section Envelope.
(** [librosa.feature.rms(y, frame_length, hop_length)] interpolated
    linearly ([align_corners]) to [n + 1] points, the last one dropped. *)
Variable rms_contour : list R → Z → Z → nat → list R.
(** [torch.pow] on one element. *)
Variable torch_pow : R → R → R.

(** "Volume envelope mixing" *)
Definition envelope_mix (rms_mix_rate : Q) (I_noise_reduce : bool)
    (function : string) (zc extra_frame : Z)
    (input_wav input_wav_denoise infer_wav : list R)
  : res (list R * list mix_op) :=
  if bool_decide (rms_mix_rate < 1)%Q && bool_decide (function = "vc"%string)
  then
    let input :=
      get_slice (if I_noise_reduce then input_wav_denoise else input_wav)
                (Some extra_frame) None in
    let n := length infer_wav in
    let rms1 :=
      rms_contour (get_slice input None (Some (Z.of_nat n))) (4 * zc)%Z zc n in
    let rms2 := rms_contour infer_wav (4 * zc)%Z zc n in
    let rms2 := (λ r, Rmax r 1e-3) <$> rms2 in
    ratio ← broadcast2 Rdiv rms1 rms2;
    let gain := (λ r, torch_pow r (Q2R (1 - rms_mix_rate))) <$> ratio in
    out ← inplace2 Rmult infer_wav gain;
    Ok (out, [OpRmsInput; OpRmsInfer; OpScale])
  else Ok (infer_wav, []).
End Envelope.

(** [F.conv1d(x[None, None, :], w[None, None, :])[0, 0]]: the sliding dot
    product, one output per position where the kernel fits.  An empty
    kernel or one longer than the input is refused. *)
Definition dot (a b : list R) : R := foldr Rplus 0 (zip_with Rmult a b).

Definition conv1d (x w : list R) : res (list R) :=
  if decide (length w = 0 ∨ length x < length w)%nat then Raise RuntimeError
  else Ok ((λ o, dot (take (length w) (drop o x)) w)
           <$> seq 0 (length x - length w + 1)).

(** [cor_nom[0, 0] / cor_den[0, 0]] *)
Definition sola_scores (sola_buffer_frame sola_search_frame : Z)
    (infer_wav sola_buffer : list R) : res (list R) :=
  let conv_input :=
    get_slice infer_wav None (Some (sola_buffer_frame + sola_search_frame)%Z) in
  cor_nom ← conv1d conv_input sola_buffer;
  ones ← torch_full 1 sola_buffer_frame;
  energy ← conv1d ((λ v, v ^ 2) <$> conv_input) ones;
  let cor_den := (λ e, sqrt (e + 1e-8)) <$> energy in
  broadcast2 Rdiv cor_nom cor_den.

(** Index of the first maximal element, scanning from the left. *)
Fixpoint argmax_from (best : R) (besti i : nat) (xs : list R) : nat :=
  match xs with
  | [] => besti
  | x :: xs' =>
      if decide (best < x) then argmax_from x i (S i) xs'
      else argmax_from best besti (S i) xs'
  end.

(** [torch.argmax(t)] *)
Definition torch_argmax (xs : list R) : res nat :=
  match xs with
  | [] => Raise IndexError
  | x :: xs' => Ok (argmax_from x 0 1 xs')
  end.

(** [torch.max(t)] returns a 0-dimensional tensor holding the maximum;
    [torch.max(t, dim)] returns the pair (values, indices). *)
Inductive max_result : Type :=
| MaxValue (v : R)
| MaxValuesIndices (v : R) (i : nat).

Definition torch_max (xs : list R) (dim : option Z) : res max_result :=
  match xs with
  | [] => Raise RuntimeError
  | x :: xs' =>
      match dim with
      | None => Ok (MaxValue (foldl Rmax x xs'))
      | Some d =>
          if decide (d = 0 ∨ d = -1)%Z
          then Ok (MaxValuesIndices (foldl Rmax x xs') (argmax_from x 0 1 xs'))
          else Raise IndexError
      end
  end.

(** [a, b = r]: a 0-dimensional tensor cannot be iterated. *)
Definition unpack2 (r : max_result) : res (R * nat) :=
  match r with
  | MaxValuesIndices v i => Ok (v, i)
  | MaxValue _ => Raise TypeError
  end.

(** The offset selection under [if sys.platform == "darwin"]. *)
Definition sola_offset (platform : string) (scores : list R) : res nat :=
  if decide (platform = "darwin"%string)
  then r ← torch_max scores None;
       p ← unpack2 r;
       Ok p.2
  else torch_argmax scores.

(** The SOLA stage with the linear blend (the branch taken when the phase
    vocoder is off): the new [sola_buffer] and the output block. *)
Definition sola_stitch (platform : string) (fr : frames)
    (sola_buffer fade_in fade_out infer_wav : list R)
  : res (list R * list R) :=
  scores ← sola_scores (sola_buffer_frame fr) (sola_search_frame fr)
                       infer_wav sola_buffer;
  sola_offset ← sola_offset platform scores;
  let infer1 := get_slice infer_wav (Some (Z.of_nat sola_offset)) None in
  infer2 ← linear_crossfade (sola_buffer_frame fr) infer1 sola_buffer
                            fade_in fade_out;
  sola_buffer' ← set_slice sola_buffer None None
    (get_slice infer2 (Some (block_frame fr))
                      (Some (block_frame fr + sola_buffer_frame fr)%Z));
  Ok (sola_buffer', get_slice infer2 None (Some (block_frame fr))).

(** The search as the specification words it: the lowest offset whose
    score no other offset exceeds. *)
Definition is_first_argmax (scores : list R) (o : nat) : Prop :=
  ∃ v, scores !! o = Some v
       ∧ (∀ j w, scores !! j = Some w → w <= v)
       ∧ (∀ j w, (j < o)%nat → scores !! j = Some w → w < v).

(** [deltaphase - 2 * np.pi * torch.floor(deltaphase / 2 / np.pi + 0.5)] *)
Definition wrap_phase (deltaphase : R) : R :=
  deltaphase - 2 * PI * IZR (Zfloor (deltaphase / 2 / PI + 0.5)).

(** [deltaphase] of [phase_vocoder], from the phases of the two spectra. *)
Definition deltaphase_of (phia phib : list R) : res (list R) :=
  broadcast2 Rminus phib phia ≫= λ d : list R,
  Ok (wrap_phase <$> d).

(** The wrap as the specification describes it: every wrapped difference
    in the interval open at [-π] and closed at [π]. *)
Definition wraps_into_left_open (phia phib : list R) : Prop :=
  ∀ ds k d, deltaphase_of phia phib = Ok ds → ds !! k = Some d →
            - PI < d <= PI.

End Stitch.

(** ** The pitch worker ([Harvest.run]) *)

Module Harvest.

Section Worker.
Context {Sig F0 Tok : Type}.
(** [pyworld.harvest(x.astype(np.double), fs=16000, f0_ceil=1100,
    f0_floor=50, frame_period=10)[0]] *)
Variable harvest : Sig → F0.

(** A job as it travels on the input queue; [res_f0] is a reference to
    a shared dictionary, held in the store below. *)
Record job : Type := {
  idx : Z;
  x : Sig;
  res_f0 : nat;
  n_cpu : Z;
  ts : Tok
}.

Record shared : Type := {
  dicts : gmap nat (gmap Z F0);
  opt_q : list Tok
}.

Definition dict_of (s : shared) (r : nat) : gmap Z F0 :=
  default ∅ (dicts s !! r).

(** [res_f0[idx] = f0] *)
Definition write_result (j : job) (f0 : F0) (s : shared) : shared :=
  {| dicts := <[res_f0 j := <[idx j := f0]> (dict_of s (res_f0 j))]> (dicts s);
     opt_q := opt_q s |}.

(** [if len(res_f0.keys()) >= n_cpu: self.opt_q.put(ts)] *)
Definition signal_if_complete (j : job) (s : shared) : shared :=
  if decide (n_cpu j ≤ Z.of_nat (size (dict_of s (res_f0 j))))
  then {| dicts := dicts s; opt_q := opt_q s ++ [ts j] |}
  else s.

(** One turn of the loop body on a job already taken from the queue. *)
Definition process_job (j : job) (s : shared) : shared :=
  signal_if_complete j (write_result j (harvest (x j)) s).

(** *** The pool: workers interleave between the statements

    A worker is waiting on the input queue, or holds a computed
    contour not yet written, or has written and not yet tested the
    count.  Each dictionary and queue operation is atomic. *)
Inductive worker : Type :=
| Waiting
| Computed (j : job) (f0 : F0)
| Written (j : job).

Record pool : Type := {
  inp_q : list job;
  workers : list worker;
  mem : shared
}.

Inductive step : pool → pool → Prop :=
| step_get w j q ws s :
    ws !! w = Some Waiting →
    step {| inp_q := j :: q; workers := ws; mem := s |}
         {| inp_q := q; workers := <[w := Computed j (harvest (x j))]> ws;
            mem := s |}
| step_write w j f0 q ws s :
    ws !! w = Some (Computed j f0) →
    step {| inp_q := q; workers := ws; mem := s |}
         {| inp_q := q; workers := <[w := Written j]> ws;
            mem := write_result j f0 s |}
| step_check w j q ws s :
    ws !! w = Some (Written j) →
    step {| inp_q := q; workers := ws; mem := s |}
         {| inp_q := q; workers := <[w := Waiting]> ws;
            mem := signal_if_complete j s |}.

Inductive steps : pool → pool → Prop :=
| steps_refl p : steps p p
| steps_step p1 p2 p3 : steps p1 p2 → step p2 p3 → steps p1 p3.

(** A batch submitted to an idle pool. *)
Definition batch_start (jobs : list job) (nworkers : nat) (s : shared)
  : pool :=
  {| inp_q := jobs; workers := replicate nworkers Waiting; mem := s |}.

(** What holds of a pool working on one batch [jobs] that shares the
    dictionary [r]. *)
Definition worker_ok (jobs : list job) (w : worker) : Prop :=
  match w with
  | Waiting => True
  | Computed j f0 => j ∈ jobs ∧ f0 = harvest (x j)
  | Written j => j ∈ jobs
  end.

Record batch_inv (jobs : list job) (r : nat) (p : pool) : Prop := {
  inv_queue : ∀ j, j ∈ inp_q p → j ∈ jobs;
  inv_workers : ∀ w st, workers p !! w = Some st → worker_ok jobs st;
  inv_dict : ∀ k v, dict_of (mem p) r !! k = Some v →
                    ∃ j, j ∈ jobs ∧ idx j = k ∧ v = harvest (x j);
  inv_signal : opt_q (mem p) ≠ [] →
               ∀ j, j ∈ jobs → dict_of (mem p) r !! idx j = Some (harvest (x j))
}.

End Worker.

End Harvest.

(** ** The control loop ([GUI.event_handler], [set_values], [start_vc],
    [start_stream], [stop_stream], [update_devices])

    [self.gui_config] is an object whose attributes are assigned by name,
    and [values] is the dictionary returned by [window.read()]: both are
    maps from names to Python values.  Window updates, the delay display
    and the saved settings file are not modelled. *)

Module Events.
Import Session.

Inductive pyval : Type :=
| VNone
| VBool (b : bool)
| VInt (z : Z)
| VFloat (q : Q)
| VStr (s : string).

(** [d[k]] and [o.k] *)
Definition getitem (d : gmap string pyval) (k : string) : res pyval :=
  match d !! k with
  | Some v => Ok v
  | None => Raise KeyError
  end.

Definition getattr (o : gmap string pyval) (k : string) : res pyval :=
  match o !! k with
  | Some v => Ok v
  | None => Raise AttributeError
  end.

Definition as_num (v : pyval) : res Q :=
  match v with
  | VBool b => Ok (if b then 1 else 0)%Q
  | VInt z => Ok (inject_Z z)
  | VFloat q => Ok q
  | _ => Raise TypeError
  end.

(** The string of a value on which a string method is called. *)
Definition as_str (v : pyval) : res string :=
  match v with
  | VStr s => Ok s
  | _ => Raise AttributeError
  end.

(** [v == True] *)
Definition eq_True (v : pyval) : bool :=
  match v with
  | VBool b => b
  | VInt z => z =? 1
  | VFloat q => Qeq_bool q 1
  | _ => false
  end.

(** [v in l] for a list of strings *)
Definition in_strs (v : pyval) (l : list string) : bool :=
  match v with
  | VStr s => bool_decide (s ∈ l)
  | _ => false
  end.

(** [names[flags.index(True)]] *)
Fixpoint select_true (names : list string) (flags : list pyval) : res string :=
  match names, flags with
  | n :: names', f :: flags' =>
      if eq_True f then Ok n else select_true names' flags'
  | _, _ => Raise ValueError
  end.

(** [l[0]] *)
Definition first (l : list string) : res string :=
  match l with
  | x :: _ => Ok x
  | [] => Raise IndexError
  end.

(** The whitespace [str.strip] removes, and the bytes the pattern
    [[^\x00-\x7F]+] finds: in UTF-8 a character beyond [\x7F] is made of
    bytes beyond [\x7F]. *)
Definition is_space (a : ascii) : bool :=
  let n := N_of_ascii a in
  ((9 <=? n) && (n <=? 13) || (28 <=? n) && (n <=? 32))%N.

Definition blank (s : string) : bool :=
  forallb is_space (list_ascii_of_string s).

Definition has_non_ascii (s : string) : bool :=
  existsb (λ a, (128 <=? N_of_ascii a)%N) (list_ascii_of_string s).

(** The hot-settable parameters held by the inference engine, as the
    constructor call and the three setters of [start_vc] and
    [event_handler] pass them. *)
Record rvc_params : Type := {
  rvc_key : pyval;
  rvc_formant : pyval;
  rvc_index_rate : pyval;
  rvc_n_cpu : pyval
}.

(** What the outside world answers when asked: the host APIs and their
    devices, the model's sample rate, the device's rate and channels. *)
Record env : Type := {
  env_hostapis : list string;
  env_inputs : string → list string;
  env_outputs : string → list string;
  env_tgt_sr : Z;
  env_device_samplerate : Z;
  env_channels : Z
}.

(** The state of the program: the attributes of [self] and the global
    [flag_vc].  [stream] tells whether [self.stream] holds a stream
    object ([false] for [None]); [stream_open] tells whether that stream
    is open in PortAudio, which [sd._terminate()] ends for every
    stream. *)
Record state : Type := {
  gui_config : gmap string pyval;
  flag_vc : bool;
  stream : bool;
  stream_open : bool;
  function : string;
  rvc : option rvc_params;
  session : option (frames * buffers);
  hostapis : list string;
  input_devices : list string;
  output_devices : list string
}.

Definition with_config (c : gmap string pyval) (st : state) : state :=
  {| gui_config := c; flag_vc := flag_vc st; stream := stream st;
     stream_open := stream_open st;
     function := function st; rvc := rvc st; session := session st;
     hostapis := hostapis st; input_devices := input_devices st;
     output_devices := output_devices st |}.

Definition with_flag (b : bool) (st : state) : state :=
  {| gui_config := gui_config st; flag_vc := b; stream := stream st;
     stream_open := stream_open st;
     function := function st; rvc := rvc st; session := session st;
     hostapis := hostapis st; input_devices := input_devices st;
     output_devices := output_devices st |}.

Definition with_stream (b : bool) (st : state) : state :=
  {| gui_config := gui_config st; flag_vc := flag_vc st; stream := b;
     stream_open := stream_open st;
     function := function st; rvc := rvc st; session := session st;
     hostapis := hostapis st; input_devices := input_devices st;
     output_devices := output_devices st |}.

Definition with_stream_open (b : bool) (st : state) : state :=
  {| gui_config := gui_config st; flag_vc := flag_vc st; stream := stream st;
     stream_open := b;
     function := function st; rvc := rvc st; session := session st;
     hostapis := hostapis st; input_devices := input_devices st;
     output_devices := output_devices st |}.

Definition with_function (f : string) (st : state) : state :=
  {| gui_config := gui_config st; flag_vc := flag_vc st; stream := stream st;
     stream_open := stream_open st;
     function := f; rvc := rvc st; session := session st;
     hostapis := hostapis st; input_devices := input_devices st;
     output_devices := output_devices st |}.

Definition with_rvc (r : option rvc_params) (st : state) : state :=
  {| gui_config := gui_config st; flag_vc := flag_vc st; stream := stream st;
     stream_open := stream_open st;
     function := function st; rvc := r; session := session st;
     hostapis := hostapis st; input_devices := input_devices st;
     output_devices := output_devices st |}.

Definition with_session (s : option (frames * buffers)) (st : state) : state :=
  {| gui_config := gui_config st; flag_vc := flag_vc st; stream := stream st;
     stream_open := stream_open st;
     function := function st; rvc := rvc st; session := s;
     hostapis := hostapis st; input_devices := input_devices st;
     output_devices := output_devices st |}.

Definition with_devices (h i o : list string) (st : state) : state :=
  {| gui_config := gui_config st; flag_vc := flag_vc st; stream := stream st;
     stream_open := stream_open st;
     function := function st; rvc := rvc st; session := session st;
     hostapis := h; input_devices := i; output_devices := o |}.

(** [self.gui_config.k = v] *)
Definition setattr (k : string) (v : pyval) (st : state) : state :=
  with_config (<[k := v]> (gui_config st)) st.

(** [update_devices(hostapi_name)]: clears the running flag, terminates
    PortAudio, which closes every open stream, starts it again and
    reads the device lists. *)
Definition update_devices (e : env) (hostapi_name : pyval) (st : state)
  : res state :=
  let st := with_flag false st in
  let st := with_stream_open false st in
  let hs := env_hostapis e in
  name ← (match hostapi_name with
          | VStr n => if bool_decide (n ∈ hs) then Ok n else first hs
          | _ => first hs
          end);
  Ok (with_devices hs (env_inputs e name) (env_outputs e name) st).

(** [set_devices]: each chosen device must be listed. *)
Definition set_devices (input_device output_device : pyval) (st : state)
  : res state :=
  if in_strs input_device (input_devices st)
     && in_strs output_device (output_devices st)
  then Ok st else Raise ValueError.

(** [start_stream]: unless the flag is set, sets it, makes a stream and
    starts it. *)
Definition start_stream (st : state) : state :=
  if flag_vc st then st
  else with_stream_open true (with_stream true (with_flag true st)).

(** [stop_stream]: when the flag is set, clears it and, if a stream is
    held, aborts it, closes it and forgets it. *)
Definition stop_stream (st : state) : state :=
  if flag_vc st then
    let st := with_flag false st in
    if stream st then with_stream false (with_stream_open false st) else st
  else st.

(** The branch [event == "reload_devices" or event == "sg_hostapi"] *)
Definition reload_devices (e : env) (values : gmap string pyval) (st : state)
  : res state :=
  h ← getitem values "sg_hostapi";
  let st := setattr "sg_hostapi" h st in
  st ← update_devices e h st;
  st ← (if in_strs h (hostapis st) then Ok st
        else h0 ← first (hostapis st); Ok (setattr "sg_hostapi" (VStr h0) st));
  i ← getattr (gui_config st) "sg_input_device";
  st ← (if negb (in_strs i (input_devices st))
           && bool_decide (0 < length (input_devices st))%nat
        then i0 ← first (input_devices st);
             Ok (setattr "sg_input_device" (VStr i0) st)
        else Ok st);
  o ← getattr (gui_config st) "sg_output_device";
  if negb (in_strs o (output_devices st))
  then o0 ← first (output_devices st);
       Ok (setattr "sg_output_device" (VStr o0) st)
  else Ok st.

(** [self.gui_config.dst = values[src]], one assignment after another *)
Fixpoint copy_values (values : gmap string pyval)
    (pairs : list (string * string)) (st : state) : res state :=
  match pairs with
  | [] => Ok st
  | (dst, src) :: pairs' =>
      v ← getitem values src;
      copy_values values pairs' (setattr dst v st)
  end.

Definition f0methods : list string := ["pm"; "harvest"; "crepe"; "rmvpe"; "fcpe"].

(** The assignments of [set_values], once both paths are accepted. *)
Definition assign_values (values : gmap string pyval) (st : state)
  : res (bool * state) :=
  di ← getitem values "sg_input_device";
  do ← getitem values "sg_output_device";
  st ← set_devices di do st;
  st ← copy_values values
         [("sg_hostapi", "sg_hostapi");
          ("sg_wasapi_exclusive", "sg_wasapi_exclusive");
          ("sg_input_device", "sg_input_device");
          ("sg_output_device", "sg_output_device");
          ("pth_path", "pth_path");
          ("index_path", "index_path")] st;
  m ← getitem values "sr_model";
  d ← getitem values "sr_device";
  sr ← select_true ["sr_model"; "sr_device"] [m; d];
  let st := setattr "sr_type" (VStr sr) st in
  st ← copy_values values
         [("threhold", "threhold");
          ("pitch", "pitch");
          ("formant", "formant");
          ("block_time", "block_time");
          ("crossfade_time", "crossfade_length");
          ("extra_time", "extra_time");
          ("I_noise_reduce", "I_noise_reduce");
          ("O_noise_reduce", "O_noise_reduce");
          ("use_pv", "use_pv");
          ("rms_mix_rate", "rms_mix_rate");
          ("index_rate", "index_rate");
          ("n_cpu", "n_cpu")] st;
  flags ← mapM (getitem values) f0methods;
  f0 ← select_true f0methods flags;
  Ok (true, setattr "f0method" (VStr f0) st).

(** [set_values]: [false] when a path is refused, before any assignment. *)
Definition set_values (values : gmap string pyval) (st : state)
  : res (bool * state) :=
  p ← getitem values "pth_path" ≫= as_str;
  if blank p then Ok (false, st) else
  i ← getitem values "index_path" ≫= as_str;
  if blank i then Ok (false, st) else
  if has_non_ascii p then Ok (false, st) else
  if has_non_ascii i then Ok (false, st) else
  assign_values values st.

(** [start_vc]: builds the engine, sizes the session, starts the stream. *)
Definition start_vc (e : env) (st : state) : res state :=
  let c := gui_config st in
  pitch ← getattr c "pitch";
  formant ← getattr c "formant";
  _ ← getattr c "pth_path";
  _ ← getattr c "index_path";
  index_rate ← getattr c "index_rate";
  n_cpu ← getattr c "n_cpu";
  let st := with_rvc (Some {| rvc_key := pitch; rvc_formant := formant;
                              rvc_index_rate := index_rate;
                              rvc_n_cpu := n_cpu |}) st in
  sr_type ← getattr c "sr_type";
  let samplerate :=
    match sr_type with
    | VStr "sr_model" => env_tgt_sr e
    | _ => env_device_samplerate e
    end in
  let st := setattr "samplerate" (VInt samplerate) st in
  let st := setattr "channels" (VInt (env_channels e)) st in
  block_time ← getattr c "block_time" ≫= as_num;
  crossfade_time ← getattr c "crossfade_time" ≫= as_num;
  extra_time ← getattr c "extra_time" ≫= as_num;
  fb ← start_vc_buffers block_time crossfade_time extra_time samplerate;
  Ok (start_stream (with_session (Some fb) st)).

(** The chain under "Parameter hot update". *)
Definition on_rvc (f : rvc_params → rvc_params) (st : state) : state :=
  with_rvc (f <$> rvc st) st.

Definition hot_update (event : string) (values : gmap string pyval)
    (st : state) : res state :=
  if decide (event = "threhold") then
    v ← getitem values "threhold"; Ok (setattr "threhold" v st)
  else if decide (event = "pitch") then
    v ← getitem values "pitch";
    Ok (on_rvc (λ r, {| rvc_key := v; rvc_formant := rvc_formant r;
                        rvc_index_rate := rvc_index_rate r;
                        rvc_n_cpu := rvc_n_cpu r |})
               (setattr "pitch" v st))
  else if decide (event = "formant") then
    v ← getitem values "formant";
    Ok (on_rvc (λ r, {| rvc_key := rvc_key r; rvc_formant := v;
                        rvc_index_rate := rvc_index_rate r;
                        rvc_n_cpu := rvc_n_cpu r |})
               (setattr "formant" v st))
  else if decide (event = "index_rate") then
    v ← getitem values "index_rate";
    Ok (on_rvc (λ r, {| rvc_key := rvc_key r; rvc_formant := rvc_formant r;
                        rvc_index_rate := v;
                        rvc_n_cpu := rvc_n_cpu r |})
               (setattr "index_rate" v st))
  else if decide (event = "rms_mix_rate") then
    v ← getitem values "rms_mix_rate"; Ok (setattr "rms_mix_rate" v st)
  else if bool_decide (event ∈ f0methods) then
    Ok (setattr "f0method" (VStr event) st)
  else if decide (event = "I_noise_reduce") then
    v ← getitem values "I_noise_reduce"; Ok (setattr "I_noise_reduce" v st)
  else if decide (event = "O_noise_reduce") then
    v ← getitem values "O_noise_reduce"; Ok (setattr "O_noise_reduce" v st)
  else if decide (event = "use_pv") then
    v ← getitem values "use_pv"; Ok (setattr "use_pv" v st)
  else if bool_decide (event ∈ ["vc"; "im"]) then
    Ok (with_function event st)
  else if bool_decide (event = "stop_vc") || negb (bool_decide (event = "start_vc"))
  then Ok (stop_stream st)
  else Ok st.

Inductive outcome : Type :=
| Continue (st : state)
| Exit (st : state).

(** One turn of the loop of [event_handler]; [None] is the closed
    window. *)
Definition handle (e : env) (event : option string)
    (values : gmap string pyval) (st : state) : res outcome :=
  match event with
  | None => Ok (Exit (stop_stream st))
  | Some ev =>
      st ← (if bool_decide (ev = "reload_devices") || bool_decide (ev = "sg_hostapi")
            then reload_devices e values st else Ok st);
      st ← (if bool_decide (ev = "start_vc") && negb (flag_vc st)
            then set_values values st ≫= λ r : bool * state,
                 if fst r then start_vc e (snd r) else Ok (snd r)
            else Ok st);
      st ← hot_update ev values st;
      Ok (Continue st)
  end.

(** The session parameters the specification lists as fixed while the
    stream runs, and the three it lets change. *)
Definition session_parameters : list string :=
  ["block_time"; "crossfade_time"; "extra_time"; "threhold";
   "I_noise_reduce"; "O_noise_reduce"; "rms_mix_rate"; "use_pv";
   "f0method"; "n_cpu"].

Definition hot_parameters : list string := ["pitch"; "formant"; "index_rate"].

(** A turn of the loop during which the stream runs: the running flag is
    set before and after. *)
Definition streaming_turn (st st' : state) : Prop :=
  flag_vc st = true ∧ flag_vc st' = true
  ∧ ∃ e ev values, handle e ev values st = Ok (Continue st').

(** The claim: no session parameter changes in such a turn, and whatever
    attribute changes is one of the three hot parameters. *)
Definition frozen_while_streaming : Prop :=
  ∀ st st', streaming_turn st st' →
    (∀ k, k ∈ session_parameters → gui_config st' !! k = gui_config st !! k)
    ∧ (∀ k, gui_config st' !! k ≠ gui_config st !! k → k ∈ hot_parameters).

(** What the loop does change in such a turn. *)
Definition hot_updated : list string :=
  ["threhold"; "pitch"; "formant"; "index_rate"; "rms_mix_rate"; "f0method";
   "I_noise_reduce"; "O_noise_reduce"; "use_pv"].

Definition fixed_parameters : list string :=
  ["block_time"; "crossfade_time"; "extra_time"; "n_cpu"].

(** A running session with the default settings of [GUIConfig], and the
    slider values read when the threshold slider is moved to -30. *)
Definition running_defaults : state :=
  {| gui_config :=
       <["block_time" := VFloat (25 # 100)]>
       (<["crossfade_time" := VFloat (5 # 100)]>
       (<["extra_time" := VFloat (25 # 10)]>
       (<["n_cpu" := VInt 4]>
       (<["threhold" := VInt (-60)]>
       (<["rms_mix_rate" := VFloat 0]> ∅)))));
     flag_vc := true; stream := true; stream_open := true;
     function := "vc";
     rvc := None; session := None;
     hostapis := ["MME"]; input_devices := ["mic"];
     output_devices := ["speakers"] |}.

Definition threshold_moved : gmap string pyval :=
  <["threhold" := VFloat (-30 # 1)]> ∅.

(** An idle program and the values read when "Start" is pressed with the
    defaults, for a model that reports a 100 Hz rate. *)
Definition idle_defaults : state :=
  with_stream false (with_stream_open false (with_flag false running_defaults)).

Definition start_values : gmap string pyval :=
  list_to_map
    [("pth_path", VStr "voice.pth"); ("index_path", VStr "voice.index");
     ("sg_hostapi", VStr "MME"); ("sg_wasapi_exclusive", VBool false);
     ("sg_input_device", VStr "mic"); ("sg_output_device", VStr "speakers");
     ("sr_model", VBool true); ("sr_device", VBool false);
     ("threhold", VFloat (-60 # 1)); ("pitch", VFloat 0);
     ("formant", VFloat 0); ("index_rate", VFloat 0);
     ("rms_mix_rate", VFloat 0); ("block_time", VFloat (10 # 100));
     ("crossfade_length", VFloat (15 # 100)); ("extra_time", VFloat (5 # 100));
     ("n_cpu", VFloat (4 # 1)); ("I_noise_reduce", VBool false);
     ("O_noise_reduce", VBool false); ("use_pv", VBool false);
     ("pm", VBool false); ("harvest", VBool false); ("crepe", VBool false);
     ("rmvpe", VBool false); ("fcpe", VBool true)].

Definition slow_env : env :=
  {| env_hostapis := ["MME"]; env_inputs := λ _, ["mic"];
     env_outputs := λ _, ["speakers"]; env_tgt_sr := 100;
     env_device_samplerate := 48000; env_channels := 2 |}.

Definition quiet_env : env :=
  {| env_hostapis := ["MME"]; env_inputs := λ _, ["mic"];
     env_outputs := λ _, ["speakers"]; env_tgt_sr := 40000;
     env_device_samplerate := 48000; env_channels := 2 |}.

End Events.

(** ** One worker alone on the input queue ([Harvest.run], the [while]
    loop) *)

Module HarvestLoop.
Import Harvest.

Section Loop.
Context {Sig F0 Tok : Type}.
Variable harvest : Sig → F0.

(** The loop of a single worker over the jobs waiting in the queue, taken
    in order: each turn is [process_job]. *)
Definition drain (jobs : list (@job Sig Tok)) (s : @shared F0 Tok)
  : @shared F0 Tok :=
  foldl (λ s j, process_job harvest j s) s jobs.

End Loop.

End HarvestLoop.

(** ** The radio flags of the saved settings ([GUI.load]) *)

Module Startup.
Import Events.

(** [data[flag] = data[key] == flag] *)
Definition derive_flag (key flag : string) (data : gmap string pyval)
  : res (gmap string pyval) :=
  v ← getitem data key;
  Ok (<[flag := VBool (match v with
                       | VStr s => bool_decide (s = flag)
                       | _ => false
                       end)]> data).

(** The seven assignments that follow [json.load] (and that close the
    fallback branch): the radio buttons of the sample-rate choice and of
    the pitch method. *)
Definition derive_flags (data : gmap string pyval) : res (gmap string pyval) :=
  data ← derive_flag "sr_type" "sr_model" data;
  data ← derive_flag "sr_type" "sr_device" data;
  data ← derive_flag "f0method" "pm" data;
  data ← derive_flag "f0method" "harvest" data;
  data ← derive_flag "f0method" "crepe" data;
  data ← derive_flag "f0method" "rmvpe" data;
  derive_flag "f0method" "fcpe" data.

(** What [set_values] reads back from the radio buttons. *)
Definition chosen_f0method (values : gmap string pyval) : res string :=
  flags ← mapM (getitem values) f0methods;
  select_true f0methods flags.

Definition chosen_sr_type (values : gmap string pyval) : res string :=
  m ← getitem values "sr_model";
  d ← getitem values "sr_device";
  select_true ["sr_model"; "sr_device"] [m; d].

End Startup.

(** ** Facts the control loop keeps *)

Module EventsInv.
Import Session Events.

(** The events the loop has a branch for; every other name falls into
    the last [elif]. *)
Definition handled_events : list string :=
  ["reload_devices"; "sg_hostapi"; "start_vc"; "threhold"; "pitch";
   "formant"; "index_rate"; "rms_mix_rate"; "pm"; "harvest"; "crepe";
   "rmvpe"; "fcpe"; "I_noise_reduce"; "O_noise_reduce"; "use_pv"; "vc";
   "im"].

(** The engine holds the pitch, formant and index rate of the
    configuration. *)
Definition engine_in_sync (st : state) : Prop :=
  ∀ r, rvc st = Some r →
       gui_config st !! "pitch" = Some (rvc_key r)
       ∧ gui_config st !! "formant" = Some (rvc_formant r)
       ∧ gui_config st !! "index_rate" = Some (rvc_index_rate r).

(** The sizes and buffers of the session are those the configured times
    and sample rate give. *)
Definition session_coherent (st : state) : Prop :=
  ∀ fb, session st = Some fb →
    ∃ vb vc ve bt ct et sr,
      gui_config st !! "block_time" = Some vb ∧ as_num vb = Ok bt
      ∧ gui_config st !! "crossfade_time" = Some vc ∧ as_num vc = Ok ct
      ∧ gui_config st !! "extra_time" = Some ve ∧ as_num ve = Ok et
      ∧ gui_config st !! "samplerate" = Some (VInt sr)
      ∧ start_vc_buffers bt ct et sr = Ok fb.

(** The attributes the device branch writes, and what it leaves alone. *)
Definition device_keys : list string :=
  ["sg_hostapi"; "sg_input_device"; "sg_output_device"].

Definition same_but_devices (st st' : state) : Prop :=
  rvc st' = rvc st ∧ session st' = session st ∧ stream st' = stream st
  ∧ function st' = function st
  ∧ ∀ k, k ∉ device_keys → gui_config st' !! k = gui_config st !! k.

End EventsInv.

(** ** The phase-vocoder blend ([phase_vocoder]) *)

Module PhaseVocoder.
Import Session Stitch.

#[local] Open Scope R_scope.

(** [torch.arange(n)] *)
Definition arange (n : Z) : list R := IZR <$> seqZ 0 n.

(** [absab[1:-1] *= 2] for an even size, [absab[1:] *= 2] for an odd
    one. *)
Definition double_bins (n : Z) (absab : list R) : res (list R) :=
  let stop := if decide (n mod 2 = 0)%Z then Some (-1)%Z else None in
  set_slice absab (Some 1%Z) stop
            ((λ v, v * 2) <$> get_slice absab (Some 1%Z) stop).

Section Vocoder.
(** [torch.fft.rfft]: the transform is the library's.  The blend reads
    only [torch.abs] and [torch.angle] of a spectrum, so a bin is the
    pair of its magnitude and of its phase. *)
Variable rfft : list R → res (list (R * R)).

Definition phase_vocoder (a b fade_out fade_in : list R) : res (list R) :=
  fofi ← broadcast2 Rmult fade_out fade_in;
  let window := sqrt <$> fofi in
  aw ← broadcast2 Rmult a window;
  fa ← rfft aw;
  bw ← broadcast2 Rmult b window;
  fb ← rfft bw;
  absab ← broadcast2 Rplus (fst <$> fa) (fst <$> fb);
  let n := Z.of_nat (length a) in
  absab ← double_bins n absab;
  let phia := snd <$> fa in
  let phib := snd <$> fb in
  deltaphase ← deltaphase_of phia phib;
  w ← broadcast2 Rplus ((λ k, 2 * PI * k) <$> arange (n / 2 + 1)) deltaphase;
  let t := (λ i, i / IZR n) <$> arange n in
  (** [absab * torch.cos(w * t + phia)] has one row per element of the
      column [t]; the sizes of [w], [phia] and [absab] are matched once,
      for all rows. *)
  wp ← broadcast2 pair w phia;
  cols ← broadcast2 pair absab wp;
  let sums :=
    (λ ti, foldr Rplus 0
             ((λ c : R * (R * R), c.1 * cos (c.2.1 * ti + c.2.2)) <$> cols))
    <$> t in
  afo ← broadcast2 Rmult a ((λ v, v ^ 2) <$> fade_out);
  bfi ← broadcast2 Rmult b ((λ v, v ^ 2) <$> fade_in);
  direct ← broadcast2 Rplus afo bfi;
  sw ← broadcast2 Rmult sums window;
  broadcast2 Rplus direct ((λ v, v / IZR n) <$> sw).

End Vocoder.

End PhaseVocoder.

(** ** One block through the engine ([GUI.audio_callback]) *)

Module Callback.
Import Session Stitch NoiseGate RingBuffer PhaseVocoder.

(** What the callback reads of [self.gui_config] and [self.function]. *)
Record settings : Type := {
  threhold : Q;
  I_noise_reduce : bool;
  O_noise_reduce : bool;
  rms_mix_rate : Q;
  use_pv : bool;
  f0method : string;
  function : string
}.

(** [outdata[:] = block]: [outdata] has one row per frame of the
    block handed in; the block is repeated on every channel. *)
Definition write_outdata (frames : nat) (block : list R) : res (list R) :=
  if decide (length block = frames) then Ok block
  else match block with
       | [x] => Ok (replicate frames x)
       | _ => Raise ValueError
       end.

Section Engine.
(** The libraries the callback calls: librosa's RMS mask, the spectral
    gate [self.tg], the resampler to 16 kHz, [self.rvc.infer], the
    resampler back to the device rate ([None] when the rates agree),
    the interpolated RMS contour, [torch.pow] and [torch.fft.rfft]. *)
Variable frames_below : list R → Z → Q → list bool.
Variable tg : list R → list R → list R.
Variable resampler : list R → list R.
Variable infer : list R → Z → Z → Z → string → res (list R).
Variable resampler2 : option (list R → list R).
Variable rms_contour : list R → Z → Z → nat → list R.
Variable torch_pow : R → R → R.
Variable rfft : list R → res (list (R * R)).
(** [sys.platform] and [str(self.config.device)] *)
Variables platform device : string.

(** "Input noise reduction and resampling": the new
    [input_wav_denoise], [nr_buffer] and [input_wav_res]. *)
Definition denoise_and_resample (cfg : settings) (fr : frames) (b : buffers)
    (indata input_wav' res1 : list R) : res (list R * list R * list R) :=
  if I_noise_reduce cfg then
    d1 ← shift_left (block_frame fr) (input_wav_denoise b);
    let iw := get_slice input_wav'
                (Some (- sola_buffer_frame fr - block_frame fr)) None in
    let iw := tg iw input_wav' in
    iw ← linear_crossfade (sola_buffer_frame fr) iw (nr_buffer b)
                          (fade_in_window b) (fade_out_window b);
    d2 ← set_slice d1 (Some (- block_frame fr)) None
                   (get_slice iw None (Some (block_frame fr)));
    nr' ← set_slice (nr_buffer b) None None
                    (get_slice iw (Some (block_frame fr)) None);
    r ← set_slice res1 (Some (- block_frame_16k fr - 160)) None
          (get_slice
             (resampler (get_slice d2 (Some (- block_frame fr - 2 * zc fr)) None))
             (Some 160) None);
    Ok (d2, nr', r)
  else
    let n := Z.of_nat (length indata) in
    let src :=
      get_slice (resampler (get_slice input_wav' (Some (- n - 2 * zc fr)) None))
                (Some 160) None in
    q ← py_floordiv n (zc fr);
    r ← set_slice res1 (Some (- 160 * (q + 1))) None src;
    Ok (input_wav_denoise b, nr_buffer b, r).

(** "Inference logic for conversion" *)
Definition infer_block (cfg : settings) (fr : frames)
    (input_wav' denoise' res' : list R) : res (list R) :=
  if decide (function cfg = "vc"%string) then
    w ← infer res' (block_frame_16k fr) (skip_head fr) (return_length fr)
              (f0method cfg);
    Ok (match resampler2 with Some f => f w | None => w end)
  else if I_noise_reduce cfg then
    Ok (get_slice denoise' (Some (extra_frame fr)) None)
  else Ok (get_slice input_wav' (Some (extra_frame fr)) None).

(** "Output noise reduction": the new [output_buffer] and the block. *)
Definition output_denoise (cfg : settings) (fr : frames) (b : buffers)
    (infer_wav : list R) : res (list R * list R) :=
  if O_noise_reduce cfg && bool_decide (function cfg = "vc"%string) then
    ob ← shift_left (block_frame fr) (output_buffer b);
    ob ← set_slice ob (Some (- block_frame fr)) None
                   (get_slice infer_wav (Some (- block_frame fr)) None);
    Ok (ob, tg infer_wav ob)
  else Ok (output_buffer b, infer_wav).

(** The blend of the SOLA stage: linear on a "privateuseone" device or
    with the phase vocoder off, the phase vocoder otherwise. *)
Definition blend (cfg : settings) (fr : frames) (b : buffers)
    (infer_wav : list R) : res (list R) :=
  if bool_decide (is_Some (String.index 0 "privateuseone" device))
     || negb (use_pv cfg)
  then linear_crossfade (sola_buffer_frame fr) infer_wav (sola_buffer b)
                        (fade_in_window b) (fade_out_window b)
  else
    head ← phase_vocoder rfft (sola_buffer b)
             (get_slice infer_wav None (Some (sola_buffer_frame fr)))
             (fade_out_window b) (fade_in_window b);
    set_slice infer_wav None (Some (sola_buffer_frame fr)) head.

(** "SOLA algorithm": the offset search, the blend, the new
    [sola_buffer] and the block written to [outdata]. *)
Definition stitch (cfg : settings) (fr : frames) (b : buffers)
    (frames : nat) (infer_wav : list R) : res (list R * list R) :=
  scores ← sola_scores (sola_buffer_frame fr) (sola_search_frame fr)
                       infer_wav (sola_buffer b);
  sola_offset ← sola_offset platform scores;
  let infer_wav := get_slice infer_wav (Some (Z.of_nat sola_offset)) None in
  infer_wav ← blend cfg fr b infer_wav;
  sola_buffer' ← set_slice (sola_buffer b) None None
    (get_slice infer_wav (Some (block_frame fr))
                         (Some (block_frame fr + sola_buffer_frame fr)%Z));
  outdata ← write_outdata frames
              (get_slice infer_wav None (Some (block_frame fr)));
  Ok (sola_buffer', outdata).

(** The callback on one mono block: the buffers it leaves in [self] and
    the block it writes to [outdata]. *)
Definition audio_callback (cfg : settings) (fr : frames) (b : buffers)
    (indata : list R) : res (buffers * list R) :=
  let frames := length indata in
  '(rms_buffer', indata) ←
    noise_gate 0%R frames_below (zc fr) (threhold cfg) (rms_buffer b) indata;
  input_wav' ← update_input_wav (block_frame fr) indata (input_wav b);
  res1 ← shift_left (block_frame_16k fr) (input_wav_res b);
  '(denoise', nr', res') ←
    denoise_and_resample cfg fr b indata input_wav' res1;
  infer_wav ← infer_block cfg fr input_wav' denoise' res';
  '(output_buffer', infer_wav) ← output_denoise cfg fr b infer_wav;
  '(infer_wav, _) ←
    envelope_mix rms_contour torch_pow (rms_mix_rate cfg) (I_noise_reduce cfg)
                 (function cfg) (zc fr) (extra_frame fr)
                 input_wav' denoise' infer_wav;
  '(sola_buffer', outdata) ← stitch cfg fr b frames infer_wav;
  Ok ({| input_wav := input_wav'; input_wav_denoise := denoise';
         input_wav_res := res'; rms_buffer := rms_buffer';
         sola_buffer := sola_buffer'; nr_buffer := nr';
         output_buffer := output_buffer';
         fade_in_window := fade_in_window b;
         fade_out_window := fade_out_window b |},
      outdata).

(** The stream: the callback once per block, the settings of the moment
    read at each call, the buffers carried from call to call; an
    exception ends the stream. *)
Fixpoint stream (fr : frames) (b : buffers)
    (blocks : list (settings * list R)) : res (buffers * list (list R)) :=
  match blocks with
  | [] => Ok (b, [])
  | (cfg, indata) :: rest =>
      '(b1, out) ← audio_callback cfg fr b indata;
      '(b2, outs) ← stream fr b1 rest;
      Ok (b2, out :: outs)
  end.

(** The sizes the libraries keep: the gate returns a signal of the size
    of its input, the resampler returns 160 samples per [zc] samples,
    the contour has the size asked for, the inference (brought back to
    the device rate) has at least the block, the overlap and the search
    range, and the transform of [n] samples has [n // 2 + 1] bins. *)
Record library_sizes (fr : frames) : Prop := {
  tg_size : ∀ x y, length (tg x y) = length x;
  resampler_size : ∀ x k, Z.of_nat (length x) = k * zc fr →
                          Z.of_nat (length (resampler x)) = 160 * k;
  rms_contour_size : ∀ y fl hop n, length (rms_contour y fl hop n) = n;
  infer_size : ∀ x f0, ∃ w,
    infer x (block_frame_16k fr) (skip_head fr) (return_length fr) f0 = Ok w
    ∧ block_frame fr + sola_buffer_frame fr + sola_search_frame fr
      <= Z.of_nat (length (match resampler2 with Some f => f w | None => w end));
  rfft_size : ∀ x, ∃ f, rfft x = Ok f
                        ∧ Z.of_nat (length f) = Z.of_nat (length x) / 2 + 1
}.

End Engine.

(** The sizes of a session that the callback relies on. *)
Record shaped (fr : frames) (b : buffers) : Prop := {
  shaped_zc : 0 < zc fr;
  shaped_block : 1 <= block_frame fr ∧ (zc fr | block_frame fr);
  shaped_16k : block_frame_16k fr * zc fr = 160 * block_frame fr;
  shaped_cross : (zc fr | crossfade_frame fr);
  shaped_sola : 1 <= sola_buffer_frame fr <= crossfade_frame fr;
  shaped_search : sola_search_frame fr = zc fr;
  shaped_extra : 0 <= extra_frame fr ∧ (zc fr | extra_frame fr);
  shaped_input :
    Z.of_nat (length (input_wav b))
    = extra_frame fr + crossfade_frame fr + sola_search_frame fr
      + block_frame fr;
  shaped_denoise : length (input_wav_denoise b) = length (input_wav b);
  shaped_output : length (output_buffer b) = length (input_wav b);
  shaped_res :
    Z.of_nat (length (input_wav_res b)) * zc fr
    = 160 * Z.of_nat (length (input_wav b));
  shaped_rms : Z.of_nat (length (rms_buffer b)) = 4 * zc fr;
  shaped_sola_buffer : Z.of_nat (length (sola_buffer b)) = sola_buffer_frame fr;
  shaped_nr : Z.of_nat (length (nr_buffer b)) = sola_buffer_frame fr;
  shaped_fade_in : Z.of_nat (length (fade_in_window b)) = sola_buffer_frame fr;
  shaped_fade_out : Z.of_nat (length (fade_out_window b)) = sola_buffer_frame fr
}.

End Callback.

(** ** A session at 100 Hz and stand-ins for the libraries

    At a device rate of 100 Hz [zc] is 1: a block of 20 ms has two
    samples.  The stand-ins have the sizes of the libraries' results and
    are used to run the callback on examples. *)

Module Standin.
Import Session Callback.

Definition fr : frames :=
  {| zc := 1; block_frame := 2; block_frame_16k := 320;
     crossfade_frame := 1; sola_buffer_frame := 1; sola_search_frame := 1;
     extra_frame := 2; skip_head := 2; return_length := 4 |}.

Definition bufs : buffers :=
  {| input_wav := replicate 6 0%R; input_wav_denoise := replicate 6 0%R;
     input_wav_res := replicate 960 0%R; rms_buffer := replicate 4 0%R;
     sola_buffer := [0%R]; nr_buffer := [0%R];
     output_buffer := replicate 6 0%R;
     fade_in_window := [0%R]; fade_out_window := [1%R] |}.

Definition frames_below (y : list R) (zc : Z) (threhold : Q) : list bool := [].
Definition tg (x y : list R) : list R := x.
Definition resampler (x : list R) : list R := replicate (160 * length x) 0%R.
Definition infer (x : list R) (block_frame_16k skip_head return_length : Z)
    (f0method : string) : res (list R) :=
  Ok (replicate (Z.to_nat return_length) 0%R).
Definition rms_contour (y : list R) (frame_length hop_length : Z) (n : nat)
  : list R := replicate n 1%R.
Definition torch_pow (x e : R) : R := x.
Definition rfft (x : list R) : res (list (R * R)) :=
  Ok (replicate (length x / 2 + 1) (0%R, 0%R)).

(** Monitoring: the gate at its sentinel, nothing else switched on. *)
Definition monitor : settings :=
  {| threhold := -60; I_noise_reduce := false; O_noise_reduce := false;
     rms_mix_rate := 1; use_pv := false; f0method := "rmvpe";
     function := "im" |}.

(** Conversion with every stage switched on. *)
Definition convert : settings :=
  {| threhold := -30; I_noise_reduce := true; O_noise_reduce := true;
     rms_mix_rate := 1 # 2; use_pv := true; f0method := "rmvpe";
     function := "vc" |}.

End Standin.

(** ** A streaming session: turns of the event loop and blocks of the
    callback *)

Module Live.
Import Session Events.

(** The truth value of a Python value, as [if v:] and [not v] take it. *)
Definition truthy (v : pyval) : bool :=
  match v with
  | VNone => false
  | VBool b => b
  | VInt z => negb (z =? 0)
  | VFloat q => negb (Qeq_bool q 0)
  | VStr s => negb (String.eqb s "")
  end.

(** What the callback reads of [self.gui_config] and [self.function]
    on its way: the threshold and the mix rate are compared with a
    number, the three flags are tested for truth, the pitch method is
    handed to the engine when the function is "vc", and [use_pv] is not
    read on a "privateuseone" device.  The engine is modelled on method
    names: another value is refused. *)
Definition settings_of (device : string) (st : state) : res Callback.settings :=
  let c := gui_config st in
  threhold ← getattr c "threhold" ≫= as_num;
  I_noise_reduce ← getattr c "I_noise_reduce";
  f0method ← (if decide (function st = "vc"%string)
              then v ← getattr c "f0method";
                   match v with VStr s => Ok s | _ => Raise TypeError end
              else Ok ""%string);
  O_noise_reduce ← getattr c "O_noise_reduce";
  rms_mix_rate ← getattr c "rms_mix_rate" ≫= as_num;
  use_pv ← (if bool_decide (is_Some (String.index 0 "privateuseone" device))
            then Ok false
            else v ← getattr c "use_pv"; Ok (truthy v));
  Ok {| Callback.threhold := threhold;
        Callback.I_noise_reduce := truthy I_noise_reduce;
        Callback.O_noise_reduce := truthy O_noise_reduce;
        Callback.rms_mix_rate := rms_mix_rate;
        Callback.use_pv := use_pv;
        Callback.f0method := f0method;
        Callback.function := function st |}.

(** The buffers of a session keep their sizes and the fade windows
    their values. *)
Definition same_sizes (b b' : buffers) : Prop :=
  length (input_wav b') = length (input_wav b)
  ∧ length (input_wav_denoise b') = length (input_wav_denoise b)
  ∧ length (input_wav_res b') = length (input_wav_res b)
  ∧ length (rms_buffer b') = length (rms_buffer b)
  ∧ length (sola_buffer b') = length (sola_buffer b)
  ∧ length (nr_buffer b') = length (nr_buffer b)
  ∧ length (output_buffer b') = length (output_buffer b)
  ∧ fade_in_window b' = fade_in_window b
  ∧ fade_out_window b' = fade_out_window b.

(** The session is the same but for the contents of its buffers: the
    frame sizes are equal and the buffers keep their sizes. *)
Definition same_session (s s' : option (frames * buffers)) : Prop :=
  match s, s' with
  | Some (fr, b), Some (fr', b') => fr' = fr ∧ same_sizes b b'
  | None, None => True
  | _, _ => False
  end.

Section Engine.
Variable frames_below : list R → Z → Q → list bool.
Variable tg : list R → list R → list R.
Variable resampler : list R → list R.
Variable infer : list R → Z → Z → Z → string → res (list R).
Variable resampler2 : option (list R → list R).
Variable rms_contour : list R → Z → Z → nat → list R.
Variable torch_pow : R → R → R.
Variable rfft : list R → res (list (R * R)).
Variables platform device : string.

(** The callback on the program's state: it reads the settings of the
    moment and the sizes of the session, and leaves the new buffers in
    the session.  Before [start_vc] there is no session, and no
    stream to call back. *)
Definition block (indata : list R) (st : state) : res (state * list R) :=
  match session st with
  | None => Raise AttributeError
  | Some (fr, b) =>
      cfg ← settings_of device st;
      r ← Callback.audio_callback frames_below tg resampler infer resampler2
             rms_contour torch_pow rfft platform device cfg fr b indata;
      Ok (with_session (Some (fr, r.1)) st, r.2)
  end.

(** One step of a streaming session: a turn of the event loop with the
    running flag set before and after, or a block through the callback
    while the stream is open.  A block and a turn are taken one after
    the other. *)
Inductive live_step : state → state → Prop :=
| live_turn st st' : streaming_turn st st' → live_step st st'
| live_block st indata st' out :
    stream_open st = true → block indata st = Ok (st', out) →
    live_step st st'.

Inductive live_run : state → state → Prop :=
| live_nil st : live_run st st
| live_cons st1 st2 st3 :
    live_run st1 st2 → live_step st2 st3 → live_run st1 st3.

End Engine.

(** The hot-updated attributes that an event of the same name assigns
    from the window's values; the pitch method is assigned by the
    events named after the methods. *)
Definition hot_sliders : list string :=
  ["threhold"; "pitch"; "formant"; "index_rate"; "rms_mix_rate";
   "I_noise_reduce"; "O_noise_reduce"; "use_pv"].

(** A program monitoring at 100 Hz, with a session of the sizes of
    [Standin.fr]. *)
Definition monitoring : state :=
  {| gui_config :=
       list_to_map
         [("block_time", VFloat (2 # 100)); ("crossfade_time", VFloat (1 # 100));
          ("extra_time", VFloat (2 # 100)); ("n_cpu", VInt 4);
          ("threhold", VInt (-60)); ("rms_mix_rate", VFloat 1);
          ("I_noise_reduce", VBool false); ("O_noise_reduce", VBool false);
          ("use_pv", VBool false); ("f0method", VStr "rmvpe");
          ("pitch", VInt 0); ("formant", VFloat 0); ("index_rate", VFloat 0)];
     flag_vc := true; stream := true; stream_open := true;
     function := "im";
     rvc := None; session := Some (Standin.fr, Standin.bufs);
     hostapis := ["MME"]; input_devices := ["mic"];
     output_devices := ["speakers"] |}.

End Live.

(** * Theorems *)

Module PyFacts.

Lemma Ok_inj {A} (a b : A) : Ok a = Ok b -> a = b.
Proof. congruence. Qed.

Lemma adjust_range len i : 0 <= len -> 0 <= adjust len i <= len.
Proof.
  intros H. unfold adjust. destruct (Z.ltb_spec i 0); lia.
Qed.

Lemma slice_bounds_range len a b s e :
  0 <= len -> slice_bounds len a b = (s, e) -> 0 <= s <= e /\ e <= len.
Proof.
  intros H. unfold slice_bounds. intros [= <- <-].
  assert (Hs : 0 <= from_option (adjust len) 0 a <= len).
  { destruct a; simpl; [apply adjust_range; lia | lia]. }
  assert (He : 0 <= from_option (adjust len) len b <= len).
  { destruct b; simpl; [apply adjust_range; lia | lia]. }
  lia.
Qed.

Section Slices.
Context {A : Type}.
Implicit Types l : list A.

Lemma length_get_slice_from l k :
  0 <= k <= Z.of_nat (length l) ->
  Z.of_nat (length (get_slice l (Some k) None)) = Z.of_nat (length l) - k.
Proof.
  intros H. unfold get_slice, slice_bounds. simpl.
  unfold adjust. destruct (Z.ltb_spec k 0); [lia|].
  rewrite length_take, length_drop. lia.
Qed.

Lemma length_fill_slice l a b v : length (fill_slice l a b v) = length l.
Proof.
  unfold fill_slice.
  destruct (slice_bounds (Z.of_nat (length l)) a b) as [s e] eqn:E.
  apply slice_bounds_range in E; [|lia].
  rewrite !length_app, length_take, length_replicate, length_drop. lia.
Qed.

Lemma set_slice_all l src :
  length src = length l -> set_slice l None None src = Ok src.
Proof.
  intros H. unfold set_slice, slice_bounds. simpl.
  replace (Z.to_nat (Z.max 0 (Z.of_nat (length l)) - 0)) with (length l) by lia.
  rewrite decide_True by done.
  replace (Z.to_nat (Z.max 0 (Z.of_nat (length l)))) with (length l) by lia.
  rewrite drop_all, app_nil_r. reflexivity.
Qed.

Lemma get_slice_to l n :
  0 <= n <= Z.of_nat (length l) ->
  get_slice l None (Some n) = take (Z.to_nat n) l.
Proof.
  intros H. unfold get_slice, slice_bounds. simpl.
  unfold adjust. destruct (Z.ltb_spec n 0); [lia|].
  rewrite Z.min_l, Z.max_r, Z.sub_0_r by lia. reflexivity.
Qed.

Lemma set_slice_to l n src :
  0 <= n <= Z.of_nat (length l) -> length src = Z.to_nat n ->
  set_slice l None (Some n) src = Ok (src ++ drop (Z.to_nat n) l).
Proof.
  intros H Hsrc. unfold set_slice, slice_bounds. simpl.
  unfold adjust. destruct (Z.ltb_spec n 0); [lia|].
  rewrite Z.min_l, Z.max_r, Z.sub_0_r by lia.
  rewrite decide_True by exact Hsrc. reflexivity.
Qed.

End Slices.

Lemma bind_Ok {A B} (a : A) (f : A → res B) : (Ok a ≫= f) = f a.
Proof. reflexivity. Qed.

Lemma py_floordiv_ok a b : b <> 0 -> py_floordiv a b = Ok (a / b).
Proof. intros H. unfold py_floordiv. rewrite decide_False by exact H. reflexivity. Qed.

Lemma torch_full_ok {A} (c : A) n :
  0 <= n -> torch_full c n = Ok (replicate (Z.to_nat n) c).
Proof.
  intros H. unfold torch_full. destruct (Z.ltb_spec n 0); [lia | reflexivity].
Qed.

Lemma np_zeros_ok {A} (c : A) n :
  0 <= n -> np_zeros c n = Ok (replicate (Z.to_nat n) c).
Proof.
  intros H. unfold np_zeros. destruct (Z.ltb_spec n 0); [lia | reflexivity].
Qed.

Lemma np_round_nonneg q : (0 <= q)%Q -> 0 <= np_round q.
Proof.
  intros H. unfold np_round.
  assert (0 <= Qfloor q).
  { change 0 with (Qfloor 0). apply Qfloor_resp_le. exact H. }
  destruct (Qcompare _ _); [destruct (Z.even _)| |]; lia.
Qed.

(** Runs the binds of a computation in hypothesis [E] as far as the
    side conditions can be discharged by [tac]. *)
Ltac run_ok E tac :=
  repeat first
    [ rewrite bind_Ok in E
    | progress cbv beta in E
    | rewrite py_floordiv_ok in E by tac
    | rewrite torch_full_ok in E by tac
    | rewrite np_zeros_ok in E by tac ].

Lemma broadcast2_same {A B C} (f : A → B → C) a b :
  length a = length b -> broadcast2 f a b = Ok (zip_with f a b).
Proof. intros H. unfold broadcast2. rewrite decide_True by exact H. reflexivity. Qed.

Lemma inplace2_same {A B} (f : A → B → A) a b :
  length b = length a -> inplace2 f a b = Ok (zip_with f a b).
Proof. intros H. unfold inplace2. rewrite decide_True by exact H. reflexivity. Qed.

End PyFacts.

Module RingBufferFacts.
Import RingBuffer.

Section Buf.
Context {A : Type}.
Implicit Types buf new : list A.

Lemma adjust_neg len n : 0 < n <= len -> adjust len (- n) = len - n.
Proof.
  intros H. unfold adjust.
  destruct (Z.ltb_spec (- n) 0); lia.
Qed.

Lemma adjust_pos len n : 0 <= n <= len -> adjust len n = n.
Proof.
  intros H. unfold adjust.
  destruct (Z.ltb_spec n 0); lia.
Qed.

Lemma shift_left_ok buf (n : nat) :
  (1 ≤ n ≤ length buf)%nat →
  shift_left (Z.of_nat n) buf
  = Ok (drop n buf ++ drop (length buf - n) buf).
Proof.
  intros Hn. unfold shift_left, set_slice, get_slice, slice_bounds. simpl.
  rewrite adjust_neg, adjust_pos by lia.
  replace (Z.to_nat (Z.max (Z.of_nat n) (Z.of_nat (length buf)) - Z.of_nat n))
    with (length buf - n)%nat by lia.
  replace (Z.to_nat (Z.max 0 (Z.of_nat (length buf) - Z.of_nat n) - 0))
    with (length buf - n)%nat by lia.
  replace (Z.to_nat (Z.max 0 (Z.of_nat (length buf) - Z.of_nat n)))
    with (length buf - n)%nat by lia.
  rewrite Nat2Z.id. simpl.
  rewrite take_ge by (rewrite length_drop; lia).
  rewrite decide_True by (rewrite length_drop; lia).
  reflexivity.
Qed.

Lemma write_tail_ok buf new :
  (1 ≤ length new ≤ length buf)%nat →
  write_tail new buf = Ok (take (length buf - length new) buf ++ new).
Proof.
  intros Hn. unfold write_tail, set_slice, slice_bounds. simpl.
  rewrite adjust_neg by lia.
  set (L := Z.of_nat (length buf)). set (n := Z.of_nat (length new)).
  replace (Z.to_nat (Z.max (L - n) L - (L - n))) with (length new) by lia.
  replace (Z.to_nat (Z.max (L - n) L)) with (length buf) by lia.
  replace (Z.to_nat (L - n)) with (length buf - length new)%nat by lia.
  rewrite decide_True by done.
  rewrite drop_all, app_nil_r.
  reflexivity.
Qed.

Lemma update_input_wav_eq (n : nat) buf new :
  (1 ≤ n ≤ length buf)%nat → (1 ≤ length new ≤ length buf)%nat →
  update_input_wav (Z.of_nat n) new buf
  = Ok (take (length buf - length new)
             (drop n buf ++ drop (length buf - n) buf) ++ new).
Proof.
  intros Hn Hm. unfold update_input_wav.
  rewrite shift_left_ok by done. simpl.
  rewrite write_tail_ok by (rewrite length_app, !length_drop; lia).
  rewrite length_app, !length_drop.
  replace (length buf - n + (length buf - (length buf - n)))%nat
    with (length buf) by lia.
  reflexivity.
Qed.

Lemma update_input_wav_length (n : nat) buf new buf' :
  (1 ≤ n ≤ length buf)%nat → (1 ≤ length new ≤ length buf)%nat →
  update_input_wav (Z.of_nat n) new buf = Ok buf' →
  length buf' = length buf.
Proof.
  intros Hn Hm. rewrite update_input_wav_eq by done.
  intros [= <-].
  rewrite length_app, length_take, length_app, !length_drop. lia.
Qed.

End Buf.

(** C2, as amended: the update shifts by [block_frame] and writes the
    block it was handed, which has [block_frame] samples without the
    noise gate and [block_frame + 2·zc] with it.  For a shift of at
    least one sample and a block at least as long as the shift that fits
    into the buffer, the update returns a buffer of the same length
    whose last [len(new)] positions hold the new samples and whose every
    other position [i] holds the old sample at [i + block_frame]; when
    the block has exactly [block_frame] samples that is the old sample
    at [i + len(new)], as the claim has it. *)
Theorem ring_update_spec {A} (block_frame : Z) (buf new : list A) :
  1 <= block_frame <= Z.of_nat (length new) →
  (length new ≤ length buf)%nat →
  ring_update_by_shift block_frame buf new
  ∧ (Z.of_nat (length new) = block_frame → ring_update_ok block_frame buf new).
Proof.
  intros Hbf Hn.
  assert (Hshift : ring_update_by_shift block_frame buf new).
  { unfold ring_update_by_shift.
    assert (Es : block_frame = Z.of_nat (Z.to_nat block_frame)) by lia.
    revert Es. generalize (Z.to_nat block_frame). intros s ->.
    rewrite update_input_wav_eq by lia.
    eexists. split; [reflexivity|]. split; [|split].
    - rewrite length_app, length_take, length_app, !length_drop. lia.
    - intros i Hi.
      rewrite lookup_app_r
        by (rewrite length_take, length_app, !length_drop; lia).
      rewrite length_take, length_app, !length_drop. f_equal. lia.
    - intros i Hi.
      rewrite lookup_app_l
        by (rewrite length_take, length_app, !length_drop; lia).
      rewrite lookup_take_lt by lia.
      rewrite lookup_app_l by (rewrite length_drop; lia).
      rewrite lookup_drop. f_equal. lia. }
  split; [exact Hshift|].
  intros E. destruct Hshift as (buf' & H & Hlen & Htail & Hrest).
  exists buf'. split; [exact H|]. split; [exact Hlen|]. split; [exact Htail|].
  intros i Hi. rewrite (Hrest i Hi). f_equal. lia.
Qed.

Lemma ring_update_spec_witness :
  ring_update_by_shift 2 [1; 2; 3; 4; 5; 6] [7; 8; 9; 10]
  ∧ ring_update_ok 2 [1; 2; 3; 4; 5; 6] [7; 8].
Proof.
  split.
  - apply (ring_update_spec 2 [1; 2; 3; 4; 5; 6] [7; 8; 9; 10]); simpl; lia.
  - apply (ring_update_spec 2 [1; 2; 3; 4; 5; 6] [7; 8]); simpl; lia.
Defined.

(** C2 as stated fails with the noise gate on.  At a device rate of
    100 Hz ([zc = 1]) and a block of two samples, the gate hands the
    update a segment of four samples (two of lookback, then the block);
    the update shifts by [block_frame = 2] and writes four samples, so
    position 0 holds the old sample at position 2, not the one at
    position [0 + 4]. *)
Lemma gated_block_not_shifted_by_its_length :
  ∃ rb new,
    NoiseGate.noise_gate 0 (λ _ _ _, [false; false; false; false; false])
      1 (-30 # 1) [0; 0; 0; 0] [9; 10] = Ok (rb, new)
    ∧ (length new ≤ length [1; 2; 3; 4; 5; 6])%nat
    ∧ update_input_wav 2 new [1; 2; 3; 4; 5; 6] = Ok [3; 4; 0; 0; 9; 10]
    ∧ ¬ ring_update_ok 2 [1; 2; 3; 4; 5; 6] new.
Proof.
  exists [0; 0; 9; 10], [0; 0; 9; 10].
  split; [vm_compute; reflexivity|].
  split; [simpl; lia|]. split; [vm_compute; reflexivity|].
  intros (buf' & H & _ & _ & Hrest).
  assert (E : update_input_wav 2 [0; 0; 9; 10] [1; 2; 3; 4; 5; 6]
              = Ok [3; 4; 0; 0; 9; 10]) by (vm_compute; reflexivity).
  rewrite E in H. apply PyFacts.Ok_inj in H. subst buf'.
  specialize (Hrest 0%nat ltac:(simpl; lia)). discriminate Hrest.
Qed.

End RingBufferFacts.

Module SessionFacts.
Import Session Stitch PyFacts.

#[local] Open Scope R_scope.

Lemma linspace_length start stop n ls :
  linspace start stop n = Ok ls → Z.of_nat (length ls) = n.
Proof.
  unfold linspace. destruct (Z.ltb_spec n 0); [discriminate|].
  destruct (Z.to_nat n) as [|[|m]] eqn:E; intros <-%Ok_inj.
  - simpl. lia.
  - simpl. lia.
  - rewrite length_fmap, length_seq. lia.
Qed.

Lemma linspace_lookup start stop n ls t v :
  linspace start stop n = Ok ls → ls !! t = Some v → (2 <= n)%Z →
  v = start + INR t * ((stop - start) / (IZR n - 1)).
Proof.
  unfold linspace. destruct (Z.ltb_spec n 0); [discriminate|].
  destruct (Z.to_nat n) as [|[|m]] eqn:E; intros <-%Ok_inj Ht Hn; [lia | lia |].
  assert (Hd : INR (S (S m) - 1) = IZR n - 1).
  { rewrite INR_IZR_INZ. rewrite <- minus_IZR. f_equal. lia. }
  rewrite Hd in Ht. clear Hd.
  rewrite list_lookup_fmap in Ht.
  destruct (seq 0 (S (S m)) !! t) as [i|] eqn:Es; [|discriminate].
  apply lookup_seq in Es as [-> _]. simpl in Ht. congruence.
Qed.

Lemma linspace_first start stop n ls v :
  linspace start stop n = Ok ls → ls !! 0%nat = Some v → v = start.
Proof.
  unfold linspace. destruct (Z.ltb_spec n 0); [discriminate|].
  destruct (Z.to_nat n) as [|[|m]] eqn:E; intros <-%Ok_inj; simpl.
  - discriminate.
  - congruence.
  - intros [= <-]. lra.
Qed.

Lemma fade_in_lookup n fi t a :
  fade_in_of n = Ok fi → fi !! t = Some a →
  ∃ ls v, linspace 0 1 n = Ok ls ∧ ls !! t = Some v
          ∧ a = sin (0.5 * PI * v) ^ 2.
Proof.
  unfold fade_in_of. destruct (linspace 0 1 n) as [ls|] eqn:E; [|discriminate].
  simpl. intros [= <-] Ht. rewrite list_lookup_fmap in Ht.
  destruct (ls !! t) as [v|] eqn:Ev; [|discriminate].
  injection Ht as <-. exists ls, v. done.
Qed.

Lemma fade_in_length n fi :
  fade_in_of n = Ok fi → Z.of_nat (length fi) = n.
Proof.
  unfold fade_in_of. destruct (linspace 0 1 n) as [ls|] eqn:E; [|discriminate].
  simpl. intros [= <-]. rewrite length_fmap. eapply linspace_length, E.
Qed.

Lemma fade_in_total n : (0 <= n)%Z → ∃ fi, fade_in_of n = Ok fi.
Proof.
  intros Hn. unfold fade_in_of, linspace.
  destruct (Z.ltb_spec n 0); [lia|].
  destruct (Z.to_nat n) as [|[|m]]; simpl; eauto.
Qed.

Lemma fade_out_lookup fi t a b :
  fi !! t = Some a → fade_out_of fi !! t = Some b → b = 1 - a.
Proof.
  intros Ha. unfold fade_out_of. rewrite list_lookup_fmap, Ha. simpl. congruence.
Qed.

Lemma length_fade_out fi : length (fade_out_of fi) = length fi.
Proof. unfold fade_out_of. apply length_fmap. Qed.

Lemma sin_sqr_bounds v : 0 <= sin v ^ 2 <= 1.
Proof. pose proof (SIN_bound v). simpl. nra. Qed.

(** The blend when the window, the tail and the head of the block have
    the same size. *)
Lemma linear_crossfade_eq L (x tail fi fo : list R) :
  Z.of_nat (length fi) = L → length fo = length fi →
  length tail = length fi → (length fi ≤ length x)%nat →
  linear_crossfade L x tail fi fo
  = Ok (zip_with Rplus (zip_with Rmult (take (length fi) x) fi)
                       (zip_with Rmult tail fo)
        ++ drop (length fi) x).
Proof.
  intros HL Hfo Htail Hx. unfold linear_crossfade.
  assert (HLn : Z.to_nat L = length fi) by lia.
  rewrite get_slice_to by lia. rewrite HLn.
  rewrite inplace2_same by (rewrite length_take; lia). simpl.
  rewrite set_slice_to by (rewrite ?length_zip_with, ?length_take; lia). simpl.
  rewrite broadcast2_same by lia. simpl.
  rewrite get_slice_to
    by (rewrite length_app, length_zip_with, length_take, length_drop; lia).
  rewrite HLn.
  rewrite take_app_length'
    by (rewrite length_zip_with, length_take; lia).
  rewrite inplace2_same
    by (rewrite !length_zip_with, length_take; lia). simpl.
  rewrite set_slice_to.
  - rewrite HLn. rewrite drop_app_length'
      by (rewrite length_zip_with, length_take; lia).
    reflexivity.
  - rewrite length_app, length_zip_with, length_take, length_drop. lia.
  - rewrite !length_zip_with, length_take. lia.
Qed.

(** C9: the two windows sum to one at every index, each lies between 0
    and 1, the fade-in is [sin²(π·t / (2·(n − 1)))] for a window of
    [n ≥ 2] points, and the linear crossfade of a block with a tail puts
    at index [t] the affine combination [x·a + old·(1 − a)] of the block's
    and the tail's sample. *)
Theorem fade_windows_amplitude_complementary
    (n : Z) (fi : list R) (t : nat) (a b : R) (x tail : list R) (xt ot : R) :
  fade_in_of n = Ok fi → fi !! t = Some a → fade_out_of fi !! t = Some b →
  length tail = length fi → (length fi ≤ length x)%nat →
  x !! t = Some xt → tail !! t = Some ot →
  a + b = 1 ∧ 0 <= a <= 1 ∧ 0 <= b <= 1
  ∧ ((2 <= n)%Z → a = sin (PI * INR t / (2 * (IZR n - 1))) ^ 2)
  ∧ ∃ y, linear_crossfade n x tail fi (fade_out_of fi) = Ok y
         ∧ length y = length x
         ∧ y !! t = Some (xt * a + ot * (1 - a)).
Proof.
  intros Hfi Ha Hb Htail Hx Hxt Hot.
  pose proof (fade_out_lookup _ _ _ _ Ha Hb) as ->.
  destruct (fade_in_lookup _ _ _ _ Hfi Ha) as (ls & v & Hls & Hv & ->).
  pose proof (sin_sqr_bounds (0.5 * PI * v)) as Hbd.
  split; [lra|]. split; [lra|]. split; [lra|]. split.
  - intros Hn. rewrite (linspace_lookup _ _ _ _ _ _ Hls Hv Hn).
    assert (E : 0.5 * PI * (0 + INR t * ((1 - 0) / (IZR n - 1)))
                = PI * INR t / (2 * (IZR n - 1))).
    { unfold Q2R; cbn [Qnum Qden]. field.
      apply Rgt_not_eq. apply IZR_le in Hn. lra. }
    rewrite E. reflexivity.
  - pose proof (fade_in_length _ _ Hfi) as Hlen.
    rewrite linear_crossfade_eq by (try done; apply length_fade_out).
    eexists. split; [reflexivity|]. split.
    + rewrite length_app, !length_zip_with, length_take, length_drop,
        length_fade_out. lia.
    + apply lookup_lt_Some in Ha as Hlt.
      rewrite lookup_app_l
        by (rewrite !length_zip_with, length_take, length_fade_out; lia).
      rewrite !lookup_zip_with.
      rewrite lookup_take_lt by lia.
      rewrite Hxt, Ha, Hot, Hb. reflexivity.
Qed.

Lemma fade_windows_amplitude_complementary_witness :
  ∃ fi a b, fade_in_of 2 = Ok fi ∧ fi !! 1%nat = Some a
            ∧ fade_out_of fi !! 1%nat = Some b ∧ a + b = 1.
Proof.
  eexists _, _, _.
  split; [reflexivity|]. split; [reflexivity|]. split; [reflexivity|].
  refine (proj1 (fade_windows_amplitude_complementary 2 _ 1 _ _
                   [3; 4; 5] [1; 2] 4 2 _ _ _ _ _ _ _)).
  - reflexivity.
  - reflexivity.
  - reflexivity.
  - reflexivity.
  - simpl. lia.
  - reflexivity.
  - reflexivity.
Defined.

(** C3, as amended: at every index the squares of the two windows sum to
    [1 − 2·fade_in·fade_out], a value between 1/2 and 1 that is 1 exactly
    where the fade-in is 0 or 1, as it is at the first index and, for a
    window of at least two points, at the last. *)
Theorem fade_windows_power (n : Z) (fi : list R) (t : nat) (a b : R) :
  fade_in_of n = Ok fi → fi !! t = Some a → fade_out_of fi !! t = Some b →
  a ^ 2 + b ^ 2 = 1 - 2 * a * b
  ∧ 1 / 2 <= a ^ 2 + b ^ 2 <= 1
  ∧ (a ^ 2 + b ^ 2 = 1 ↔ a = 0 ∨ a = 1)
  ∧ (t = 0%nat → a ^ 2 + b ^ 2 = 1)
  ∧ ((2 <= n)%Z → Z.of_nat t = (n - 1)%Z → a ^ 2 + b ^ 2 = 1).
Proof.
  intros Hfi Ha Hb.
  pose proof (fade_out_lookup _ _ _ _ Ha Hb) as ->.
  destruct (fade_in_lookup _ _ _ _ Hfi Ha) as (ls & v & Hls & Hv & Hav).
  pose proof (sin_sqr_bounds (0.5 * PI * v)) as Hbd. rewrite <- Hav in Hbd.
  split; [ring|]. split.
  { pose proof (pow2_ge_0 (2 * a - 1)) as Hsq.
    assert (0 <= a * (1 - a)) by (apply Rmult_le_pos; lra).
    simpl in *. split; nra. }
  split; [|split].
  - split.
    + intros H. assert (a * (1 - a) = 0) as [?|?]%Rmult_integral by (simpl in H; nra).
      * left; lra.
      * right; lra.
    + intros [-> | ->]; ring.
  - intros ->. rewrite (linspace_first _ _ _ _ _ Hls Hv) in Hav.
    replace (0.5 * PI * 0) with 0 in Hav by ring. rewrite sin_0 in Hav.
    subst a. ring.
  - intros Hn Ht. rewrite (linspace_lookup _ _ _ _ _ _ Hls Hv Hn) in Hav.
    assert (HI : INR t = IZR n - 1).
    { rewrite INR_IZR_INZ, Ht, minus_IZR. reflexivity. }
    rewrite HI in Hav.
    replace (0.5 * PI * (0 + (IZR n - 1) * ((1 - 0) / (IZR n - 1))))
      with (PI / 2) in Hav.
    + rewrite sin_PI2 in Hav. subst a. ring.
    + unfold Q2R; cbn [Qnum Qden]. field.
      apply Rgt_not_eq. apply IZR_le in Hn. lra.
Qed.

Lemma fade_windows_power_witness :
  ∃ fi a b, fade_in_of 3 = Ok fi ∧ fi !! 1%nat = Some a
            ∧ fade_out_of fi !! 1%nat = Some b
            ∧ a ^ 2 + b ^ 2 = 1 - 2 * a * b.
Proof.
  eexists _, _, _.
  split; [reflexivity|]. split; [reflexivity|]. split; [reflexivity|].
  refine (proj1 (fade_windows_power 3 _ 1 _ _ _ _ _)); reflexivity.
Defined.

(** C3 as stated fails: in a window of three points the middle values
    are 1/2 and 1/2, whose squares sum to 1/2. *)
Lemma fade_windows_not_power_complementary : ¬ power_complementary 3.
Proof.
  intros H.
  destruct (fade_in_total 3) as [fi Hfi]; [lia|].
  pose proof (fade_in_length _ _ Hfi) as Hlen.
  destruct (lookup_lt_is_Some_2 fi 1) as [a Ha]; [lia|].
  assert (Hb : fade_out_of fi !! 1%nat = Some (1 - a)).
  { unfold fade_out_of. rewrite list_lookup_fmap, Ha. reflexivity. }
  specialize (H fi 1%nat a (1 - a) Hfi Ha Hb).
  destruct (fade_in_lookup _ _ _ _ Hfi Ha) as (ls & v & Hls & Hv & Hav).
  rewrite (linspace_lookup _ _ _ _ _ _ Hls Hv ltac:(lia)) in Hav.
  replace (0.5 * PI * (0 + INR 1 * ((1 - 0) / (IZR 3 - 1)))) with (PI / 4)
    in Hav by (unfold Q2R; simpl; field).
  rewrite sin_PI4 in Hav.
  assert (Hq : (1 / sqrt 2) ^ 2 = 1 / 2).
  { pose proof (sqrt_sqrt 2 ltac:(lra)) as Hss.
    assert (sqrt 2 <> 0) by (intros E; rewrite E in Hss; lra).
    simpl. rewrite <- Hss at 3. field. done. }
  rewrite Hq in Hav. subst a. lra.
Qed.

#[local] Close Scope R_scope.

Lemma round_to_zc_ok t samplerate zc :
  zc <> 0 →
  round_to_zc t samplerate zc
  = Ok (np_round (t * inject_Z samplerate / inject_Z zc) * zc).
Proof.
  intros H. unfold round_to_zc, py_truediv.
  rewrite decide_False by exact H. reflexivity.
Qed.

Lemma round_to_zc_nonneg t samplerate zc :
  (0 <= t)%Q → 0 <= samplerate → 0 < zc →
  0 <= np_round (t * inject_Z samplerate / inject_Z zc) * zc.
Proof.
  intros Ht Hs Hz. apply Z.mul_nonneg_nonneg; [|lia].
  apply np_round_nonneg. apply Qle_shift_div_l.
  - change 0%Q with (inject_Z 0). rewrite <- Zlt_Qlt. exact Hz.
  - rewrite Qmult_0_l. apply Qmult_le_0_compat; [exact Ht|].
    change 0%Q with (inject_Z 0). rewrite <- Zle_Qle. exact Hs.
Qed.

(** C10: at session start the overlap is [min(crossfade_frame, 4·zc)],
    hence at most [4·zc] samples, which is at most 40 ms of audio at the
    session's rate, however large the crossfade time; the ring buffers are
    sized with [crossfade_frame] itself, and the tail buffers and the fade
    windows with the capped overlap. *)
Theorem sola_buffer_capped (block_time crossfade_time extra_time : Q)
    (samplerate : Z) :
  100 <= samplerate →
  (0 <= block_time)%Q → (0 <= crossfade_time)%Q → (0 <= extra_time)%Q →
  ∃ fr bufs,
    start_vc_buffers block_time crossfade_time extra_time samplerate
    = Ok (fr, bufs)
    ∧ zc fr = samplerate / 100
    ∧ crossfade_frame fr
      = np_round (crossfade_time * inject_Z samplerate / inject_Z (zc fr))
        * zc fr
    ∧ sola_buffer_frame fr = Z.min (crossfade_frame fr) (4 * zc fr)
    ∧ sola_buffer_frame fr <= 4 * zc fr
    ∧ 100 * sola_buffer_frame fr <= 4 * samplerate
    ∧ Z.of_nat (length (input_wav bufs))
      = extra_frame fr + crossfade_frame fr + sola_search_frame fr
        + block_frame fr
    ∧ length (input_wav_denoise bufs) = length (input_wav bufs)
    ∧ length (output_buffer bufs) = length (input_wav bufs)
    ∧ Z.of_nat (length (sola_buffer bufs)) = sola_buffer_frame fr
    ∧ Z.of_nat (length (nr_buffer bufs)) = sola_buffer_frame fr
    ∧ Z.of_nat (length (fade_in_window bufs)) = sola_buffer_frame fr
    ∧ Z.of_nat (length (fade_out_window bufs)) = sola_buffer_frame fr.
Proof.
  intros Hsr Hb Hc He.
  destruct (start_vc_buffers block_time crossfade_time extra_time samplerate)
    as [[fr bufs]|e] eqn:E; unfold start_vc_buffers in E;
    set (z := samplerate / 100) in *;
    assert (Hz : 1 <= z) by (apply Z.div_le_lower_bound; lia);
    assert (Hz100 : 100 * z <= samplerate) by (apply Z.mul_div_le; lia);
    pose proof (round_to_zc_nonneg block_time samplerate z Hb
                  ltac:(lia) ltac:(lia)) as Hbf;
    pose proof (round_to_zc_nonneg crossfade_time samplerate z Hc
                  ltac:(lia) ltac:(lia)) as Hcf;
    pose proof (round_to_zc_nonneg extra_time samplerate z He
                  ltac:(lia) ltac:(lia)) as Hef;
    rewrite !round_to_zc_ok in E by lia;
    set (bf := np_round (block_time * inject_Z samplerate / inject_Z z) * z) in *;
    set (cf := np_round (crossfade_time * inject_Z samplerate / inject_Z z) * z) in *;
    set (ef := np_round (extra_time * inject_Z samplerate / inject_Z z) * z) in *;
    unfold torch_zeros in E;
    run_ok E ltac:(first [lia | apply Z.div_pos; lia]);
    destruct (fade_in_total (Z.min cf (4 * z))) as [fi Hfi]; try lia;
    rewrite Hfi, ?bind_Ok in E;
    pose proof (fade_in_length _ _ Hfi) as Hfil;
    [|discriminate E].
  apply Ok_inj in E. injection E as <- <-.
  eexists _, _. split; [reflexivity|]. simpl.
  rewrite length_fade_out, !length_replicate.
  repeat split; try done; lia.
Qed.

Lemma sola_buffer_capped_witness :
  ∃ fr bufs,
    start_vc_buffers (25 # 100) (15 # 100) (5 # 100) 100 = Ok (fr, bufs)
    ∧ crossfade_frame fr = 15 ∧ sola_buffer_frame fr = 4
    ∧ Z.of_nat (length (input_wav bufs)) = 46.
Proof.
  destruct (sola_buffer_capped (25 # 100) (15 # 100) (5 # 100) 100)
    as (fr & bufs & H & Hzc & Hcf & Hsb & _ & _ & Hlen & _).
  - lia.
  - discriminate.
  - discriminate.
  - discriminate.
  - exists fr, bufs. split; [exact H|].
    vm_compute in H. injection H as <- <-.
    split; [reflexivity|]. split; reflexivity.
Defined.

End SessionFacts.

Module StitchFacts.
Import Session Stitch PyFacts.

#[local] Open Scope R_scope.

(** *** Envelope mixing *)

(** C5: at [rms_mix_rate = 1] the envelope stage returns the inferred
    waveform as it is and applies none of its operations: no RMS of the
    input, no RMS of the inferred block, no scaling. *)
Theorem envelope_mix_disabled
    (rms_contour : list R → Z → Z → nat → list R) (torch_pow : R → R → R)
    (rms_mix_rate : Q) (I_noise_reduce : bool) (function : string)
    (zc extra_frame : Z) (input_wav input_wav_denoise infer_wav : list R) :
  (rms_mix_rate == 1)%Q →
  envelope_mix rms_contour torch_pow rms_mix_rate I_noise_reduce function
               zc extra_frame input_wav input_wav_denoise infer_wav
  = Ok (infer_wav, []).
Proof.
  intros H. unfold envelope_mix.
  rewrite bool_decide_false; [reflexivity|].
  rewrite H. apply Qlt_irrefl.
Qed.

Lemma envelope_mix_disabled_witness :
  envelope_mix (λ _ _ _ n, replicate n 1) (λ v _, v) (100 # 100) false "vc"
               1 0 [1; 2; 3] [1; 2; 3] [4; 5; 6]
  = Ok ([4; 5; 6], []).
Proof. apply envelope_mix_disabled. reflexivity. Defined.

(** Below 1, in conversion mode, the stage does run its three
    operations. *)
Lemma envelope_mix_enabled rms_contour torch_pow rms_mix_rate I_noise_reduce
    zc extra_frame input_wav input_wav_denoise infer_wav out ops :
  (rms_mix_rate < 1)%Q →
  envelope_mix rms_contour torch_pow rms_mix_rate I_noise_reduce "vc"
               zc extra_frame input_wav input_wav_denoise infer_wav
  = Ok (out, ops) →
  ops = [OpRmsInput; OpRmsInfer; OpScale].
Proof.
  intros H. unfold envelope_mix.
  rewrite bool_decide_true by exact H.
  rewrite bool_decide_true by reflexivity. simpl.
  destruct (broadcast2 _ _ _) as [ratio|]; [|discriminate]. simpl.
  destruct (inplace2 _ _ _) as [o|]; [|discriminate]. simpl.
  congruence.
Qed.

(** *** SOLA offset *)

Lemma argmax_from_spec xs : ∀ pre best besti,
  pre !! besti = Some best →
  (∀ j w, pre !! j = Some w → w <= best) →
  (∀ j w, (j < besti)%nat → pre !! j = Some w → w < best) →
  is_first_argmax (pre ++ xs) (argmax_from best besti (length pre) xs).
Proof.
  induction xs as [|x xs IH]; intros pre best besti Hb Hmax Hfirst; simpl.
  - rewrite app_nil_r. exists best. done.
  - replace (pre ++ x :: xs) with ((pre ++ [x]) ++ xs)
      by (rewrite <- app_assoc; reflexivity).
    replace (S (length pre)) with (length (pre ++ [x]))
      by (rewrite length_app; simpl; lia).
    destruct (decide (best < x)) as [Hlt|Hge].
    + apply IH.
      * rewrite lookup_app_r by lia. rewrite Nat.sub_diag. reflexivity.
      * intros j w Hj. apply lookup_app_Some in Hj as [Hj|[Hlen Hj]].
        -- apply Hmax in Hj. lra.
        -- apply list_lookup_singleton_Some in Hj as [_ ->]. lra.
      * intros j w Hlt' Hj. rewrite lookup_app_l in Hj by lia.
        apply Hmax in Hj. lra.
    + apply IH.
      * apply lookup_app_l_Some. exact Hb.
      * intros j w Hj. apply lookup_app_Some in Hj as [Hj|[Hlen Hj]].
        -- apply Hmax in Hj. lra.
        -- apply list_lookup_singleton_Some in Hj as [_ ->]. lra.
      * intros j w Hlt' Hj. apply lookup_lt_Some in Hb as Hbl.
        rewrite lookup_app_l in Hj by lia.
        eapply Hfirst; eauto.
Qed.

Lemma torch_argmax_first s scores :
  ∃ o, torch_argmax (s :: scores) = Ok o ∧ is_first_argmax (s :: scores) o.
Proof.
  eexists. split; [reflexivity|].
  apply (argmax_from_spec scores [s] s 0%nat).
  - reflexivity.
  - intros [|j] w Hj; simpl in Hj; [injection Hj as <-; lra | discriminate].
  - intros j w Hj. lia.
Qed.

Lemma is_first_argmax_unique scores o1 o2 :
  is_first_argmax scores o1 → is_first_argmax scores o2 → o1 = o2.
Proof.
  intros (v1 & H1 & Hmax1 & Hf1) (v2 & H2 & Hmax2 & Hf2).
  destruct (Nat.lt_trichotomy o1 o2) as [Hlt|[Heq|Hgt]]; [|exact Heq|].
  - pose proof (Hf2 _ _ Hlt H1). pose proof (Hmax1 _ _ H2). lra.
  - pose proof (Hf1 _ _ Hgt H2). pose proof (Hmax2 _ _ H1). lra.
Qed.

(** On every platform but one the search is the first argmax. *)
Lemma sola_offset_elsewhere platform s scores :
  platform ≠ "darwin"%string →
  ∃ o, sola_offset platform (s :: scores) = Ok o
       ∧ is_first_argmax (s :: scores) o.
Proof.
  intros H. unfold sola_offset. rewrite decide_False by exact H.
  apply torch_argmax_first.
Qed.

Lemma sola_offset_darwin scores :
  ∃ e, sola_offset "darwin" scores = Raise e.
Proof.
  unfold sola_offset. rewrite decide_True by reflexivity.
  destruct scores as [|s scores]; simpl; eauto.
Qed.

Lemma sola_stitch_darwin fr sb fi fo iw :
  ∃ e, sola_stitch "darwin" fr sb fi fo iw = Raise e.
Proof.
  unfold sola_stitch.
  destruct (sola_scores _ _ _ _) as [scores|e]; simpl; [|eauto].
  destruct (sola_offset_darwin scores) as [e ->]. simpl. eauto.
Qed.

(** C1 (defect in the code): on the block [1, 1, 1, 4, 5] with the tail
    [1, 1] the two offsets tie; on "linux" the search selects the lowest,
    offset 0, and the stitch returns a block; on "darwin" the same search
    raises [TypeError], because [torch.max] without a dimension returns a
    single tensor that cannot be unpacked into two names, and the stitch
    produces no output. *)
Theorem sola_offset_platform_dependent :
  let fr := {| zc := 1; block_frame := 2; block_frame_16k := 320;
               crossfade_frame := 2; sola_buffer_frame := 2;
               sola_search_frame := 1; extra_frame := 5; skip_head := 5;
               return_length := 5 |} in
  (∃ scores, sola_scores 2 1 [1; 1; 1; 4; 5] [1; 1] = Ok scores
     ∧ length scores = 2%nat
     ∧ sola_offset "linux" scores = Ok 0%nat
     ∧ sola_offset "darwin" scores = Raise TypeError)
  ∧ (∃ r, sola_stitch "linux" fr [1; 1] [0; 1] [1; 0] [1; 1; 1; 4; 5] = Ok r)
  ∧ sola_stitch "darwin" fr [1; 1] [0; 1] [1; 0] [1; 1; 1; 4; 5]
    = Raise TypeError.
Proof.
  intros fr.
  assert (Hs : ∃ v, sola_scores 2 1 [1; 1; 1; 4; 5] [1; 1] = Ok [v; v]).
  { eexists. reflexivity. }
  destruct Hs as [v Hs].
  assert (Hl : sola_offset "linux" [v; v] = Ok 0%nat).
  { unfold sola_offset, torch_argmax. simpl.
    destruct (decide (v < v)) as [H|H]; [|reflexivity].
    exfalso. exact (Rlt_irrefl _ H). }
  split; [|split].
  - exists [v; v]. split; [exact Hs|]. split; [reflexivity|].
    split; [exact Hl | reflexivity].
  - unfold sola_stitch. simpl sola_buffer_frame. simpl sola_search_frame.
    rewrite Hs, bind_Ok, Hl, bind_Ok. eexists. reflexivity.
  - unfold sola_stitch. simpl sola_buffer_frame. simpl sola_search_frame.
    rewrite Hs. reflexivity.
Qed.

(** *** Phase wrap *)

Lemma wrap_phase_range d : - PI <= wrap_phase d < PI.
Proof.
  unfold wrap_phase.
  pose proof (Zfloor_bound (d / 2 / PI + 0.5)) as [Hlo Hhi].
  pose proof PI_RGT_0 as Hpi.
  set (k := IZR (Zfloor (d / 2 / PI + 0.5))) in *.
  assert (Hd : d = 2 * PI * (d / 2 / PI)) by (field; lra).
  unfold Q2R in Hlo, Hhi; cbn [Qnum Qden] in Hlo, Hhi.
  split.
  - assert (2 * PI * (k - 5 / 10) <= 2 * PI * (d / 2 / PI))
      by (apply Rmult_le_compat_l; lra).
    lra.
  - assert (2 * PI * (d / 2 / PI) < 2 * PI * (k + 5 / 10))
      by (apply Rmult_lt_compat_l; lra).
    lra.
Qed.

Lemma wrap_phase_PI : wrap_phase PI = - PI.
Proof.
  unfold wrap_phase. pose proof PI_RGT_0 as Hpi.
  replace (PI / 2 / PI + 0.5) with (IZR 1)
    by (unfold Q2R; cbn [Qnum Qden]; field; lra).
  rewrite ZfloorZ. lra.
Qed.

Lemma deltaphase_lookup phia phib ds k d :
  deltaphase_of phia phib = Ok ds → ds !! k = Some d →
  ∃ d0, d = wrap_phase d0.
Proof.
  unfold deltaphase_of.
  destruct (broadcast2 Rminus phib phia) as [l|]; [|discriminate].
  simpl. intros <-%Ok_inj Hk. rewrite list_lookup_fmap in Hk.
  destruct (l !! k) as [d0|]; [|discriminate].
  exists d0. simpl in Hk. congruence.
Qed.

(** C8, as amended: for every frequency bin the wrapped phase difference
    lies in the interval closed at [-π] and open at [π]. *)
Theorem deltaphase_wrapped (phia phib ds : list R) (k : nat) (d : R) :
  deltaphase_of phia phib = Ok ds → ds !! k = Some d → - PI <= d < PI.
Proof.
  intros H Hk. destruct (deltaphase_lookup _ _ _ _ _ H Hk) as [d0 ->].
  apply wrap_phase_range.
Qed.

Lemma deltaphase_wrapped_witness :
  ∃ ds d, deltaphase_of [0; 1] [PI; 3] = Ok ds ∧ ds !! 1%nat = Some d
          ∧ - PI <= d < PI.
Proof.
  eexists _, _. split; [reflexivity|]. split; [reflexivity|].
  eapply (deltaphase_wrapped [0; 1] [PI; 3] _ 1); reflexivity.
Defined.

(** C8 as stated fails: a bin whose incoming phase is [π] and whose
    outgoing phase is 0 has the difference [π], which wraps to [-π]. *)
Lemma deltaphase_reaches_minus_pi : ¬ wraps_into_left_open [0] [PI].
Proof.
  intros H.
  specialize (H [wrap_phase (PI - 0)] 0%nat (wrap_phase (PI - 0)) eq_refl eq_refl).
  replace (PI - 0) with PI in H by ring.
  rewrite wrap_phase_PI in H. lra.
Qed.

End StitchFacts.

Module HarvestFacts.
Import Harvest.

Section Worker.
Context {Sig F0 Tok : Type} (harvest : Sig → F0).
Abbreviation job := (@job Sig Tok).
Abbreviation shared := (@shared F0 Tok).
Abbreviation pool := (@pool Sig F0 Tok).

Lemma dict_of_write (j : job) f0 (s : shared) :
  dict_of (write_result j f0 s) (res_f0 j)
  = <[idx j := f0]> (dict_of s (res_f0 j)).
Proof. unfold dict_of at 1. simpl. rewrite lookup_insert_eq. reflexivity. Qed.

Lemma dict_of_signal (j : job) (s : shared) r :
  dict_of (signal_if_complete j s) r = dict_of s r.
Proof. unfold signal_if_complete. case_decide; reflexivity. Qed.

Lemma steps_head (p1 p2 p3 : pool) :
  step harvest p1 p2 → steps harvest p2 p3 → steps harvest p1 p3.
Proof.
  intros H12 H23. induction H23 as [|p2 p3 p4 _ IH H34].
  - eapply steps_step; [apply steps_refl | exact H12].
  - eapply steps_step; [by apply IH | exact H34].
Qed.

Lemma NoDup_fmap_eq {A B} (f : A → B) (l : list A) a b :
  NoDup (f <$> l) → a ∈ l → b ∈ l → f a = f b → a = b.
Proof.
  induction l as [|c l IH]; intros Hnd Ha Hb Hf.
  - by apply elem_of_nil in Ha.
  - rewrite fmap_cons in Hnd. apply NoDup_cons in Hnd as [Hc Hnd].
    apply elem_of_cons in Ha as [->|Ha]; apply elem_of_cons in Hb as [->|Hb].
    + reflexivity.
    + exfalso. apply Hc. rewrite Hf. apply list_elem_of_fmap. eauto.
    + exfalso. apply Hc. rewrite <- Hf. apply list_elem_of_fmap. eauto.
    + by apply IH.
Qed.

Section Batch.
Variables (jobs : list job) (r : nat).
Hypothesis Hnodup : NoDup (idx <$> jobs).
Hypothesis Hjobs :
  ∀ j, j ∈ jobs → res_f0 j = r ∧ n_cpu j = Z.of_nat (length jobs).

Lemma complete_when_counted (d : gmap Z F0) :
  (∀ k v, d !! k = Some v → ∃ j, j ∈ jobs ∧ idx j = k ∧ v = harvest (x j)) →
  (length jobs ≤ size d)%nat →
  ∀ j, j ∈ jobs → d !! idx j = Some (harvest (x j)).
Proof.
  intros Hd Hsize j Hj.
  assert (Hsub : dom d ⊆ list_to_set (idx <$> jobs)).
  { intros k Hk. apply elem_of_dom in Hk as [v Hv].
    destruct (Hd _ _ Hv) as (j' & Hj' & <- & _).
    apply elem_of_list_to_set, list_elem_of_fmap. eauto. }
  assert (Heq : dom d = list_to_set (idx <$> jobs)).
  { apply set_subseteq_size_eq; [exact Hsub|].
    rewrite size_list_to_set by exact Hnodup.
    rewrite length_fmap, size_dom. exact Hsize. }
  assert (Hin : idx j ∈ dom d).
  { rewrite Heq. apply elem_of_list_to_set, list_elem_of_fmap. eauto. }
  apply elem_of_dom in Hin as [v Hv]. rewrite Hv. f_equal.
  destruct (Hd _ _ Hv) as (j' & Hj' & Hidx & ->).
  by rewrite (NoDup_fmap_eq idx jobs j' j Hnodup Hj' Hj Hidx).
Qed.

Lemma batch_inv_step p p' :
  batch_inv harvest jobs r p → step harvest p p' → batch_inv harvest jobs r p'.
Proof.
  intros [Hq Hw Hd Hs] Hstep. destruct Hstep as
    [w j q ws s Hlk | w j f0 q ws s Hlk | w j q ws s Hlk]; simpl in *.
  - split; simpl.
    + intros j' Hj'. apply Hq. by apply elem_of_cons; right.
    + intros w' st Hst.
      apply list_lookup_insert_Some in Hst as [(_ & <- & _)|[_ Hst]].
      * split; [|reflexivity]. apply Hq. by apply elem_of_cons; left.
      * by eapply Hw.
    + exact Hd.
    + exact Hs.
  - destruct (Hw _ _ Hlk) as [Hj ->].
    destruct (Hjobs j Hj) as [Hr Hn].
    assert (Hdict : dict_of (write_result j (harvest (x j)) s) r
                    = <[idx j := harvest (x j)]> (dict_of s r)).
    { rewrite <- Hr. apply dict_of_write. }
    split; simpl.
    + exact Hq.
    + intros w' st Hst.
      apply list_lookup_insert_Some in Hst as [(_ & <- & _)|[_ Hst]].
      * exact Hj.
      * by eapply Hw.
    + intros k v. rewrite Hdict. intros Hkv.
      apply lookup_insert_Some in Hkv as [[<- <-]|[_ Hkv]]; eauto.
    + intros Hne j' Hj'. rewrite Hdict.
      destruct (decide (idx j = idx j')) as [Heq|Hneq].
      * rewrite Heq, lookup_insert_eq.
        by rewrite (NoDup_fmap_eq idx jobs j j' Hnodup Hj Hj' Heq).
      * rewrite lookup_insert_ne by exact Hneq. by apply Hs.
  - pose proof (Hw _ _ Hlk) as Hj. simpl in Hj.
    destruct (Hjobs j Hj) as [Hr Hn].
    split; simpl.
    + exact Hq.
    + intros w' st Hst.
      apply list_lookup_insert_Some in Hst as [(_ & <- & _)|[_ Hst]].
      * exact I.
      * by eapply Hw.
    + intros k v. rewrite dict_of_signal. apply Hd.
    + rewrite dict_of_signal. unfold signal_if_complete.
      case_decide as Hc; simpl; [|exact Hs].
      intros _. apply complete_when_counted; [exact Hd|].
      rewrite Hr in Hc. lia.
Qed.

Lemma batch_inv_start nworkers (s0 : shared) :
  dict_of s0 r = ∅ → opt_q s0 = [] →
  batch_inv harvest jobs r (batch_start jobs nworkers s0).
Proof.
  intros Hd Hq. split; simpl.
  - done.
  - intros w st Hst. apply lookup_replicate in Hst as [-> _]. exact I.
  - intros k v. rewrite Hd, lookup_empty. discriminate.
  - rewrite Hq. done.
Qed.

Lemma batch_inv_steps p p' :
  batch_inv harvest jobs r p → steps harvest p p' → batch_inv harvest jobs r p'.
Proof.
  intros Hinv Hsteps. induction Hsteps as [|p1 p2 p3 _ IH Hstep].
  - exact Hinv.
  - eapply batch_inv_step; [|exact Hstep]. by apply IH.
Qed.

End Batch.
End Worker.

(** C7: processing a job writes the computed contour into the job's
    shared map under the job's index and puts the token on the output
    queue exactly when, after that write, the map holds at least [n_cpu]
    keys; and in a pool whose workers interleave between these statements,
    started on a fresh map with a batch of [n_cpu] jobs of distinct
    indices, a token on the output queue means that every job's result is
    in the map. *)
Theorem harvest_completion {Sig F0 Tok : Type} (harvest : Sig → F0)
    (jobs : list (@job Sig Tok)) (r nworkers : nat)
    (s0 : @shared F0 Tok) (p : @pool Sig F0 Tok)
    (j : @job Sig Tok) (s : @shared F0 Tok) :
  NoDup (idx <$> jobs) →
  (∀ j', j' ∈ jobs → res_f0 j' = r ∧ n_cpu j' = Z.of_nat (length jobs)) →
  dict_of s0 r = ∅ → opt_q s0 = [] →
  steps harvest (batch_start jobs nworkers s0) p →
  let d' := <[idx j := harvest (x j)]> (dict_of s (res_f0 j)) in
  dict_of (process_job harvest j s) (res_f0 j) = d'
  ∧ (n_cpu j ≤ Z.of_nat (size d') →
     opt_q (process_job harvest j s) = opt_q s ++ [ts j])
  ∧ (¬ n_cpu j ≤ Z.of_nat (size d') → opt_q (process_job harvest j s) = opt_q s)
  ∧ (opt_q (mem p) ≠ [] →
     ∀ j', j' ∈ jobs → dict_of (mem p) r !! idx j' = Some (harvest (x j'))).
Proof.
  intros Hnd Hjobs Hd Hq Hsteps d'.
  assert (Hw : dict_of (write_result j (harvest (x j)) s) (res_f0 j) = d')
    by apply dict_of_write.
  split; [|split; [|split]].
  - unfold process_job. rewrite dict_of_signal. exact Hw.
  - intros Hc. unfold process_job, signal_if_complete.
    rewrite Hw, decide_True by exact Hc. reflexivity.
  - intros Hc. unfold process_job, signal_if_complete.
    rewrite Hw, decide_False by exact Hc. reflexivity.
  - apply (inv_signal harvest jobs r p).
    eapply batch_inv_steps; [exact Hnd | exact Hjobs | | exact Hsteps].
    by apply batch_inv_start.
Qed.

Lemma harvest_completion_witness :
  let j0 := {| idx := 0; x := 10%nat; res_f0 := 7%nat; n_cpu := 2; ts := 99%nat |} in
  let j1 := {| idx := 1; x := 20%nat; res_f0 := 7%nat; n_cpu := 2; ts := 99%nat |} in
  let s0 := {| dicts := (∅ : gmap nat (gmap Z nat)); opt_q := [] |} in
  ∃ p, steps S (batch_start [j0; j1] 2 s0) p
       ∧ opt_q (mem p) = [99%nat]
       ∧ ∀ j', j' ∈ [j0; j1] → dict_of (mem p) 7 !! idx j' = Some (S (x j')).
Proof.
  intros j0 j1 s0.
  assert (Hrun : ∃ p, steps S (batch_start [j0; j1] 2 s0) p
                      ∧ opt_q (mem p) = [99%nat]).
  { eexists. split.
    - unfold batch_start. simpl.
      eapply steps_head; [eapply (step_get S 0%nat); reflexivity|]. simpl.
      eapply steps_head; [eapply (step_get S 1%nat); reflexivity|]. simpl.
      eapply steps_head; [eapply (step_write S 0%nat); reflexivity|]. simpl.
      eapply steps_head; [eapply (step_write S 1%nat); reflexivity|]. simpl.
      eapply steps_head; [eapply (step_check S 0%nat); reflexivity|]. simpl.
      apply steps_refl.
    - reflexivity. }
  destruct Hrun as (p & Hsteps & Hq).
  exists p. split; [exact Hsteps|]. split; [exact Hq|].
  refine (proj2 (proj2 (proj2
    (harvest_completion S [j0; j1] 7 2 s0 p j0 s0 _ _ _ _ Hsteps))) _).
  - apply NoDup_cons. split; [|apply NoDup_singleton].
    intros H%list_elem_of_singleton. discriminate H.
  - intros j' [->|[->|[]%elem_of_nil]%elem_of_cons]%elem_of_cons; done.
  - reflexivity.
  - reflexivity.
  - rewrite Hq. discriminate.
Defined.

End HarvestFacts.

Module EventsFacts.
Import Session Events PyFacts.

Lemma bind_Ok_inv {A B} (m : res A) (f : A → res B) b :
  (m ≫= f) = Ok b → ∃ a, m = Ok a ∧ f a = Ok b.
Proof. destruct m as [a|e]; simpl; [eauto | discriminate]. Qed.

(** Splits a hypothesis [m ≫= f = Ok b] into its two runs. *)
Ltac inv_bind H :=
  let a := fresh "a" in
  let Ha := fresh "Ha" in
  apply bind_Ok_inv in H as (a & Ha & H).

Lemma config_setattr_ne k k' v st :
  k ≠ k' → gui_config (setattr k v st) !! k' = gui_config st !! k'.
Proof. intros H. unfold setattr. simpl. by rewrite lookup_insert_ne. Qed.

Lemma update_devices_flag e h st st' :
  update_devices e h st = Ok st' → flag_vc st' = false.
Proof.
  unfold update_devices. intros H. inv_bind H.
  apply Ok_inj in H. subst st'. reflexivity.
Qed.

Lemma reload_devices_flag e values st st' :
  reload_devices e values st = Ok st' → flag_vc st' = false.
Proof.
  unfold reload_devices. intros H.
  inv_bind H. inv_bind H. apply update_devices_flag in Ha0.
  inv_bind H. inv_bind H. inv_bind H. inv_bind H.
  assert (H1 : flag_vc a1 = false).
  { destruct (in_strs a (hostapis a0)).
    - apply Ok_inj in Ha1. by subst.
    - inv_bind Ha1. apply Ok_inj in Ha1. by subst. }
  assert (H3 : flag_vc a3 = false).
  { destruct (negb _ && _).
    - inv_bind Ha3. apply Ok_inj in Ha3. by subst.
    - apply Ok_inj in Ha3. by subst. }
  destruct (negb (in_strs a4 _)).
  - inv_bind H. apply Ok_inj in H. by subst.
  - apply Ok_inj in H. by subst.
Qed.

Lemma stop_stream_flag st : flag_vc (stop_stream st) = false.
Proof.
  unfold stop_stream. destruct (flag_vc st) eqn:E; [|exact E].
  simpl. destruct (stream st); reflexivity.
Qed.

Lemma config_stop_stream st : gui_config (stop_stream st) = gui_config st.
Proof.
  unfold stop_stream. destruct (flag_vc st); [|done].
  simpl. by destruct (stream st).
Qed.

Lemma session_stop_stream st : session (stop_stream st) = session st.
Proof.
  unfold stop_stream. destruct (flag_vc st); [|done].
  simpl. by destruct (stream st).
Qed.

Lemma rvc_stop_stream st : rvc (stop_stream st) = rvc st.
Proof.
  unfold stop_stream. destruct (flag_vc st); [|done].
  simpl. by destruct (stream st).
Qed.

Lemma hot_updated_spec k :
  k ∈ hot_updated ↔
  k = "threhold"%string ∨ k = "pitch"%string ∨ k = "formant"%string
  ∨ k = "index_rate"%string ∨ k = "rms_mix_rate"%string
  ∨ k = "f0method"%string ∨ k = "I_noise_reduce"%string
  ∨ k = "O_noise_reduce"%string ∨ k = "use_pv"%string.
Proof. unfold hot_updated. rewrite !elem_of_cons, elem_of_nil. tauto. Qed.

(** The hot-update chain leaves the sizes of the session alone, and the
    attributes it writes are the hot-updated ones. *)
Lemma hot_update_frame ev values st st' :
  hot_update ev values st = Ok st' → flag_vc st' = true →
  session st' = session st
  ∧ ∀ k, k ∉ hot_updated → gui_config st' !! k = gui_config st !! k.
Proof.
  unfold hot_update. intros H Hflag.
  repeat
    (match type of H with
     | (if decide ?P then _ else _) = _ => destruct (decide P) as [_|_]
     | (if ?b then _ else _) = _ => destruct b
     end;
     [ try inv_bind H; apply Ok_inj in H; subst st';
       first
         [ rewrite stop_stream_flag in Hflag; discriminate Hflag
         | split; [reflexivity|]; intros k Hk;
           first
             [ reflexivity
             | apply config_setattr_ne; intros <-;
               apply Hk, hot_updated_spec; tauto ] ]
     | ]).
  apply Ok_inj in H. subst st'. done.
Qed.

Lemma streaming_turn_frame st st' :
  streaming_turn st st' →
  session st' = session st
  ∧ ∀ k, k ∉ hot_updated → gui_config st' !! k = gui_config st !! k.
Proof.
  intros (Hf & Hf' & e & ev & values & H).
  destruct ev as [ev|]; [|discriminate H]. simpl in H.
  inv_bind H. inv_bind H. inv_bind H. apply Ok_inj in H.
  injection H as ->.
  destruct (bool_decide (ev = "reload_devices") || bool_decide (ev = "sg_hostapi"))
    eqn:Erel.
  - (* the device lists are read again: the flag is cleared *)
    exfalso. apply reload_devices_flag in Ha.
    assert (Hne : ev ≠ "start_vc"%string).
    { intros ->. discriminate Erel. }
    rewrite bool_decide_false in Ha0 by exact Hne. simpl in Ha0.
    apply Ok_inj in Ha0. subst a0.
    assert (Hst : hot_update ev values a = Ok (stop_stream a)).
    { apply orb_true_iff in Erel as [E|E]; apply bool_decide_eq_true in E;
        subst ev; reflexivity. }
    rewrite Hst in Ha1. apply Ok_inj in Ha1. subst st'.
    rewrite stop_stream_flag in Hf'. discriminate.
  - apply Ok_inj in Ha. subst a.
    rewrite Hf, andb_false_r in Ha0. apply Ok_inj in Ha0. subst a0.
    eapply hot_update_frame; eauto.
Qed.

(** Pressing "Start" on the idle program copies the slider values into
    the configuration, sizes the session and sets the running flag. *)
Lemma start_turn :
  match handle slow_env (Some "start_vc"%string) start_values idle_defaults with
  | Ok (Continue st') =>
      flag_vc st' = true ∧ stream st' = true
      ∧ gui_config st' !! "crossfade_time"%string = Some (VFloat (15 # 100))
      ∧ gui_config st' !! "f0method"%string = Some (VStr "fcpe")
      ∧ (crossfade_frame ∘ fst) <$> session st' = Some 15
      ∧ (sola_buffer_frame ∘ fst) <$> session st' = Some 4
  | _ => False
  end.
Proof. vm_compute. repeat split; reflexivity. Qed.

Lemma threshold_turn :
  handle quiet_env (Some "threhold"%string) threshold_moved running_defaults
  = Ok (Continue (setattr "threhold" (VFloat (-30 # 1)) running_defaults)).
Proof. reflexivity. Qed.

Lemma threshold_turn_streaming :
  streaming_turn running_defaults
                 (setattr "threhold" (VFloat (-30 # 1)) running_defaults).
Proof.
  split; [reflexivity|]. split; [reflexivity|].
  exists quiet_env, (Some "threhold"%string), threshold_moved.
  exact threshold_turn.
Qed.

(** C6 as stated fails: while the stream runs, moving the threshold
    slider writes the new threshold into the configuration the audio
    callback reads. *)
Lemma threshold_changes_while_streaming : ¬ frozen_while_streaming.
Proof.
  intros H.
  destruct (H _ _ threshold_turn_streaming) as [Hfrozen _].
  specialize (Hfrozen "threhold"%string).
  assert (Hin : "threhold"%string ∈ session_parameters).
  { unfold session_parameters. rewrite !elem_of_cons. tauto. }
  specialize (Hfrozen Hin). discriminate Hfrozen.
Qed.

End EventsFacts.

Module NoiseGateFacts.
Import NoiseGate PyFacts.

Section Gate.
Context {A : Type} (zero : A).
Variable frames_below : list A → Z → Q → list bool.

Lemma length_zero_frames zc mask (indata : list A) :
  length (zero_frames zero zc mask indata) = length indata.
Proof.
  unfold zero_frames.
  generalize (zip (seqZ 0 (Z.of_nat (length mask))) mask).
  intros l. revert indata.
  induction l as [|[i b] l IH]; intros indata; simpl; [done|].
  rewrite IH. destruct b; [apply length_fill_slice | done].
Qed.

Lemma gated_eq zc threhold (rms_buffer indata : list A) :
  0 < zc → Z.of_nat (length rms_buffer) = 4 * zc →
  ∃ out, gated zero frames_below zc threhold rms_buffer indata
         = Ok (get_slice (rms_buffer ++ indata) (Some (- 4 * zc)) None, out)
    ∧ Z.of_nat (length out) = Z.of_nat (length indata) + 2 * zc.
Proof.
  intros Hzc Hrb. unfold gated.
  set (indata1 := rms_buffer ++ indata).
  assert (Hlen1 : Z.of_nat (length indata1) = 4 * zc + Z.of_nat (length indata)).
  { unfold indata1. rewrite length_app. lia. }
  assert (Htail : length (get_slice indata1 (Some (- 4 * zc)) None)
                  = length rms_buffer).
  { unfold get_slice, slice_bounds. simpl. unfold adjust.
    destruct (Z.ltb_spec (- 4 * zc) 0); [|lia].
    rewrite length_take, length_drop. lia. }
  rewrite set_slice_all by exact Htail. simpl.
  eexists. split; [reflexivity|].
  assert (Hhalf : 0 <= zc / 2 <= zc).
  { split; [apply Z.div_pos; lia | apply Z.div_le_upper_bound; lia]. }
  rewrite length_get_slice_from.
  - rewrite length_zero_frames, length_get_slice_from by lia. lia.
  - rewrite length_zero_frames, length_get_slice_from by lia. lia.
Qed.

End Gate.

(** C4, as amended: with the gate enabled the processed segment has
    [2 * zc] more samples than the raw block (it keeps that much of the
    lookback), where the un-gated path passes the block as it is; the
    lookback buffer keeps the last [4 * zc] samples verbatim; and the
    input ring buffer, whose tail is written with the segment's own
    length, has the same length after the update on both paths. *)
Theorem gated_sample_count {A} (zero : A)
    (frames_below : list A → Z → Q → list bool)
    (zc : Z) (threhold : Q) (rms_buffer indata input_wav : list A) :
  0 < zc → Z.of_nat (length rms_buffer) = 4 * zc →
  (1 ≤ length indata)%nat →
  Z.of_nat (length indata) + 2 * zc <= Z.of_nat (length input_wav) →
  (-60 < threhold)%Q →
  ∃ rb out,
    noise_gate zero frames_below zc threhold rms_buffer indata = Ok (rb, out)
    ∧ Z.of_nat (length out) = Z.of_nat (length indata) + 2 * zc
    ∧ rb = get_slice (rms_buffer ++ indata) (Some (- 4 * zc)) None
    ∧ length rb = length rms_buffer
    ∧ noise_gate zero frames_below zc (-60) rms_buffer indata
      = Ok (rms_buffer, indata)
    ∧ ∃ gated_wav plain_wav,
        RingBuffer.update_input_wav (Z.of_nat (length indata)) out input_wav
        = Ok gated_wav
        ∧ RingBuffer.update_input_wav (Z.of_nat (length indata)) indata input_wav
          = Ok plain_wav
        ∧ length gated_wav = length input_wav
        ∧ length plain_wav = length input_wav.
Proof.
  intros Hzc Hrb Hin Hfit Hth.
  destruct (gated_eq zero frames_below zc threhold rms_buffer indata Hzc Hrb)
    as (out & Hg & Hout).
  exists (get_slice (rms_buffer ++ indata) (Some (- 4 * zc)) None), out.
  unfold noise_gate. rewrite decide_True by exact Hth.
  split; [exact Hg|]. split; [exact Hout|]. split; [reflexivity|].
  split.
  { unfold get_slice, slice_bounds. simpl. unfold adjust.
    destruct (Z.ltb_spec (- 4 * zc) 0); [|lia].
    rewrite length_take, length_drop, length_app. lia. }
  split.
  { rewrite decide_False; [reflexivity|]. apply Qlt_irrefl. }
  destruct (RingBuffer.update_input_wav (Z.of_nat (length indata)) out input_wav)
    as [gw|] eqn:Eg.
  2:{ rewrite RingBufferFacts.update_input_wav_eq in Eg by lia. discriminate. }
  destruct (RingBuffer.update_input_wav (Z.of_nat (length indata)) indata input_wav)
    as [pw|] eqn:Ep.
  2:{ rewrite RingBufferFacts.update_input_wav_eq in Ep by lia. discriminate. }
  exists gw, pw. split; [reflexivity|]. split; [reflexivity|]. split.
  - eapply RingBufferFacts.update_input_wav_length; [| |exact Eg]; lia.
  - eapply RingBufferFacts.update_input_wav_length; [| |exact Ep]; lia.
Qed.

Lemma gated_sample_count_witness :
  ∃ rb out,
    noise_gate 0 (λ _ _ _, [true; false; false]) 1 (-30 # 1)
               [1; 2; 3; 4] [5; 6] = Ok (rb, out)
    ∧ Z.of_nat (length out) = 4.
Proof.
  destruct (gated_sample_count 0 (λ _ _ _, [true; false; false]) 1 (-30 # 1)
              [1; 2; 3; 4] [5; 6] [0; 0; 0; 0; 0; 0; 0; 0])
    as (rb & out & H & Hlen & _).
  - lia.
  - reflexivity.
  - simpl; lia.
  - simpl; lia.
  - reflexivity.
  - exists rb, out. split; [exact H | exact Hlen].
Defined.

(** C4 as stated fails: at [zc = 1] a block of two samples leaves the
    enabled gate with four. *)
Lemma gated_count_differs :
  ¬ same_count_as_ungated 0 (λ _ _ _, [true; false; false]) 1 (-30 # 1)
      [1; 2; 3; 4] [5; 6].
Proof.
  intros H.
  specialize (H [3; 4; 5; 6] [0; 4; 5; 6] eq_refl).
  discriminate H.
Qed.

End NoiseGateFacts.


(** * Further properties of the modelled code *)

Module RingBufferExtra.
Import RingBuffer PyFacts RingBufferFacts EventsFacts.

Section Buf.
Context {A : Type}.
Implicit Types buf new l src : list A.

Lemma set_slice_length l a b src l' :
  set_slice l a b src = Ok l' → length l' = length l.
Proof.
  unfold set_slice.
  destruct (slice_bounds (Z.of_nat (length l)) a b) as [s e] eqn:E.
  apply slice_bounds_range in E; [|lia].
  destruct (decide (length src = Z.to_nat (e - s))) as [Hlen|Hlen].
  - intros <-%Ok_inj.
    rewrite !length_app, length_take, length_drop. lia.
  - destruct src as [|x [|y src]]; try discriminate.
    intros <-%Ok_inj.
    rewrite !length_app, length_take, length_replicate, length_drop. lia.
Qed.

End Buf.

(** X1: the two slice assignments on [self.input_wav] never change the
    size of the buffer: whenever the update returns, whatever the block
    and shift lengths, the buffer has the length it had. *)
Theorem update_input_wav_keeps_length {A} (n : Z) (new buf buf' : list A) :
  update_input_wav n new buf = Ok buf' → length buf' = length buf.
Proof.
  unfold update_input_wav, shift_left, write_tail. intros H. inv_bind H.
  apply set_slice_length in Ha, H. congruence.
Qed.

Lemma update_input_wav_keeps_length_witness :
  length [3; 4; 5; 8; 9] = length [1; 2; 3; 4; 5].
Proof.
  apply (update_input_wav_keeps_length 2 [8; 9] [1; 2; 3; 4; 5]).
  reflexivity.
Defined.

(** X2: two updates in a row, each with the shift [block_frame] and a
    block of [n ≥ block_frame] samples (the second block fitting beside
    the shift).  The buffer then ends with the whole second block;
    before it stand the first [block_frame] samples of the first block,
    and before those the old buffer from position [2·block_frame] on.
    Without the gate ([n = block_frame]) that is the old buffer without
    its first two blocks, then the two blocks; with the gate the last
    [2·zc] samples of the first segment are overwritten by the second
    segment's lookback. *)
Theorem update_input_wav_twice {A} (block_frame : Z) (buf a b : list A) :
  1 <= block_frame <= Z.of_nat (length a) → length b = length a →
  (length a + Z.to_nat block_frame ≤ length buf)%nat →
  (update_input_wav block_frame a buf ≫= update_input_wav block_frame b)
  = Ok (take (length buf - length a - Z.to_nat block_frame)
             (drop (2 * Z.to_nat block_frame) buf)
        ++ take (Z.to_nat block_frame) a ++ b).
Proof.
  intros Hbf Hb Hfit.
  set (s := Z.to_nat block_frame). fold s in Hfit.
  replace block_frame with (Z.of_nat s) by lia.
  assert (Hs : (1 ≤ s ≤ length a)%nat) by lia.
  rewrite update_input_wav_eq by lia. rewrite bind_Ok.
  set (buf1 := take (length buf - length a)
                 (drop s buf ++ drop (length buf - s) buf) ++ a).
  assert (Hl1 : length buf1 = length buf).
  { unfold buf1.
    rewrite length_app, length_take, length_app, !length_drop. lia. }
  rewrite update_input_wav_eq by lia. f_equal.
  rewrite Hl1, Hb. rewrite (app_assoc _ _ b). f_equal.
  apply list_eq. intros i.
  destruct (decide (i < length buf - length a)%nat) as [Hi|Hi].
  - rewrite lookup_take_lt by lia.
    rewrite lookup_app_l by (rewrite length_drop; lia).
    rewrite lookup_drop. unfold buf1.
    destruct (decide (i < length buf - length a - s)%nat) as [Hj|Hj].
    + rewrite lookup_app_l
        by (rewrite length_take, length_app, !length_drop; lia).
      rewrite lookup_take_lt by lia.
      rewrite lookup_app_l by (rewrite length_drop; lia).
      rewrite lookup_drop.
      rewrite lookup_app_l by (rewrite length_take, length_drop; lia).
      rewrite lookup_take_lt by lia.
      rewrite lookup_drop. f_equal. lia.
    + rewrite lookup_app_r
        by (rewrite length_take, length_app, !length_drop; lia).
      rewrite length_take, length_app, !length_drop.
      rewrite lookup_app_r by (rewrite length_take, length_drop; lia).
      rewrite length_take, length_drop.
      rewrite lookup_take_lt by lia.
      f_equal. lia.
  - rewrite lookup_take_ge by lia.
    symmetry. apply lookup_ge_None_2.
    rewrite length_app, !length_take, length_drop. lia.
Qed.

Lemma update_input_wav_twice_witness :
  (update_input_wav 2 [10; 11; 12; 13] [1; 2; 3; 4; 5; 6; 7; 8]
   ≫= update_input_wav 2 [20; 21; 22; 23])
  = Ok [5; 6; 10; 11; 20; 21; 22; 23].
Proof.
  apply (update_input_wav_twice 2 [1; 2; 3; 4; 5; 6; 7; 8]
           [10; 11; 12; 13] [20; 21; 22; 23]); simpl; lia.
Defined.

Lemma set_slice_cases {A} (l src : list A) a b :
  set_slice l a b src = Raise RuntimeError
  ∨ ∃ l', set_slice l a b src = Ok l' ∧ length l' = length l.
Proof.
  destruct (set_slice l a b src) as [l'|e] eqn:E.
  - right. exists l'. split; [reflexivity|]. by eapply set_slice_length.
  - left. unfold set_slice in E.
    destruct (slice_bounds _ a b) as [s e'].
    destruct (decide _); [discriminate|].
    destruct src as [|x [|y src]]; try discriminate; congruence.
Qed.

(** X3: a block of two or more samples that is longer than the buffer is
    refused, whatever the shift: one of the two slice assignments raises
    [RuntimeError], the buffer is not grown. *)
Theorem update_input_wav_oversize {A} (block_frame : Z) (buf new : list A) :
  (length buf < length new)%nat → (2 ≤ length new)%nat →
  update_input_wav block_frame new buf = Raise RuntimeError.
Proof.
  intros Hlt H2. unfold update_input_wav.
  destruct (set_slice_cases buf (get_slice buf (Some block_frame) None)
              None (Some (- block_frame))) as [E|(buf1 & E & Hlen)];
    unfold shift_left; rewrite E; [reflexivity|].
  rewrite bind_Ok.
  unfold write_tail, set_slice, slice_bounds. simpl. unfold adjust.
  destruct (Z.ltb_spec (- Z.of_nat (length new)) 0); [|lia].
  replace (0 `max` (Z.of_nat (length buf1) + - Z.of_nat (length new)))
    with 0 by lia.
  rewrite decide_False by lia.
  destruct new as [|x [|y new]]; simpl in H2; try lia. reflexivity.
Qed.

Lemma update_input_wav_oversize_witness :
  update_input_wav 3 [7; 8; 9] [1; 2] = Raise RuntimeError.
Proof. apply update_input_wav_oversize; simpl; lia. Defined.

End RingBufferExtra.

Module SessionExtra.
Import Session Stitch PyFacts SessionFacts EventsFacts.

Lemma py_floordiv_inv a b c : py_floordiv a b = Ok c → b ≠ 0 ∧ c = a / b.
Proof.
  unfold py_floordiv. destruct (decide (b = 0)); [discriminate|].
  intros <-%Ok_inj. done.
Qed.

Lemma torch_full_inv {A} (c : A) n l :
  torch_full c n = Ok l → 0 <= n ∧ l = replicate (Z.to_nat n) c.
Proof.
  unfold torch_full. destruct (Z.ltb_spec n 0); [discriminate|].
  intros <-%Ok_inj. done.
Qed.

Lemma np_zeros_inv {A} (c : A) n l :
  np_zeros c n = Ok l → 0 <= n ∧ l = replicate (Z.to_nat n) c.
Proof.
  unfold np_zeros. destruct (Z.ltb_spec n 0); [discriminate|].
  intros <-%Ok_inj. done.
Qed.

Lemma round_to_zc_inv t samplerate z v :
  round_to_zc t samplerate z = Ok v →
  z ≠ 0 ∧ v = np_round (t * inject_Z samplerate / inject_Z z) * z.
Proof.
  unfold round_to_zc, py_truediv. destruct (decide (z = 0)); [discriminate|].
  simpl. intros <-%Ok_inj. done.
Qed.

(** What a returned session start yields, step by step. *)
Lemma start_vc_buffers_inv bt ct et sr fr bufs :
  start_vc_buffers bt ct et sr = Ok (fr, bufs) →
  let z := sr / 100 in
  let bf := np_round (bt * inject_Z sr / inject_Z z) * z in
  let cf := np_round (ct * inject_Z sr / inject_Z z) * z in
  let ef := np_round (et * inject_Z sr / inject_Z z) * z in
  0 < z ∧ 0 <= ef + cf + z + bf ∧ 0 <= Z.min cf (4 * z)
  ∧ fr = {| zc := z; block_frame := bf; block_frame_16k := 160 * bf / z;
            crossfade_frame := cf; sola_buffer_frame := Z.min cf (4 * z);
            sola_search_frame := z; extra_frame := ef; skip_head := ef / z;
            return_length := (bf + Z.min cf (4 * z) + z) / z |}
  ∧ length (input_wav bufs) = Z.to_nat (ef + cf + z + bf)
  ∧ length (input_wav_res bufs)
    = Z.to_nat (160 * Z.of_nat (Z.to_nat (ef + cf + z + bf)) / z)
  ∧ length (rms_buffer bufs) = Z.to_nat (4 * z)
  ∧ length (sola_buffer bufs) = Z.to_nat (Z.min cf (4 * z))
  ∧ fade_in_of (Z.min cf (4 * z)) = Ok (fade_in_window bufs)
  ∧ fade_out_window bufs = fade_out_of (fade_in_window bufs).
Proof.
  intros H z bf cf ef. unfold start_vc_buffers in H.
  fold z in H.
  inv_bind H. apply round_to_zc_inv in Ha as [Hz ->].
  inv_bind H. apply py_floordiv_inv in Ha as [_ ->].
  inv_bind H. apply round_to_zc_inv in Ha as [_ ->].
  inv_bind H. apply round_to_zc_inv in Ha as [_ ->].
  inv_bind H. apply torch_full_inv in Ha as [Hn ->].
  inv_bind H. apply py_floordiv_inv in Ha as [_ ->].
  inv_bind H. apply torch_full_inv in Ha as [Hr ->].
  inv_bind H. apply np_zeros_inv in Ha as [H4 ->].
  inv_bind H. apply torch_full_inv in Ha as [Hsb ->].
  inv_bind H. apply py_floordiv_inv in Ha as [_ ->].
  inv_bind H. apply py_floordiv_inv in Ha as [_ ->].
  inv_bind H. apply Ok_inj in H. injection H as <- <-.
  fold bf cf ef in Hn, Hsb |- *. simpl.
  rewrite !length_replicate.
  repeat split; try done; lia.
Qed.

(** X4: every size of a started session is a whole number of [zc]
    units, so the conversions between device-rate samples, 16 kHz samples
    and [zc] counts are exact: [block_frame_16k·zc = 160·block_frame],
    [skip_head·zc = extra_frame], [return_length·zc] is the block plus the
    overlap plus the search range, and the 16 kHz buffer holds
    [160/zc] times the samples of the input buffer. *)
Theorem session_sizes_align (bt ct et : Q) (sr : Z) (fr : frames)
    (bufs : buffers) :
  start_vc_buffers bt ct et sr = Ok (fr, bufs) →
  0 < zc fr
  ∧ (zc fr | block_frame fr) ∧ (zc fr | crossfade_frame fr)
  ∧ (zc fr | extra_frame fr) ∧ (zc fr | sola_buffer_frame fr)
  ∧ block_frame_16k fr * zc fr = 160 * block_frame fr
  ∧ skip_head fr * zc fr = extra_frame fr
  ∧ return_length fr * zc fr
    = block_frame fr + sola_buffer_frame fr + sola_search_frame fr
  ∧ Z.of_nat (length (input_wav_res bufs)) * zc fr
    = 160 * Z.of_nat (length (input_wav bufs))
  ∧ Z.of_nat (length (rms_buffer bufs)) = 4 * zc fr.
Proof.
  intros H. apply start_vc_buffers_inv in H.
  cbv zeta in H.
  set (z := sr / 100) in *.
  set (b := np_round (bt * inject_Z sr / inject_Z z)) in *.
  set (c := np_round (ct * inject_Z sr / inject_Z z)) in *.
  set (e := np_round (et * inject_Z sr / inject_Z z)) in *.
  destruct H as (Hz & Hn & Hsb & -> & Hiw & Hres & Hrms & _).
  simpl.
  assert (Hmin : Z.min (c * z) (4 * z) = Z.min c 4 * z).
  { rewrite Z.mul_min_distr_nonneg_r by lia. reflexivity. }
  split; [exact Hz|].
  split; [apply Z.divide_factor_r|].
  split; [apply Z.divide_factor_r|].
  split; [apply Z.divide_factor_r|].
  split; [rewrite Hmin; apply Z.divide_factor_r|].
  split.
  { rewrite Z.mul_assoc, Z.div_mul by lia. lia. }
  split.
  { rewrite Z.div_mul by lia. reflexivity. }
  split.
  { rewrite Hmin.
    replace (b * z + Z.min c 4 * z + z) with ((b + Z.min c 4 + 1) * z) by lia.
    rewrite Z.div_mul by lia. reflexivity. }
  split.
  { assert (Hm : 0 <= e + c + 1 + b).
    { apply (Z.mul_nonneg_cancel_r _ z); lia. }
    replace (e * z + c * z + z + b * z) with ((e + c + 1 + b) * z)
      in Hres, Hiw by lia.
    rewrite Z2Nat.id in Hres by lia.
    replace (160 * ((e + c + 1 + b) * z)) with (160 * (e + c + 1 + b) * z)
      in Hres by lia.
    rewrite Z.div_mul in Hres by lia.
    rewrite Hres, Hiw.
    rewrite Z2Nat.id by lia.
    rewrite Z2Nat.id by (apply Z.mul_nonneg_nonneg; lia).
    ring. }
  rewrite Hrms. lia.
Qed.

Lemma session_sizes_align_witness :
  ∃ fr bufs,
    start_vc_buffers (25 # 100) (5 # 100) (5 # 100) 200 = Ok (fr, bufs)
    ∧ block_frame_16k fr * zc fr = 160 * block_frame fr.
Proof.
  assert (E : ∃ fr bufs,
             start_vc_buffers (25 # 100) (5 # 100) (5 # 100) 200 = Ok (fr, bufs))
    by (eexists _, _; vm_compute; reflexivity).
  destruct E as (fr & bufs & E).
  exists fr, bufs. split; [exact E|].
  exact (proj1 (proj2 (proj2 (proj2 (proj2 (proj2
           (session_sizes_align _ _ _ _ _ _ E))))))).
Defined.

Lemma np_round_close q :
  (inject_Z (np_round q) - q <= 1 # 2)%Q ∧ (q - inject_Z (np_round q) <= 1 # 2)%Q.
Proof.
  unfold np_round.
  pose proof (Qfloor_le q) as Hlo. pose proof (Qlt_floor q) as Hhi.
  rewrite inject_Z_plus in Hhi. change (inject_Z 1) with 1%Q in Hhi.
  destruct (Qcompare_spec (q - inject_Z (Qfloor q)) (1 # 2)) as [He|Hl|Hg].
  - destruct (Z.even (Qfloor q)); rewrite ?inject_Z_plus;
      change (inject_Z 1) with 1%Q; split; Lqa.lra.
  - split; Lqa.lra.
  - rewrite inject_Z_plus. change (inject_Z 1) with 1%Q. split; Lqa.lra.
Qed.

Lemma round_to_zc_close (t : Q) (sr z : Z) :
  0 < z →
  let frame := np_round (t * inject_Z sr / inject_Z z) * z in
  (inject_Z (2 * frame) - 2 * t * inject_Z sr <= inject_Z z)%Q
  ∧ (2 * t * inject_Z sr - inject_Z (2 * frame) <= inject_Z z)%Q.
Proof.
  intros Hz frame. unfold frame. clear frame.
  assert (Hzq : (0 < inject_Z z)%Q).
  { change 0%Q with (inject_Z 0). rewrite <- Zlt_Qlt. exact Hz. }
  set (q := (t * inject_Z sr / inject_Z z)%Q).
  destruct (np_round_close q) as [H1 H2].
  assert (Hq : (q * inject_Z z == t * inject_Z sr)%Q).
  { unfold q. rewrite Qmult_comm. apply Qmult_div_r. intros E.
    rewrite E in Hzq. exact (Qlt_irrefl _ Hzq). }
  rewrite Z.mul_assoc, inject_Z_mult, inject_Z_mult.
  change (inject_Z 2) with 2%Q.
  assert (Hm1 : ((inject_Z (np_round q) - q) * inject_Z z
                 <= (1 # 2) * inject_Z z)%Q)
    by (apply Qmult_le_compat_r; [exact H1 | apply Qlt_le_weak, Hzq]).
  assert (Hm2 : ((q - inject_Z (np_round q)) * inject_Z z
                 <= (1 # 2) * inject_Z z)%Q)
    by (apply Qmult_le_compat_r; [exact H2 | apply Qlt_le_weak, Hzq]).
  assert (Ht : (2 * t * inject_Z sr == 2 * (q * inject_Z z))%Q)
    by (rewrite Hq; ring).
  rewrite Ht. split; Lqa.lra.
Qed.

(** X5: each frame count of a started session is the requested duration
    rounded to whole [zc] units: twice the frame count differs from twice
    [time·samplerate] by at most [zc], for the block, the crossfade and
    the extra context. *)
Theorem session_sizes_rounded (bt ct et : Q) (sr : Z) (fr : frames)
    (bufs : buffers) :
  start_vc_buffers bt ct et sr = Ok (fr, bufs) →
  ((inject_Z (2 * block_frame fr) - 2 * bt * inject_Z sr <= inject_Z (zc fr))%Q
   ∧ (2 * bt * inject_Z sr - inject_Z (2 * block_frame fr) <= inject_Z (zc fr))%Q)
  ∧ ((inject_Z (2 * crossfade_frame fr) - 2 * ct * inject_Z sr
      <= inject_Z (zc fr))%Q
     ∧ (2 * ct * inject_Z sr - inject_Z (2 * crossfade_frame fr)
        <= inject_Z (zc fr))%Q)
  ∧ ((inject_Z (2 * extra_frame fr) - 2 * et * inject_Z sr <= inject_Z (zc fr))%Q
     ∧ (2 * et * inject_Z sr - inject_Z (2 * extra_frame fr)
        <= inject_Z (zc fr))%Q).
Proof.
  intros H. apply start_vc_buffers_inv in H. cbv zeta in H.
  destruct H as (Hz & _ & _ & -> & _). simpl.
  split; [|split]; apply round_to_zc_close; exact Hz.
Qed.

Lemma session_sizes_rounded_witness :
  ∃ fr bufs,
    start_vc_buffers (26 # 100) (5 # 100) (5 # 100) 250 = Ok (fr, bufs)
    ∧ (inject_Z (2 * block_frame fr) - 2 * (26 # 100) * inject_Z 250
       <= inject_Z (zc fr))%Q.
Proof.
  assert (E : ∃ fr bufs,
             start_vc_buffers (26 # 100) (5 # 100) (5 # 100) 250 = Ok (fr, bufs))
    by (eexists _, _; vm_compute; reflexivity).
  destruct E as (fr & bufs & E).
  exists fr, bufs. split; [exact E|].
  exact (proj1 (proj1 (session_sizes_rounded _ _ _ _ _ _ E))).
Defined.

(** X6: a sample rate below 100 Hz makes [zc] zero and the session start
    stops at its first division: [ZeroDivisionError], before any buffer
    is allocated. *)
Theorem start_vc_low_rate (bt ct et : Q) (sr : Z) :
  0 <= sr < 100 →
  start_vc_buffers bt ct et sr = Raise ZeroDivisionError.
Proof.
  intros H. unfold start_vc_buffers.
  rewrite Z.div_small by lia. reflexivity.
Qed.

Lemma start_vc_low_rate_witness :
  start_vc_buffers (25 # 100) (5 # 100) (25 # 10) 99 = Raise ZeroDivisionError.
Proof. apply start_vc_low_rate. lia. Defined.

End SessionExtra.

Module FadeExtra.
Import Session Stitch PyFacts SessionFacts.

#[local] Open Scope R_scope.

Lemma fade_arg_range n ls t v :
  linspace 0 1 n = Ok ls → ls !! t = Some v →
  0 <= 0.5 * PI * v <= PI / 2.
Proof.
  intros Hls Hv. pose proof PI_RGT_0 as Hpi.
  unfold Q2R; cbn [Qnum Qden].
  destruct (Z_lt_le_dec n 2) as [Hn|Hn].
  - assert (t = 0%nat) as ->.
    { apply lookup_lt_Some in Hv. apply linspace_length in Hls. lia. }
    rewrite (linspace_first _ _ _ _ _ Hls Hv). lra.
  - rewrite (linspace_lookup _ _ _ _ _ _ Hls Hv Hn).
    assert (Ht : INR t <= IZR n - 1).
    { apply lookup_lt_Some in Hv. apply linspace_length in Hls.
      rewrite INR_IZR_INZ, <- minus_IZR. apply IZR_le. lia. }
    pose proof (pos_INR t) as Ht0.
    assert (Hd : 0 < IZR n - 1) by (apply IZR_le in Hn; lra).
    assert (Hv1 : 0 <= INR t * ((1 - 0) / (IZR n - 1)) <= 1).
    { replace (INR t * ((1 - 0) / (IZR n - 1))) with (INR t / (IZR n - 1))
        by (field; lra).
      split.
      - apply Rmult_le_pos; [lra|]. left. apply Rinv_0_lt_compat. exact Hd.
      - apply (Rmult_le_reg_r (IZR n - 1)); [exact Hd|].
        replace (INR t / (IZR n - 1) * (IZR n - 1)) with (INR t)
          by (field; lra). lra. }
    split; nra.
Qed.

Lemma fade_in_le (n : Z) (fi : list R) (t1 t2 : nat) (a1 a2 : R) :
  fade_in_of n = Ok fi → fi !! t1 = Some a1 → fi !! t2 = Some a2 →
  (t1 ≤ t2)%nat → a1 <= a2.
Proof.
  intros Hfi H1 H2 Hle.
  destruct (fade_in_lookup _ _ _ _ Hfi H1) as (ls & v1 & Hls & Hv1 & E1).
  destruct (fade_in_lookup _ _ _ _ Hfi H2) as (ls' & v2 & Hls' & Hv2 & E2).
  rewrite Hls in Hls'. apply Ok_inj in Hls'. subst ls'.
  pose proof (fade_arg_range _ _ _ _ Hls Hv1) as R1.
  pose proof (fade_arg_range _ _ _ _ Hls Hv2) as R2.
  pose proof PI_RGT_0 as Hpi.
  assert (Hvv : v1 <= v2).
  { destruct (Z_lt_le_dec n 2) as [Hn|Hn].
    - assert (t1 = 0%nat ∧ t2 = 0%nat) as [-> ->].
      { apply lookup_lt_Some in Hv1, Hv2. apply linspace_length in Hls. lia. }
      rewrite Hv1 in Hv2. injection Hv2 as ->. lra.
    - rewrite (linspace_lookup _ _ _ _ _ _ Hls Hv1 Hn).
      rewrite (linspace_lookup _ _ _ _ _ _ Hls Hv2 Hn).
      assert (Hd : 0 < IZR n - 1) by (apply IZR_le in Hn; lra).
      assert (Ht : INR t1 <= INR t2) by (apply le_INR; exact Hle).
      assert (0 < (1 - 0) / (IZR n - 1)).
      { apply Rdiv_lt_0_compat; lra. }
      nra. }
  assert (Hs : sin (0.5 * PI * v1) <= sin (0.5 * PI * v2)).
  { apply sin_incr_1; try lra.
    unfold Q2R in *; cbn [Qnum Qden] in *. nra. }
  assert (Hs0 : 0 <= sin (0.5 * PI * v1)) by (apply sin_ge_0; lra).
  subst a1 a2. simpl. nra.
Qed.

Lemma fade_in_first (n : Z) (fi : list R) (a : R) :
  fade_in_of n = Ok fi → fi !! 0%nat = Some a →
  a = 0 ∧ fade_out_of fi !! 0%nat = Some 1.
Proof.
  intros Hfi H1.
  destruct (fade_in_lookup _ _ _ _ Hfi H1) as (ls & v1 & Hls & Hv1 & E1).
  rewrite (linspace_first _ _ _ _ _ Hls Hv1) in E1.
  replace (0.5 * PI * 0) with 0 in E1 by ring. rewrite sin_0 in E1.
  assert (a = 0) as -> by (subst a; ring).
  split; [reflexivity|].
  unfold fade_out_of. rewrite list_lookup_fmap, H1. simpl.
  f_equal. ring.
Qed.

Lemma fade_in_last (n : Z) (fi : list R) (t : nat) (a : R) :
  fade_in_of n = Ok fi → fi !! t = Some a →
  (2 <= n)%Z → Z.of_nat t = (n - 1)%Z →
  a = 1 ∧ fade_out_of fi !! t = Some 0.
Proof.
  intros Hfi H2 Hn Ht.
  destruct (fade_in_lookup _ _ _ _ Hfi H2) as (ls & v2 & Hls & Hv2 & E2).
  rewrite (linspace_lookup _ _ _ _ _ _ Hls Hv2 Hn) in E2.
  assert (HI : INR t = IZR n - 1).
  { rewrite INR_IZR_INZ, Ht, minus_IZR. reflexivity. }
  rewrite HI in E2.
  replace (0.5 * PI * (0 + (IZR n - 1) * ((1 - 0) / (IZR n - 1))))
    with (PI / 2) in E2.
  - rewrite sin_PI2 in E2. assert (a = 1) as -> by (subst a; ring).
    split; [reflexivity|].
    unfold fade_out_of. rewrite list_lookup_fmap, H2. simpl.
    f_equal. ring.
  - unfold Q2R; cbn [Qnum Qden]. field.
    apply Rgt_not_eq. apply IZR_le in Hn. lra.
Qed.

(** X7: the fade-in window rises monotonically from exactly 0 at the
    first index to exactly 1 at the last (for a window of at least two
    points), so the fade-out window falls from 1 to 0. *)
Theorem fade_in_monotone (n : Z) (fi : list R) (t1 t2 : nat) (a1 a2 : R) :
  fade_in_of n = Ok fi → fi !! t1 = Some a1 → fi !! t2 = Some a2 →
  (t1 ≤ t2)%nat →
  a1 <= a2
  ∧ (t1 = 0%nat → a1 = 0 ∧ fade_out_of fi !! t1 = Some 1)
  ∧ ((2 <= n)%Z → Z.of_nat t2 = (n - 1)%Z →
     a2 = 1 ∧ fade_out_of fi !! t2 = Some 0).
Proof.
  intros Hfi H1 H2 Hle. split; [|split].
  - exact (fade_in_le n fi t1 t2 a1 a2 Hfi H1 H2 Hle).
  - intros ->. exact (fade_in_first n fi a1 Hfi H1).
  - intros Hn Ht. exact (fade_in_last n fi t2 a2 Hfi H2 Hn Ht).
Qed.

Lemma fade_in_monotone_witness :
  ∃ fi a1 a2, fade_in_of 3 = Ok fi ∧ fi !! 0%nat = Some a1
              ∧ fi !! 2%nat = Some a2 ∧ a1 <= a2.
Proof.
  eexists _, _, _.
  split; [reflexivity|]. split; [reflexivity|]. split; [reflexivity|].
  refine (proj1 (fade_in_monotone 3 _ 0 2 _ _ _ _ _ _)).
  - reflexivity.
  - reflexivity.
  - reflexivity.
  - lia.
Defined.

(** X8: a linear crossfade over the session's windows starts on the old
    tail and ends on the new block: its first sample is the tail's first
    sample, its sample at the last window index is the block's, and every
    sample past the window is the block's own. *)
Theorem linear_crossfade_ends (n : Z) (fi x tail y : list R) :
  fade_in_of n = Ok fi → (2 <= n)%Z →
  length tail = length fi → (length fi ≤ length x)%nat →
  linear_crossfade n x tail fi (fade_out_of fi) = Ok y →
  y !! 0%nat = tail !! 0%nat
  ∧ y !! (length fi - 1)%nat = x !! (length fi - 1)%nat
  ∧ ∀ i, (length fi ≤ i)%nat → y !! i = x !! i.
Proof.
  intros Hfi Hn Htail Hx Hy.
  pose proof (fade_in_length _ _ Hfi) as Hlen.
  rewrite linear_crossfade_eq in Hy
    by (try done; apply length_fade_out).
  apply Ok_inj in Hy. subst y.
  assert (Hpt : ∀ t a xt ot, fi !! t = Some a → x !! t = Some xt →
            tail !! t = Some ot →
            (zip_with Rplus (zip_with Rmult (take (length fi) x) fi)
               (zip_with Rmult tail (fade_out_of fi)) ++ drop (length fi) x)
            !! t = Some (xt * a + ot * (1 - a))).
  { intros t a xt ot Ha Hxt Hot.
    apply lookup_lt_Some in Ha as Hlt.
    rewrite lookup_app_l
      by (rewrite !length_zip_with, length_take, length_fade_out; lia).
    rewrite !lookup_zip_with, lookup_take_lt by lia.
    unfold fade_out_of. rewrite list_lookup_fmap, Hxt, Ha, Hot. reflexivity. }
  split; [|split].
  - destruct (lookup_lt_is_Some_2 fi 0) as [a Ha]; [lia|].
    destruct (lookup_lt_is_Some_2 x 0) as [xt Hxt]; [lia|].
    destruct (lookup_lt_is_Some_2 tail 0) as [ot Hot]; [lia|].
    rewrite (Hpt _ _ _ _ Ha Hxt Hot), Hot.
    destruct (fade_in_first n fi a Hfi Ha) as [-> _]. f_equal. ring.
  - destruct (lookup_lt_is_Some_2 fi (length fi - 1)) as [a Ha]; [lia|].
    destruct (lookup_lt_is_Some_2 x (length fi - 1)) as [xt Hxt]; [lia|].
    destruct (lookup_lt_is_Some_2 tail (length fi - 1)) as [ot Hot]; [lia|].
    rewrite (Hpt _ _ _ _ Ha Hxt Hot), Hxt.
    destruct (fade_in_last n fi _ a Hfi Ha Hn ltac:(lia)) as [-> _].
    f_equal. ring.
  - intros i Hi.
    rewrite lookup_app_r
      by (rewrite !length_zip_with, length_take, length_fade_out; lia).
    rewrite !length_zip_with, length_take, length_fade_out.
    rewrite lookup_drop. f_equal. lia.
Qed.

Lemma linear_crossfade_ends_witness :
  ∃ fi y, fade_in_of 2 = Ok fi
          ∧ linear_crossfade 2 [3; 4; 5] [1; 2] fi (fade_out_of fi) = Ok y
          ∧ y !! 0%nat = Some 1 ∧ y !! 1%nat = Some 4.
Proof.
  eexists _, _. split; [reflexivity|]. split; [reflexivity|].
  epose proof (linear_crossfade_ends 2 _ [3; 4; 5] [1; 2] _ eq_refl
                 ltac:(lia) eq_refl ltac:(simpl; lia) eq_refl)
    as (H0 & H1 & _).
  split; [exact H0 | exact H1].
Defined.

End FadeExtra.

Module SolaExtra.
Import Session Stitch PyFacts SessionFacts StitchFacts.

#[local] Open Scope R_scope.

Lemma length_get_slice_le {A} (l : list A) a b :
  (length (get_slice l a b) ≤ length l)%nat.
Proof.
  unfold get_slice. destruct (slice_bounds _ a b) as [s e].
  rewrite length_take, length_drop. lia.
Qed.

Lemma get_slice_range {A} (l : list A) (a b : Z) :
  (0 <= a <= b)%Z → (b <= Z.of_nat (length l))%Z →
  get_slice l (Some a) (Some b) = take (Z.to_nat (b - a)) (drop (Z.to_nat a) l).
Proof.
  intros H1 H2. unfold get_slice, slice_bounds. simpl. unfold adjust.
  destruct (Z.ltb_spec a 0); [lia|]. destruct (Z.ltb_spec b 0); [lia|].
  rewrite !Z.min_l, Z.max_r by lia. reflexivity.
Qed.

Lemma get_slice_from {A} (l : list A) (a : Z) :
  (0 <= a <= Z.of_nat (length l))%Z →
  get_slice l (Some a) None = drop (Z.to_nat a) l.
Proof.
  intros H. unfold get_slice, slice_bounds. simpl. unfold adjust.
  destruct (Z.ltb_spec a 0); [lia|].
  rewrite Z.min_l, Z.max_r by lia.
  apply take_ge. rewrite length_drop. lia.
Qed.

Lemma conv1d_ok x w :
  (1 ≤ length w ≤ length x)%nat →
  ∃ l, conv1d x w = Ok l ∧ length l = (length x - length w + 1)%nat.
Proof.
  intros H. unfold conv1d. rewrite decide_False by lia.
  eexists. split; [reflexivity|]. rewrite length_fmap, length_seq. reflexivity.
Qed.

Lemma sola_scores_ok (L S : Z) (iw sb : list R) :
  (1 <= L)%Z → (0 <= S)%Z → Z.of_nat (length sb) = L →
  (L + S <= Z.of_nat (length iw))%Z →
  ∃ scores, sola_scores L S iw sb = Ok scores
            ∧ Z.of_nat (length scores) = (S + 1)%Z.
Proof.
  intros HL HS Hsb Hiw. unfold sola_scores.
  rewrite get_slice_to by lia.
  set (ci := take (Z.to_nat (L + S)) iw).
  assert (Hci : length ci = Z.to_nat (L + S)).
  { unfold ci. rewrite length_take. lia. }
  destruct (conv1d_ok ci sb) as (nom & -> & Hnom); [lia|].
  rewrite bind_Ok, torch_full_ok, bind_Ok by lia.
  destruct (conv1d_ok ((λ v, v ^ 2) <$> ci) (replicate (Z.to_nat L) 1))
    as (en & -> & Hen).
  { rewrite length_fmap, length_replicate. lia. }
  rewrite bind_Ok.
  rewrite length_fmap, length_replicate in Hen.
  rewrite broadcast2_same by (rewrite length_fmap; lia).
  eexists. split; [reflexivity|].
  rewrite length_zip_with, length_fmap. lia.
Qed.

Lemma sola_offset_bounded (platform : string) (L S : Z) (iw sb : list R) :
  platform ≠ "darwin"%string →
  (1 <= L)%Z → (0 <= S)%Z → Z.of_nat (length sb) = L →
  (L + S <= Z.of_nat (length iw))%Z →
  ∃ scores o, sola_scores L S iw sb = Ok scores
    ∧ sola_offset platform scores = Ok o
    ∧ is_first_argmax scores o
    ∧ (Z.of_nat o <= S)%Z.
Proof.
  intros Hp HL HS Hsb Hiw.
  destruct (sola_scores_ok L S iw sb HL HS Hsb Hiw) as (scores & Hsc & Hlen).
  destruct scores as [|s scores]; [simpl in Hlen; lia|].
  destruct (sola_offset_elsewhere platform s scores Hp) as (o & Ho & Hfirst).
  exists (s :: scores), o. repeat split; try done.
  destruct Hfirst as (v & Hv & _). apply lookup_lt_Some in Hv. lia.
Qed.

(** X9: when the inferred block has at least [sola_buffer_frame +
    sola_search_frame] samples and the tail has [sola_buffer_frame ≥ 1],
    the search scores exactly [sola_search_frame + 1] offsets, and on
    every platform but "darwin" the selected offset is the first maximum
    and lies in [0, sola_search_frame]. *)
Theorem sola_offset_in_range (platform : string) (L S : Z) (iw sb : list R) :
  platform ≠ "darwin"%string →
  (1 <= L)%Z → (0 <= S)%Z → Z.of_nat (length sb) = L →
  (L + S <= Z.of_nat (length iw))%Z →
  ∃ scores o, sola_scores L S iw sb = Ok scores
    ∧ Z.of_nat (length scores) = (S + 1)%Z
    ∧ sola_offset platform scores = Ok o
    ∧ is_first_argmax scores o
    ∧ (Z.of_nat o <= S)%Z.
Proof.
  intros Hp HL HS Hsb Hiw.
  destruct (sola_scores_ok L S iw sb HL HS Hsb Hiw) as (scores & Hsc & Hlen).
  destruct scores as [|s scores]; [simpl in Hlen; lia|].
  destruct (sola_offset_elsewhere platform s scores Hp) as (o & Ho & Hfirst).
  exists (s :: scores), o. repeat split; try done.
  destruct Hfirst as (v & Hv & _). apply lookup_lt_Some in Hv. lia.
Qed.

Lemma sola_offset_in_range_witness :
  ∃ scores o, sola_scores 2 1 [1; 1; 1; 4; 5] [1; 1] = Ok scores
              ∧ sola_offset "linux" scores = Ok o ∧ (Z.of_nat o <= 1)%Z.
Proof.
  destruct (sola_offset_in_range "linux" 2 1 [1; 1; 1; 4; 5] [1; 1])
    as (scores & o & H1 & _ & H2 & _ & H3).
  - discriminate.
  - lia.
  - lia.
  - reflexivity.
  - simpl. lia.
  - exists scores, o. done.
Defined.

(** X10: on every platform but "darwin", stitching an inferred block of
    at least [block_frame + sola_buffer_frame + sola_search_frame] samples
    returns exactly [block_frame] output samples and a new tail of
    [sola_buffer_frame] samples, so the tail buffer keeps its size from
    block to block; with [o] the offset that the search selects on the
    scores of this block and this tail (their first maximum), the output
    past the crossfaded head is the inferred block shifted by [o], and
    the new tail is the part of the shifted block that follows the
    output. *)
Theorem sola_stitch_sizes (platform : string) (fr : frames)
    (sb fi fo iw : list R) :
  platform ≠ "darwin"%string →
  (1 <= sola_buffer_frame fr)%Z → (0 <= sola_search_frame fr)%Z →
  (0 <= block_frame fr)%Z →
  Z.of_nat (length sb) = sola_buffer_frame fr →
  Z.of_nat (length fi) = sola_buffer_frame fr →
  Z.of_nat (length fo) = sola_buffer_frame fr →
  (block_frame fr + sola_buffer_frame fr + sola_search_frame fr
   <= Z.of_nat (length iw))%Z →
  ∃ sb' out scores o,
    sola_scores (sola_buffer_frame fr) (sola_search_frame fr) iw sb
    = Ok scores
    ∧ sola_offset platform scores = Ok o
    ∧ is_first_argmax scores o
    ∧ sola_stitch platform fr sb fi fo iw = Ok (sb', out)
    ∧ length sb' = length sb
    ∧ Z.of_nat (length out) = block_frame fr
    ∧ (Z.of_nat o <= sola_search_frame fr)%Z
    ∧ (∀ i, (length sb ≤ i < length out)%nat → out !! i = iw !! (o + i)%nat)
    ∧ (∀ i, (i < length sb)%nat → (length sb ≤ length out + i)%nat →
            sb' !! i = iw !! (o + length out + i)%nat).
Proof.
  intros Hp HL HS HB Hsb Hfi Hfo Hiw.
  destruct (sola_offset_bounded platform _ _ iw sb Hp HL HS Hsb ltac:(lia))
    as (scores & o & Hsc & Ho & Hfirst & Hob).
  unfold sola_stitch. rewrite Hsc, bind_Ok, Ho, bind_Ok.
  set (L := sola_buffer_frame fr) in *. set (B := block_frame fr) in *.
  rewrite get_slice_from by lia. rewrite Nat2Z.id.
  assert (Hi1 : (Z.to_nat B + length fi ≤ length (drop o iw))%nat).
  { rewrite length_drop. lia. }
  rewrite linear_crossfade_eq by lia. rewrite bind_Ok.
  set (head := zip_with Rplus (zip_with Rmult (take (length fi) (drop o iw)) fi)
                 (zip_with Rmult sb fo)).
  assert (Hhead : length head = length fi).
  { unfold head. rewrite !length_zip_with, length_take. lia. }
  set (infer2 := head ++ drop (length fi) (drop o iw)).
  assert (Hi2 : length infer2 = length (drop o iw)).
  { unfold infer2. rewrite length_app, Hhead, length_drop. lia. }
  rewrite get_slice_range by lia.
  replace (Z.to_nat (B + L - B)) with (length sb) by lia.
  rewrite set_slice_all
    by (rewrite length_take, length_drop; lia).
  rewrite bind_Ok. rewrite get_slice_to by lia.
  exists (take (length sb) (drop (Z.to_nat B) infer2)),
         (take (Z.to_nat B) infer2), scores, o.
  split; [first [exact Hsc | reflexivity]|].
  split; [first [exact Ho | reflexivity]|]. split; [exact Hfirst|].
  split; [reflexivity|].
  assert (Hout : length (take (Z.to_nat B) infer2) = Z.to_nat B).
  { rewrite length_take. lia. }
  split; [rewrite length_take, length_drop; lia|].
  split; [lia|]. split; [exact Hob|]. split.
  - intros i Hi. rewrite Hout in Hi.
    rewrite lookup_take_lt by lia. unfold infer2.
    rewrite lookup_app_r by lia.
    rewrite Hhead, !lookup_drop. f_equal. lia.
  - intros i Hi Hge. rewrite Hout in Hge |- *.
    rewrite lookup_take_lt by lia. rewrite lookup_drop. unfold infer2.
    rewrite lookup_app_r by lia.
    rewrite Hhead, !lookup_drop. f_equal. lia.
Qed.

Lemma sola_stitch_sizes_witness :
  ∃ sb' out, sola_stitch "linux"
               {| zc := 1; block_frame := 2; block_frame_16k := 320;
                  crossfade_frame := 2; sola_buffer_frame := 2;
                  sola_search_frame := 1; extra_frame := 5; skip_head := 5;
                  return_length := 5 |}
               [1; 1] [0; 1] [1; 0] [1; 1; 1; 4; 5] = Ok (sb', out)
             ∧ length sb' = 2%nat ∧ Z.of_nat (length out) = 2%Z.
Proof.
  edestruct (sola_stitch_sizes "linux"
              {| zc := 1; block_frame := 2; block_frame_16k := 320;
                 crossfade_frame := 2; sola_buffer_frame := 2;
                 sola_search_frame := 1; extra_frame := 5; skip_head := 5;
                 return_length := 5 |}
              [1; 1] [0; 1] [1; 0] [1; 1; 1; 4; 5])
    as (sb' & out & scores & o & _ & _ & _ & H & H1 & H2 & _).
  - discriminate.
  - simpl. lia.
  - simpl. lia.
  - simpl. lia.
  - reflexivity.
  - reflexivity.
  - reflexivity.
  - simpl. lia.
  - exists sb', out. done.
Defined.

(** X11: an inferred block shorter than the tail buffer cannot be
    correlated: the search raises and nothing is stitched. *)
Theorem sola_scores_short_block (L S : Z) (iw sb : list R) :
  (length iw < length sb)%nat →
  sola_scores L S iw sb = Raise RuntimeError.
Proof.
  intros H. unfold sola_scores, conv1d.
  pose proof (length_get_slice_le iw None (Some (L + S)%Z)).
  rewrite decide_True by lia. reflexivity.
Qed.

Lemma sola_scores_short_block_witness :
  sola_scores 2 1 [1] [1; 1] = Raise RuntimeError.
Proof. apply sola_scores_short_block. simpl. lia. Defined.

End SolaExtra.

Module NoiseGateExtra.
Import NoiseGate PyFacts NoiseGateFacts SolaExtra.

Section Gate.
Context {A : Type} (zero : A).
Variable frames_below : list A → Z → Q → list bool.
Implicit Types l acc indata rms_buffer : list A.

Lemma fill_slice_lookup l (s e : Z) (p : nat) :
  0 <= s <= e →
  fill_slice l (Some s) (Some e) zero !! p
  = if bool_decide (s <= Z.of_nat p < e) then
      (if bool_decide (p < length l)%nat then Some zero else None)
    else l !! p.
Proof.
  intros Hse. unfold fill_slice, slice_bounds. simpl. unfold adjust.
  destruct (Z.ltb_spec s 0); [lia|]. destruct (Z.ltb_spec e 0); [lia|].
  set (L := Z.of_nat (length l)).
  replace (Z.max (Z.min s L) (Z.min e L)) with (Z.min e L) by lia.
  destruct (decide (Z.of_nat p < Z.min s L)) as [H1|H1].
  - rewrite lookup_app_l by (rewrite length_take; lia).
    rewrite lookup_take_lt by lia.
    rewrite bool_decide_false by lia. reflexivity.
  - rewrite lookup_app_r by (rewrite length_take; lia).
    rewrite length_take.
    destruct (decide (Z.of_nat p < Z.min e L)) as [H2|H2].
    + rewrite lookup_app_l by (rewrite length_replicate; lia).
      rewrite bool_decide_true by lia. rewrite bool_decide_true by lia.
      apply lookup_replicate_2. lia.
    + rewrite lookup_app_r by (rewrite length_replicate; lia).
      rewrite length_replicate, lookup_drop.
      case_bool_decide as H3.
      * rewrite bool_decide_false by lia. apply lookup_ge_None_2. lia.
      * f_equal. lia.
Qed.

Lemma foldl_frames_length zc (ibs : list (Z * bool)) acc :
  length (foldl (λ (acc : list A) (ib : Z * bool),
                   if ib.2
                   then fill_slice acc (Some (ib.1 * zc)) (Some ((ib.1 + 1) * zc)) zero
                   else acc) acc ibs) = length acc.
Proof.
  revert acc. induction ibs as [|[i b] ibs IH]; intros acc; simpl; [done|].
  rewrite IH. destruct b; [apply length_fill_slice | done].
Qed.

Lemma foldl_frames_lookup zc mask : 0 < zc → ∀ i0 acc (p : nat),
  0 <= i0 → (p < length acc)%nat →
  foldl (λ (acc : list A) (ib : Z * bool),
           if ib.2
           then fill_slice acc (Some (ib.1 * zc)) (Some ((ib.1 + 1) * zc)) zero
           else acc)
        acc (zip (seqZ i0 (Z.of_nat (length mask))) mask) !! p
  = if bool_decide (i0 <= Z.of_nat p / zc
                    ∧ mask !! Z.to_nat (Z.of_nat p / zc - i0) = Some true)
    then Some zero else acc !! p.
Proof.
  intros Hzc. induction mask as [|b mask IH]; intros i0 acc p Hi0 Hp.
  - simpl. rewrite bool_decide_false; [done|]. intros [_ H]. discriminate H.
  - rewrite seqZ_cons by (simpl; lia).
    replace (Z.pred (Z.of_nat (length (b :: mask))))
      with (Z.of_nat (length mask)) by (simpl; lia).
    simpl zip. simpl foldl.
    set (acc' := if b then _ else acc).
    assert (Hlen : length acc' = length acc).
    { unfold acc'. destruct b; [apply length_fill_slice | done]. }
    rewrite IH by lia.
    assert (Hframe : i0 * zc <= Z.of_nat p < (i0 + 1) * zc ↔ Z.of_nat p / zc = i0).
    { split.
      - intros H. symmetry. apply (Z.div_unique _ _ _ (Z.of_nat p - i0 * zc)); lia.
      - intros <-. pose proof (Z.mul_div_le (Z.of_nat p) zc Hzc).
        pose proof (Z.mul_succ_div_gt (Z.of_nat p) zc Hzc). lia. }
    assert (Hacc' : acc' !! p
              = if bool_decide (b = true ∧ Z.of_nat p / zc = i0)
                then Some zero else acc !! p).
    { unfold acc'. destruct b.
      - rewrite fill_slice_lookup by lia.
        case_bool_decide as H1.
        + rewrite bool_decide_true by lia.
          rewrite bool_decide_true by (split; [done | by apply Hframe]). done.
        + rewrite bool_decide_false; [done|]. intros [_ H]. by apply H1, Hframe.
      - rewrite bool_decide_false; [done|]. intros [H _]. discriminate H. }
    rewrite Hacc'. clear Hacc' IH.
    destruct (decide (Z.of_nat p / zc = i0)) as [Heq|Hne].
    + rewrite (bool_decide_false (Z.succ i0 <= _ ∧ _)) by lia.
      rewrite Heq, Z.sub_diag. simpl.
      destruct b.
      * rewrite !bool_decide_true by done. done.
      * rewrite !bool_decide_false; [done | intros [_ H]; discriminate H
                                    | intros [H _]; discriminate H].
    + rewrite (bool_decide_false (b = true ∧ _)) by (intros [_ H]; done).
      destruct (decide (i0 <= Z.of_nat p / zc)) as [Hle|Hlt].
      * replace (Z.to_nat (Z.of_nat p / zc - i0))
          with (S (Z.to_nat (Z.of_nat p / zc - Z.succ i0))) by lia.
        simpl.
        case_bool_decide as H1; case_bool_decide as H2; try done; exfalso.
        -- apply H2. destruct H1 as [_ H1]. split; [lia | exact H1].
        -- apply H1. destruct H2 as [_ H2]. split; [lia | exact H2].
      * rewrite !bool_decide_false by lia. done.
Qed.

Lemma zero_frames_lookup zc mask l (p : nat) :
  0 < zc → (p < length l)%nat →
  zero_frames zero zc mask l !! p
  = if bool_decide (mask !! Z.to_nat (Z.of_nat p / zc) = Some true)
    then Some zero else l !! p.
Proof.
  intros Hzc Hp. unfold zero_frames.
  rewrite foldl_frames_lookup by lia.
  rewrite Z.sub_0_r.
  case_bool_decide as H1; case_bool_decide as H2; try done; exfalso.
  - apply H2. by destruct H1.
  - apply H1. split; [|done]. apply Z.div_pos; lia.
Qed.

Lemma gated_out zc threhold rms_buffer indata :
  0 < zc → Z.of_nat (length rms_buffer) = 4 * zc →
  ∃ rb,
    gated zero frames_below zc threhold rms_buffer indata
    = Ok (rb,
          drop (Z.to_nat (zc / 2))
            (zero_frames zero zc
               (frames_below (rms_buffer ++ indata) zc threhold)
               (drop (Z.to_nat (2 * zc - zc / 2)) (rms_buffer ++ indata)))).
Proof.
  intros Hzc Hrb. unfold gated.
  assert (Hhalf : 0 <= zc / 2 <= zc).
  { split; [apply Z.div_pos; lia | apply Z.div_le_upper_bound; lia]. }
  rewrite set_slice_all.
  2:{ unfold get_slice, slice_bounds. simpl. unfold adjust.
      destruct (Z.ltb_spec (- 4 * zc) 0); [|lia].
      rewrite length_take, length_drop, length_app. lia. }
  rewrite bind_Ok. eexists. f_equal. f_equal.
  rewrite (get_slice_from (rms_buffer ++ indata)) by (rewrite length_app; lia).
  rewrite get_slice_from; [reflexivity|].
  rewrite length_zero_frames, length_drop, length_app. lia.
Qed.

End Gate.

Lemma gated_lookup {A} (zero : A) (mask : list bool)
    (zc : Z) (rms_buffer indata : list A) (j : nat) :
  0 < zc → Z.of_nat (length rms_buffer) = 4 * zc →
  Z.of_nat j < Z.of_nat (length indata) + 2 * zc →
  drop (Z.to_nat (zc / 2))
    (zero_frames zero zc mask
       (drop (Z.to_nat (2 * zc - zc / 2)) (rms_buffer ++ indata))) !! j
  = if bool_decide (mask !! Z.to_nat ((Z.of_nat j + zc / 2) / zc) = Some true)
    then Some zero
    else (drop (Z.to_nat (2 * zc)) rms_buffer ++ indata) !! j.
Proof.
  intros Hzc Hrb Hj.
  assert (Hhalf : 0 <= zc / 2 <= zc).
  { split; [apply Z.div_pos; lia | apply Z.div_le_upper_bound; lia]. }
  rewrite lookup_drop.
  rewrite zero_frames_lookup
    by (try lia; rewrite length_drop, length_app; lia).
  replace (Z.of_nat (Z.to_nat (zc / 2) + j)) with (Z.of_nat j + zc / 2) by lia.
  case_bool_decide; [reflexivity|].
  rewrite lookup_drop.
  rewrite <- (drop_app_le rms_buffer indata) by lia.
  rewrite lookup_drop. f_equal. lia.
Qed.

Lemma length_gated_segment {A} (zero : A) (mask : list bool)
    (zc : Z) (rms_buffer indata : list A) :
  0 < zc → Z.of_nat (length rms_buffer) = 4 * zc →
  Z.of_nat (length (drop (Z.to_nat (zc / 2))
     (zero_frames zero zc mask
        (drop (Z.to_nat (2 * zc - zc / 2)) (rms_buffer ++ indata)))))
  = Z.of_nat (length indata) + 2 * zc.
Proof.
  intros Hzc Hrb.
  assert (Hhalf : 0 <= zc / 2 <= zc).
  { split; [apply Z.div_pos; lia | apply Z.div_le_upper_bound; lia]. }
  rewrite length_drop, NoiseGateFacts.length_zero_frames, length_drop,
    length_app. lia.
Qed.

(** X12: with the gate enabled, output sample [j] is silenced exactly
    when the mask flags frame [(j + zc//2) // zc]; otherwise it is sample
    [j] of the lookback's last [2·zc] samples followed by the raw block,
    unchanged. *)
Theorem gate_pointwise {A} (zero : A)
    (frames_below : list A → Z → Q → list bool)
    (zc : Z) (threhold : Q) (rms_buffer indata : list A) (j : nat) :
  0 < zc → Z.of_nat (length rms_buffer) = 4 * zc → (-60 < threhold)%Q →
  Z.of_nat j < Z.of_nat (length indata) + 2 * zc →
  ∃ rb out,
    noise_gate zero frames_below zc threhold rms_buffer indata = Ok (rb, out)
    ∧ out !! j
      = if bool_decide (frames_below (rms_buffer ++ indata) zc threhold
                          !! Z.to_nat ((Z.of_nat j + zc / 2) / zc) = Some true)
        then Some zero
        else (drop (Z.to_nat (2 * zc)) rms_buffer ++ indata) !! j.
Proof.
  intros Hzc Hrb Hth Hj.
  destruct (gated_out zero frames_below zc threhold rms_buffer indata Hzc Hrb)
    as [rb Hg].
  unfold noise_gate. rewrite decide_True by exact Hth.
  eexists _, _. split; [exact Hg|].
  by apply gated_lookup.
Qed.

Lemma gate_pointwise_witness :
  ∃ rb out,
    noise_gate 0 (λ _ _ _, [true; false; false]) 1 (-30 # 1)
               [1; 2; 3; 4] [5; 6] = Ok (rb, out)
    ∧ out !! 0%nat = Some 0 ∧ out !! 1%nat = Some 4.
Proof.
  destruct (gate_pointwise 0 (λ _ _ _, [true; false; false]) 1 (-30 # 1)
              [1; 2; 3; 4] [5; 6] 0) as (rb & out & H & H0);
    [lia | reflexivity | reflexivity | simpl; lia |].
  destruct (gate_pointwise 0 (λ _ _ _, [true; false; false]) 1 (-30 # 1)
              [1; 2; 3; 4] [5; 6] 1) as (rb' & out' & H' & H1);
    [lia | reflexivity | reflexivity | simpl; lia |].
  rewrite H in H'. injection H' as <- <-.
  exists rb, out. split; [exact H|]. split; [exact H0 | exact H1].
Defined.

(** X13: when no frame is below the threshold, the enabled gate passes
    the block exactly as it came, preceded by the last [2·zc] samples of
    the lookback. *)
Theorem gate_passes_loud_block {A} (zero : A)
    (frames_below : list A → Z → Q → list bool)
    (zc : Z) (threhold : Q) (rms_buffer indata : list A) :
  0 < zc → Z.of_nat (length rms_buffer) = 4 * zc → (-60 < threhold)%Q →
  (∀ k, frames_below (rms_buffer ++ indata) zc threhold !! k ≠ Some true) →
  ∃ rb,
    noise_gate zero frames_below zc threhold rms_buffer indata
    = Ok (rb, drop (Z.to_nat (2 * zc)) rms_buffer ++ indata).
Proof.
  intros Hzc Hrb Hth Hmask.
  destruct (gated_out zero frames_below zc threhold rms_buffer indata Hzc Hrb)
    as [rb Hg].
  exists rb. unfold noise_gate. rewrite decide_True by exact Hth.
  rewrite Hg. do 2 f_equal.
  apply list_eq. intros j.
  destruct (decide (Z.of_nat j < Z.of_nat (length indata) + 2 * zc)) as [Hj|Hj].
  - rewrite gated_lookup by done.
    rewrite bool_decide_false by apply Hmask. reflexivity.
  - pose proof (length_gated_segment zero
                  (frames_below (rms_buffer ++ indata) zc threhold)
                  zc rms_buffer indata Hzc Hrb) as Hlen.
    rewrite !lookup_ge_None_2; [done | |].
    + rewrite length_app, length_drop. lia.
    + lia.
Qed.

Lemma gate_passes_loud_block_witness :
  ∃ rb, noise_gate 0 (λ _ _ _, [false; false; false]) 1 (-30 # 1)
                   [1; 2; 3; 4] [5; 6] = Ok (rb, [3; 4; 5; 6]).
Proof.
  apply (gate_passes_loud_block 0 (λ _ _ _, [false; false; false]) 1 (-30 # 1)
           [1; 2; 3; 4] [5; 6]).
  - lia.
  - reflexivity.
  - reflexivity.
  - intros [|[|[|k]]]; discriminate.
Defined.

(** X14: when the mask flags every frame that the segment spans, every
    sample the enabled gate returns is zero. *)
Theorem gate_silences_quiet_block {A} (zero : A)
    (frames_below : list A → Z → Q → list bool)
    (zc : Z) (threhold : Q) (rms_buffer indata : list A) (m : nat) :
  0 < zc → Z.of_nat (length rms_buffer) = 4 * zc → (-60 < threhold)%Q →
  frames_below (rms_buffer ++ indata) zc threhold = replicate m true →
  Z.of_nat (length indata) + 2 * zc + zc / 2 <= Z.of_nat m * zc →
  ∃ rb,
    noise_gate zero frames_below zc threhold rms_buffer indata
    = Ok (rb, replicate (Z.to_nat (Z.of_nat (length indata) + 2 * zc)) zero).
Proof.
  intros Hzc Hrb Hth Hmask Hm.
  destruct (gated_out zero frames_below zc threhold rms_buffer indata Hzc Hrb)
    as [rb Hg].
  exists rb. unfold noise_gate. rewrite decide_True by exact Hth.
  rewrite Hg. do 2 f_equal.
  apply list_eq. intros j.
  destruct (decide (Z.of_nat j < Z.of_nat (length indata) + 2 * zc)) as [Hj|Hj].
  - rewrite gated_lookup by done. rewrite Hmask.
    rewrite bool_decide_true.
    + symmetry. apply lookup_replicate_2. lia.
    + apply lookup_replicate_2.
      assert ((Z.of_nat j + zc / 2) / zc < Z.of_nat m).
      { apply Z.div_lt_upper_bound; lia. }
      assert (0 <= (Z.of_nat j + zc / 2) / zc).
      { apply Z.div_pos; [|lia].
        assert (0 <= zc / 2) by (apply Z.div_pos; lia). lia. }
      lia.
  - pose proof (length_gated_segment zero
                  (frames_below (rms_buffer ++ indata) zc threhold)
                  zc rms_buffer indata Hzc Hrb) as Hlen.
    rewrite !lookup_ge_None_2; [done | |].
    + rewrite length_replicate. lia.
    + lia.
Qed.

Lemma gate_silences_quiet_block_witness :
  ∃ rb, noise_gate 0 (λ _ _ _, replicate 4 true) 1 (-30 # 1)
                   [1; 2; 3; 4] [5; 6] = Ok (rb, [0; 0; 0; 0]).
Proof.
  apply (gate_silences_quiet_block 0 (λ _ _ _, replicate 4 true) 1 (-30 # 1)
           [1; 2; 3; 4] [5; 6] 4).
  - lia.
  - reflexivity.
  - reflexivity.
  - reflexivity.
  - vm_compute. discriminate.
Defined.

End NoiseGateExtra.

Module HarvestExtra.
Import Harvest HarvestLoop HarvestFacts.

Section Worker.
Context {Sig F0 Tok : Type} (harvest : Sig → F0).
Implicit Types (j : @job Sig Tok) (s : @shared F0 Tok)
  (jobs l : list (@job Sig Tok)).

Lemma drain_snoc l j s :
  drain harvest (l ++ [j]) s = process_job harvest j (drain harvest l s).
Proof. unfold drain. rewrite foldl_app. reflexivity. Qed.

Lemma dict_of_process j s :
  dict_of (process_job harvest j s) (res_f0 j)
  = <[idx j := harvest (x j)]> (dict_of s (res_f0 j)).
Proof. unfold process_job. rewrite dict_of_signal. apply dict_of_write. Qed.

Lemma dict_of_process_other j s r :
  r ≠ res_f0 j → dict_of (process_job harvest j s) r = dict_of s r.
Proof.
  intros Hr. unfold process_job. rewrite dict_of_signal.
  unfold dict_of, write_result. simpl. by rewrite lookup_insert_ne.
Qed.

Lemma opt_q_process j s :
  opt_q (process_job harvest j s)
  = if decide (n_cpu j
               ≤ Z.of_nat (size (<[idx j := harvest (x j)]> (dict_of s (res_f0 j)))))
    then opt_q s ++ [ts j] else opt_q s.
Proof.
  unfold process_job, signal_if_complete. rewrite dict_of_write.
  case_decide; reflexivity.
Qed.

(** A worker alone, part-way through a batch on a fresh map: nothing is
    signalled and the map holds the results of the jobs done. *)
Lemma drain_partial (r : nat) (N : Z) l s :
  NoDup (idx <$> l) →
  (∀ j, j ∈ l → res_f0 j = r ∧ n_cpu j = N) →
  Z.of_nat (length l) < N → dict_of s r = ∅ →
  opt_q (drain harvest l s) = opt_q s
  ∧ dom (dict_of (drain harvest l s) r) = list_to_set (idx <$> l)
  ∧ ∀ j, j ∈ l → dict_of (drain harvest l s) r !! idx j = Some (harvest (x j)).
Proof.
  induction l as [|j l IH] using rev_ind; intros Hnd Hjobs Hlen Hd.
  - unfold drain. simpl. rewrite Hd, dom_empty_L.
    split; [reflexivity|]. split; [reflexivity|].
    intros j Hj. by apply elem_of_nil in Hj.
  - rewrite fmap_app in Hnd. apply NoDup_app in Hnd as (Hnd & Hfresh & _).
    rewrite length_app in Hlen. simpl in Hlen.
    destruct IH as (Hq & Hdom & Hres); [done | | lia | done |].
    { intros j' Hj'. apply Hjobs. apply elem_of_app. by left. }
    destruct (Hjobs j) as [Hr Hn]; [apply elem_of_app; right; by apply list_elem_of_singleton|].
    assert (Hnew : idx j ∉ dom (dict_of (drain harvest l s) r)).
    { rewrite Hdom. intros Hin%elem_of_list_to_set.
      apply (Hfresh _ Hin). simpl. apply list_elem_of_here. }
    rewrite drain_snoc.
    assert (Hdict : dict_of (process_job harvest j (drain harvest l s)) r
                    = <[idx j := harvest (x j)]> (dict_of (drain harvest l s) r)).
    { rewrite <- Hr. apply dict_of_process. }
    split; [|split].
    + rewrite opt_q_process, Hr.
      rewrite map_size_insert_None by (by apply not_elem_of_dom).
      rewrite <- size_dom, Hdom, size_list_to_set, length_fmap by done.
      rewrite decide_False by lia. exact Hq.
    + rewrite Hdict, dom_insert_L, Hdom, fmap_app, list_to_set_app_L. simpl.
      rewrite union_empty_r_L. apply (comm_L (∪)).
    + intros j' Hj'. rewrite Hdict.
      apply elem_of_app in Hj' as [Hj'|Hj'%list_elem_of_singleton].
      * rewrite lookup_insert_ne; [by apply Hres|].
        intros Heq. apply Hnew. rewrite Heq.
        apply elem_of_dom. rewrite (Hres _ Hj'). by eexists.
      * subst j'. apply lookup_insert_eq.
Qed.

End Worker.

(** X15: one worker taking the jobs of a batch in turn, on a fresh map,
    signals completion exactly once, after the last job, and every job's
    result is then in the map. *)
Theorem drain_signals_once {Sig F0 Tok : Type} (harvest : Sig → F0)
    (l : list (@job Sig Tok)) (j : @job Sig Tok) (r : nat)
    (s : @shared F0 Tok) :
  NoDup (idx <$> (l ++ [j])) →
  (∀ j', j' ∈ l ++ [j] →
         res_f0 j' = r ∧ n_cpu j' = Z.of_nat (length (l ++ [j]))) →
  dict_of s r = ∅ →
  opt_q (drain harvest (l ++ [j]) s) = opt_q s ++ [ts j]
  ∧ ∀ j', j' ∈ l ++ [j] →
          dict_of (drain harvest (l ++ [j]) s) r !! idx j'
          = Some (harvest (x j')).
Proof.
  intros Hnd Hjobs Hd.
  assert (Hlen : length (l ++ [j]) = S (length l))
    by (rewrite length_app; simpl; lia).
  pose proof Hnd as Hnd'.
  rewrite fmap_app in Hnd'. apply NoDup_app in Hnd' as (Hndl & Hfresh & _).
  destruct (drain_partial harvest r (Z.of_nat (length (l ++ [j]))) l s)
    as (Hq & Hdom & Hres); [done | | lia | done |].
  { intros j' Hj'. apply Hjobs. apply elem_of_app. by left. }
  destruct (Hjobs j) as [Hr Hn];
    [apply elem_of_app; right; by apply list_elem_of_singleton|].
  assert (Hnew : idx j ∉ dom (dict_of (drain harvest l s) r)).
  { rewrite Hdom. intros Hin%elem_of_list_to_set.
    apply (Hfresh _ Hin). simpl. apply list_elem_of_here. }
  rewrite drain_snoc.
  assert (Hdict : dict_of (process_job harvest j (drain harvest l s)) r
                  = <[idx j := harvest (x j)]> (dict_of (drain harvest l s) r)).
  { rewrite <- Hr. apply dict_of_process. }
  split.
  - rewrite opt_q_process, Hr.
    rewrite map_size_insert_None by (by apply not_elem_of_dom).
    rewrite <- size_dom, Hdom, size_list_to_set, length_fmap by done.
    rewrite decide_True by lia. by rewrite Hq.
  - intros j' Hj'. rewrite Hdict.
    apply elem_of_app in Hj' as [Hj'|Hj'%list_elem_of_singleton].
    + rewrite lookup_insert_ne; [by apply Hres|].
      intros Heq. apply Hnew. rewrite Heq.
      apply elem_of_dom. rewrite (Hres _ Hj'). by eexists.
    + subst j'. apply lookup_insert_eq.
Qed.

Lemma drain_signals_once_witness :
  let j0 := {| idx := 0; x := 10%nat; res_f0 := 7%nat; n_cpu := 2; ts := 98%nat |} in
  let j1 := {| idx := 1; x := 20%nat; res_f0 := 7%nat; n_cpu := 2; ts := 99%nat |} in
  opt_q (drain S ([j0] ++ [j1])
           {| dicts := (∅ : gmap nat (gmap Z nat)); opt_q := [] |})
  = [99%nat].
Proof.
  intros j0 j1.
  refine (proj1 (drain_signals_once S [j0] j1 7
                   {| dicts := ∅; opt_q := [] |} _ _ _)).
  - apply NoDup_cons. split; [|apply NoDup_singleton].
    intros H%list_elem_of_singleton. discriminate H.
  - intros j' [->|[->|[]%elem_of_nil]%elem_of_cons]%elem_of_cons; done.
  - reflexivity.
Defined.

(** X16: a result map that still holds at least [n_cpu] entries of an
    earlier batch makes every job of the next batch signal completion: one
    worker taking [k] such jobs puts [k] tokens, the first one after the
    first job. *)
Theorem drain_on_stale_map {Sig F0 Tok : Type} (harvest : Sig → F0)
    (jobs : list (@job Sig Tok)) (r : nat) (N : Z) (s : @shared F0 Tok) :
  (∀ j, j ∈ jobs → res_f0 j = r ∧ n_cpu j = N) →
  N ≤ Z.of_nat (size (dict_of s r)) →
  opt_q (drain harvest jobs s) = opt_q s ++ (ts <$> jobs).
Proof.
  revert s. induction jobs as [|j jobs IH]; intros s Hjobs Hsize.
  - simpl. by rewrite app_nil_r.
  - destruct (Hjobs j) as [Hr Hn]; [apply list_elem_of_here|].
    assert (Hgrow : (size (dict_of s r)
                     ≤ size (<[idx j := harvest (x j)]> (dict_of s r)))%nat).
    { destruct (dict_of s r !! idx j) eqn:E.
      - rewrite map_size_insert_Some by done. lia.
      - rewrite map_size_insert_None by done. lia. }
    change (drain harvest (j :: jobs) s)
      with (drain harvest jobs (process_job harvest j s)).
    rewrite IH.
    + rewrite opt_q_process, Hr, Hn. simpl.
      rewrite decide_True by lia. rewrite <- app_assoc. reflexivity.
    + intros j' Hj'. apply Hjobs. by apply list_elem_of_further.
    + rewrite <- Hr at 1. rewrite dict_of_process, Hr. lia.
Qed.

Lemma drain_on_stale_map_witness :
  let j0 := {| idx := 0; x := 10%nat; res_f0 := 7%nat; n_cpu := 2; ts := 98%nat |} in
  let j1 := {| idx := 1; x := 20%nat; res_f0 := 7%nat; n_cpu := 2; ts := 99%nat |} in
  let stale := {| dicts := {[ 7%nat := {[ 0 := 3%nat; 1 := 4%nat ]} ]};
                  opt_q := [] |} in
  opt_q (drain S [j0; j1] stale) = [98%nat; 99%nat].
Proof.
  intros j0 j1 stale.
  apply (drain_on_stale_map S [j0; j1] 7 2 stale).
  - intros j' [->|[->|[]%elem_of_nil]%elem_of_cons]%elem_of_cons; done.
  - vm_compute. discriminate.
Defined.

(** X17: in the pool, two workers that both write before either counts
    both find the map complete: a batch of two jobs on a fresh map can
    put two completion tokens on the output queue. *)
Theorem pool_can_signal_twice {Sig F0 Tok : Type} (harvest : Sig → F0)
    (j0 j1 : @job Sig Tok) (s0 : @shared F0 Tok) :
  res_f0 j1 = res_f0 j0 → idx j0 ≠ idx j1 →
  n_cpu j0 = 2 → n_cpu j1 = 2 → dict_of s0 (res_f0 j0) = ∅ →
  ∃ p, steps harvest (batch_start [j0; j1] 2 s0) p
       ∧ opt_q (mem p) = opt_q s0 ++ [ts j0; ts j1].
Proof.
  intros Hr Hidx Hn0 Hn1 Hd.
  set (s2 := write_result j1 (harvest (x j1))
               (write_result j0 (harvest (x j0)) s0)).
  assert (Hsize : size (dict_of s2 (res_f0 j0)) = 2%nat).
  { unfold s2. rewrite <- Hr at 1. rewrite dict_of_write, Hr, dict_of_write, Hd.
    rewrite map_size_insert_None
      by (rewrite lookup_insert_ne by done; apply lookup_empty).
    rewrite map_size_insert_None by apply lookup_empty.
    rewrite map_size_empty. reflexivity. }
  exists {| inp_q := []; workers := [Waiting; Waiting];
            mem := signal_if_complete j1 (signal_if_complete j0 s2) |}.
  split.
  - unfold batch_start. simpl.
    eapply steps_head; [eapply (step_get harvest 0%nat); reflexivity|]. simpl.
    eapply steps_head; [eapply (step_get harvest 1%nat); reflexivity|]. simpl.
    eapply steps_head; [eapply (step_write harvest 0%nat); reflexivity|]. simpl.
    eapply steps_head; [eapply (step_write harvest 1%nat); reflexivity|]. simpl.
    eapply steps_head; [eapply (step_check harvest 0%nat); reflexivity|]. simpl.
    eapply steps_head; [eapply (step_check harvest 1%nat); reflexivity|]. simpl.
    apply steps_refl.
  - simpl.
    assert (H0 : signal_if_complete j0 s2
                 = {| dicts := dicts s2; opt_q := opt_q s2 ++ [ts j0] |}).
    { unfold signal_if_complete. rewrite Hsize, decide_True by lia. reflexivity. }
    rewrite H0. unfold signal_if_complete at 1.
    rewrite decide_True.
    + simpl. rewrite <- app_assoc. reflexivity.
    + rewrite Hr. change (dict_of _ (res_f0 j0)) with (dict_of s2 (res_f0 j0)).
      rewrite Hsize. lia.
Qed.

Lemma pool_can_signal_twice_witness :
  let j0 := {| idx := 0; x := 10%nat; res_f0 := 7%nat; n_cpu := 2; ts := 98%nat |} in
  let j1 := {| idx := 1; x := 20%nat; res_f0 := 7%nat; n_cpu := 2; ts := 99%nat |} in
  let s0 := {| dicts := (∅ : gmap nat (gmap Z nat)); opt_q := [] |} in
  ∃ p, steps S (batch_start [j0; j1] 2 s0) p
       ∧ opt_q (mem p) = [98%nat; 99%nat].
Proof.
  intros j0 j1 s0.
  apply (pool_can_signal_twice S j0 j1 s0); try reflexivity.
  discriminate.
Defined.

(** X18: processing a job touches nothing but its own entry: every other
    result map is as before, every other key of the job's map keeps its
    value, and the tokens already on the output queue stay in front. *)
Theorem process_job_frame {Sig F0 Tok : Type} (harvest : Sig → F0)
    (j : @job Sig Tok) (s : @shared F0 Tok) :
  (∀ r, r ≠ res_f0 j → dict_of (process_job harvest j s) r = dict_of s r)
  ∧ (∀ k, k ≠ idx j →
          dict_of (process_job harvest j s) (res_f0 j) !! k
          = dict_of s (res_f0 j) !! k)
  ∧ dict_of (process_job harvest j s) (res_f0 j) !! idx j = Some (harvest (x j))
  ∧ opt_q s `prefix_of` opt_q (process_job harvest j s).
Proof.
  split; [|split; [|split]].
  - intros r Hr. by apply dict_of_process_other.
  - intros k Hk. rewrite dict_of_process. by rewrite lookup_insert_ne.
  - rewrite dict_of_process. apply lookup_insert_eq.
  - rewrite opt_q_process. case_decide; [by apply prefix_app_r | done].
Qed.

End HarvestExtra.

Module EventsExtra.
Import Session Events EventsInv Startup PyFacts EventsFacts.

(** X19: pressing "Start" while the stream is running changes nothing:
    no value is read, no engine is built, no second stream is opened. *)
Theorem start_ignored_when_running (e : env) (values : gmap string pyval)
    (st : state) :
  flag_vc st = true →
  handle e (Some "start_vc"%string) values st = Ok (Continue st).
Proof.
  intros H. unfold handle. simpl. rewrite H. reflexivity.
Qed.

Lemma start_ignored_when_running_witness :
  handle quiet_env (Some "start_vc"%string) start_values running_defaults
  = Ok (Continue running_defaults).
Proof. apply start_ignored_when_running. reflexivity. Defined.

Lemma not_handled ev :
  ev ∉ handled_events →
  ev ≠ "reload_devices"%string ∧ ev ≠ "sg_hostapi"%string
  ∧ ev ≠ "start_vc"%string ∧ ev ≠ "threhold"%string ∧ ev ≠ "pitch"%string
  ∧ ev ≠ "formant"%string ∧ ev ≠ "index_rate"%string
  ∧ ev ≠ "rms_mix_rate"%string ∧ (ev ∉ f0methods)
  ∧ ev ≠ "I_noise_reduce"%string ∧ ev ≠ "O_noise_reduce"%string
  ∧ ev ≠ "use_pv"%string ∧ (ev ∉ ["vc"; "im"]%string).
Proof.
  unfold handled_events, f0methods. rewrite !elem_of_cons, !elem_of_nil.
  intros H. repeat split; intros E; apply H; tauto.
Qed.

(** X20: an event the loop has no branch for (a moved block-time slider,
    a changed device, "Stop") stops the stream: the running flag is
    cleared and the stream released, and nothing else changes. *)
Theorem other_event_stops_stream (e : env) (ev : string)
    (values : gmap string pyval) (st : state) :
  ev ∉ handled_events →
  handle e (Some ev) values st = Ok (Continue (stop_stream st))
  ∧ flag_vc (stop_stream st) = false
  ∧ (flag_vc st = true → stream (stop_stream st) = false)
  ∧ gui_config (stop_stream st) = gui_config st
  ∧ session (stop_stream st) = session st.
Proof.
  intros (H1 & H2 & H3 & H4 & H5 & H6 & H7 & H8 & H9 & H10 & H11 & H12 & H13)
    %not_handled.
  assert (Hhot : hot_update ev values st = Ok (stop_stream st)).
  { unfold hot_update.
    rewrite !decide_False by done.
    rewrite !(bool_decide_false (ev ∈ _)) by done.
    rewrite (bool_decide_false (ev = "start_vc"%string)) by done.
    rewrite orb_true_r. reflexivity. }
  split; [|split; [apply stop_stream_flag|]].
  - unfold handle.
    rewrite (bool_decide_false (ev = "reload_devices"%string)) by done.
    rewrite (bool_decide_false (ev = "sg_hostapi"%string)) by done.
    simpl. rewrite ?bind_Ok.
    rewrite (bool_decide_false (ev = "start_vc"%string)) by done.
    simpl. rewrite ?bind_Ok, Hhot. reflexivity.
  - unfold stop_stream. destruct (flag_vc st); [|done].
    simpl. destruct (stream st) eqn:Es; simpl; [done|].
    split; [intros _; exact Es | done].
Qed.

Lemma other_event_stops_stream_witness :
  handle quiet_env (Some "block_time"%string) threshold_moved running_defaults
  = Ok (Continue (stop_stream running_defaults)).
Proof.
  apply other_event_stops_stream.
  unfold handled_events. rewrite !elem_of_cons, elem_of_nil.
  intros H. repeat destruct H as [H|H]; first [discriminate H | exact H].
Defined.

(** X21: "Start" with a blank or non-ASCII model or index path is
    refused before anything is assigned: the program stays idle and its
    state is unchanged. *)
Theorem bad_path_refused (e : env) (values : gmap string pyval) (st : state)
    (pth idx : string) :
  flag_vc st = false →
  values !! "pth_path"%string = Some (VStr pth) →
  values !! "index_path"%string = Some (VStr idx) →
  blank pth || blank idx || has_non_ascii pth || has_non_ascii idx = true →
  handle e (Some "start_vc"%string) values st = Ok (Continue st).
Proof.
  intros Hf Hp Hi Hbad.
  assert (Hsv : set_values values st = Ok (false, st)).
  { unfold set_values, getitem. rewrite Hp. simpl.
    destruct (blank pth); [reflexivity|].
    rewrite Hi. simpl.
    destruct (blank idx); [reflexivity|].
    destruct (has_non_ascii pth); [reflexivity|].
    destruct (has_non_ascii idx); [reflexivity | discriminate Hbad]. }
  unfold handle. simpl. rewrite Hf. simpl. rewrite Hsv. reflexivity.
Qed.

Lemma bad_path_refused_witness :
  handle slow_env (Some "start_vc"%string)
         (<["pth_path" := VStr "  "]> start_values) idle_defaults
  = Ok (Continue idle_defaults).
Proof.
  apply (bad_path_refused _ _ _ "  " "voice.index"); reflexivity.
Defined.

(** *** What each part of a turn leaves alone *)

Lemma keys_disjoint (l1 l2 : list string) :
  bool_decide (Forall (λ k, k ∉ l2) l1) = true → ∀ k, k ∈ l1 → k ∉ l2.
Proof.
  intros H%bool_decide_eq_true k Hk.
  by apply (proj1 (Forall_forall _ _) H).
Qed.

Lemma same_but_devices_refl st : same_but_devices st st.
Proof. by repeat split. Qed.

Lemma same_but_devices_trans st1 st2 st3 :
  same_but_devices st1 st2 → same_but_devices st2 st3 →
  same_but_devices st1 st3.
Proof.
  intros (A1 & A2 & A3 & A4 & A5) (B1 & B2 & B3 & B4 & B5).
  repeat split; try congruence.
  intros k Hk. rewrite B5, A5; done.
Qed.

Lemma same_but_devices_setattr k v st :
  k ∈ device_keys → same_but_devices st (setattr k v st).
Proof.
  intros Hk. repeat split. intros k' Hk'.
  apply config_setattr_ne. intros <-. done.
Qed.

Lemma reload_devices_frame e values st st' :
  reload_devices e values st = Ok st' → same_but_devices st st'.
Proof.
  unfold reload_devices. intros H.
  assert (K1 : "sg_hostapi"%string ∈ device_keys) by (compute; repeat constructor).
  assert (K2 : "sg_input_device"%string ∈ device_keys) by (compute; repeat constructor).
  assert (K3 : "sg_output_device"%string ∈ device_keys) by (compute; repeat constructor).
  inv_bind H. inv_bind H.
  assert (F0 : same_but_devices st a0).
  { unfold update_devices in Ha0. inv_bind Ha0. apply Ok_inj in Ha0. subst a0.
    repeat split. intros k Hk. apply (config_setattr_ne "sg_hostapi").
    intros <-. done. }
  inv_bind H.
  assert (F1 : same_but_devices a0 a1).
  { destruct (in_strs a (hostapis a0)).
    - apply Ok_inj in Ha1. subst. apply same_but_devices_refl.
    - inv_bind Ha1. apply Ok_inj in Ha1. subst.
      by apply same_but_devices_setattr. }
  inv_bind H. inv_bind H.
  assert (F3 : same_but_devices a1 a3).
  { destruct (negb _ && _).
    - inv_bind Ha3. apply Ok_inj in Ha3. subst.
      by apply same_but_devices_setattr.
    - apply Ok_inj in Ha3. subst. apply same_but_devices_refl. }
  inv_bind H.
  assert (F5 : same_but_devices a3 st').
  { destruct (negb (in_strs a4 _)).
    - inv_bind H. apply Ok_inj in H. subst.
      by apply same_but_devices_setattr.
    - apply Ok_inj in H. subst. apply same_but_devices_refl. }
  eauto using same_but_devices_trans.
Qed.

Lemma assign_values_true values st b st' :
  assign_values values st = Ok (b, st') → b = true.
Proof.
  unfold assign_values. intros H.
  repeat inv_bind H. apply Ok_inj in H. by injection H as <- _.
Qed.

Lemma set_values_false values st st' :
  set_values values st = Ok (false, st') → st' = st.
Proof.
  unfold set_values. intros H. inv_bind H.
  destruct (blank a); [apply Ok_inj in H; by injection H as <-|].
  inv_bind H.
  destruct (blank a0); [apply Ok_inj in H; by injection H as <-|].
  destruct (has_non_ascii a); [apply Ok_inj in H; by injection H as <-|].
  destruct (has_non_ascii a0); [apply Ok_inj in H; by injection H as <-|].
  apply assign_values_true in H. discriminate H.
Qed.

Lemma config_start_stream st : gui_config (start_stream st) = gui_config st.
Proof. unfold start_stream. by destruct (flag_vc st). Qed.

Lemma rvc_start_stream st : rvc (start_stream st) = rvc st.
Proof. unfold start_stream. by destruct (flag_vc st). Qed.

Lemma session_start_stream st : session (start_stream st) = session st.
Proof. unfold start_stream. by destruct (flag_vc st). Qed.

Lemma start_vc_result e st st' :
  start_vc e st = Ok st' → engine_in_sync st' ∧ session_coherent st'.
Proof.
  unfold start_vc. intros H.
  inv_bind H. inv_bind H. inv_bind H. inv_bind H. inv_bind H. inv_bind H.
  inv_bind H. inv_bind H. inv_bind H. inv_bind H. inv_bind H.
  apply Ok_inj in H. subst st'.
  unfold getattr in *.
  repeat match goal with
         | H : match ?o with Some _ => _ | None => _ end = Ok _ |- _ =>
             destruct o eqn:?; [apply Ok_inj in H; subst | discriminate H]
         | H : (match ?o with Some _ => _ | None => _ end ≫= _) = Ok _ |- _ =>
             destruct o eqn:?; [rewrite bind_Ok in H | discriminate H]
         end.
  split.
  - intros r Hr. rewrite rvc_start_stream in Hr. simpl in Hr.
    injection Hr as <-. rewrite config_start_stream. simpl.
    rewrite !lookup_insert_ne by done. done.
  - intros fb Hfb. rewrite session_start_stream in Hfb. simpl in Hfb.
    injection Hfb as <-. rewrite config_start_stream. simpl.
    rewrite !(lookup_insert_ne _ "channels") by done.
    rewrite !(lookup_insert_ne _ "samplerate") by done.
    rewrite lookup_insert_eq.
    eexists _, _, _, _, _, _, _. repeat split; eassumption.
Qed.

Lemma hot_update_any ev values st st' :
  hot_update ev values st = Ok st' →
  session st' = session st
  ∧ (∀ k, k ∉ hot_updated → gui_config st' !! k = gui_config st !! k)
  ∧ (engine_in_sync st → engine_in_sync st').
Proof.
  unfold hot_update. intros H.
  assert (Hsync : ∀ k v, k ∉ ["pitch"; "formant"; "index_rate"]%string →
            engine_in_sync st → engine_in_sync (setattr k v st)).
  { intros k v Hk Hs r Hr. destruct (Hs r Hr) as (A & B & C).
    rewrite !elem_of_cons, elem_of_nil in Hk.
    rewrite !config_setattr_ne by (intros ->; tauto). done. }
  assert (Hstop : engine_in_sync st → engine_in_sync (stop_stream st)).
  { unfold stop_stream. destruct (flag_vc st); [|done].
    simpl. by destruct (stream st). }
  repeat
    (match type of H with
     | (if decide ?P then _ else _) = _ => destruct (decide P) as [_|_]
     | (if ?b then _ else _) = _ => destruct b
     end;
     [ try inv_bind H; apply Ok_inj in H; subst st';
       (split;
        [first [reflexivity | apply session_stop_stream]|]);
       split;
       [ intros k Hk;
         first
           [ reflexivity
           | rewrite config_stop_stream; reflexivity
           | apply config_setattr_ne; intros <-;
             apply Hk, hot_updated_spec; tauto ]
       | first
           [ apply Hstop
           | apply Hsync; rewrite !elem_of_cons, elem_of_nil;
             intros Hk; repeat destruct Hk as [Hk|Hk];
             first [discriminate Hk | exact Hk]
           | done
           | intros Hs r Hr; simpl in Hr;
             destruct (rvc st) as [r0|] eqn:E; [|discriminate Hr];
             simpl in Hr; injection Hr as <-;
             destruct (Hs r0 E) as (A & B & C); simpl;
             rewrite ?lookup_insert_eq, ?lookup_insert_ne by done; done ] ]
     | ]).
  apply Ok_inj in H. subst st'. done.
Qed.

(** X22: the engine never lags behind the sliders: after every turn of
    the loop that returns, the pitch, formant and index rate held by the
    inference engine are those of the configuration. *)
Theorem engine_stays_in_sync (e : env) (ev : option string)
    (values : gmap string pyval) (st st' : state) :
  engine_in_sync st →
  handle e ev values st = Ok (Continue st') →
  engine_in_sync st'.
Proof.
  intros Hs H. destruct ev as [ev|]; [|discriminate H]. simpl in H.
  inv_bind H. inv_bind H. inv_bind H. apply Ok_inj in H. injection H as ->.
  assert (S1 : engine_in_sync a).
  { destruct (_ || _).
    - apply reload_devices_frame in Ha as (R1 & _ & _ & _ & R5).
      intros r Hr. rewrite R1 in Hr. destruct (Hs r Hr) as (A & B & C).
      rewrite !R5; [done | | |];
        (apply (keys_disjoint ["pitch"; "formant"; "index_rate"]%string);
         [reflexivity | rewrite !elem_of_cons; tauto]).
    - apply Ok_inj in Ha. by subst. }
  assert (S2 : engine_in_sync a0).
  { destruct (_ && _).
    - apply bind_Ok_inv in Ha0 as ([[] st2] & Hsv & Ha0); simpl in Ha0.
      + by apply start_vc_result in Ha0 as [? _].
      + apply Ok_inj in Ha0. subst a0.
        apply set_values_false in Hsv. by subst.
    - apply Ok_inj in Ha0. by subst. }
  apply hot_update_any in Ha1 as (_ & _ & Hk). by apply Hk.
Qed.

Lemma engine_stays_in_sync_witness :
  ∃ st', handle slow_env (Some "start_vc"%string) start_values idle_defaults
         = Ok (Continue st')
         ∧ engine_in_sync st'.
Proof.
  eexists. split; [vm_compute; reflexivity|].
  eapply (engine_stays_in_sync slow_env (Some "start_vc"%string)
            start_values idle_defaults).
  - intros r Hr. discriminate Hr.
  - vm_compute. reflexivity.
Defined.

(** X23: the buffers in use are always those of the configuration:
    after every turn of the loop that returns, a session that exists has
    exactly the frame sizes and buffers that the configured block,
    crossfade and extra times and the stored sample rate give. *)
Theorem session_stays_coherent (e : env) (ev : option string)
    (values : gmap string pyval) (st st' : state) :
  session_coherent st →
  handle e ev values st = Ok (Continue st') →
  session_coherent st'.
Proof.
  intros Hs H. destruct ev as [ev|]; [|discriminate H]. simpl in H.
  inv_bind H. inv_bind H. inv_bind H. apply Ok_inj in H. injection H as ->.
  assert (Hkeep : ∀ st1 st2, session_coherent st1 →
            session st2 = session st1 →
            (∀ k, k ∈ ["block_time"; "crossfade_time"; "extra_time";
                       "samplerate"]%string →
                  gui_config st2 !! k = gui_config st1 !! k) →
            session_coherent st2).
  { intros st1 st2 Hc Hse Hk fb Hfb. rewrite Hse in Hfb.
    destruct (Hc fb Hfb) as (vb & vc & ve & bt & ct & et & sr & A).
    exists vb, vc, ve, bt, ct, et, sr.
    rewrite !Hk by (rewrite !elem_of_cons; tauto). exact A. }
  assert (S1 : session_coherent a).
  { destruct (_ || _).
    - apply reload_devices_frame in Ha as (_ & R2 & _ & _ & R5).
      apply (Hkeep st); [done | done |].
      intros k Hk. apply R5. revert k Hk.
      apply keys_disjoint. reflexivity.
    - apply Ok_inj in Ha. by subst. }
  assert (S2 : session_coherent a0).
  { destruct (_ && _).
    - apply bind_Ok_inv in Ha0 as ([[] st2] & Hsv & Ha0); simpl in Ha0.
      + by apply start_vc_result in Ha0 as [_ ?].
      + apply Ok_inj in Ha0. subst a0.
        apply set_values_false in Hsv. by subst.
    - apply Ok_inj in Ha0. by subst. }
  apply hot_update_any in Ha1 as (Hse & Hk & _).
  apply (Hkeep a0); [done | done |].
  intros k Hin. apply Hk. revert k Hin.
  apply keys_disjoint. reflexivity.
Qed.

Lemma session_stays_coherent_witness :
  ∃ st', handle slow_env (Some "start_vc"%string) start_values idle_defaults
         = Ok (Continue st')
         ∧ session_coherent st'.
Proof.
  eexists. split; [vm_compute; reflexivity|].
  eapply (session_stays_coherent slow_env (Some "start_vc"%string)
            start_values idle_defaults).
  - intros fb Hfb. discriminate Hfb.
  - vm_compute. reflexivity.
Defined.

Lemma reload_event_hot_update ev values st :
  ev = "reload_devices"%string ∨ ev = "sg_hostapi"%string →
  hot_update ev values st = Ok (stop_stream st).
Proof. intros [-> | ->]; reflexivity. Qed.

Lemma reload_devices_closes e values st st' :
  reload_devices e values st = Ok st' → stream_open st' = false.
Proof.
  unfold reload_devices. intros H.
  inv_bind H. inv_bind H.
  assert (H0 : stream_open a0 = false).
  { unfold update_devices in Ha0. inv_bind Ha0.
    apply Ok_inj in Ha0. by subst a0. }
  inv_bind H. inv_bind H. inv_bind H. inv_bind H.
  assert (H1 : stream_open a1 = false).
  { destruct (in_strs a (hostapis a0)).
    - apply Ok_inj in Ha1. by subst.
    - inv_bind Ha1. apply Ok_inj in Ha1. by subst. }
  assert (H3 : stream_open a3 = false).
  { destruct (negb _ && _).
    - inv_bind Ha3. apply Ok_inj in Ha3. by subst.
    - apply Ok_inj in Ha3. by subst. }
  destruct (negb (in_strs a4 _)).
  - inv_bind H. apply Ok_inj in H. by subst.
  - apply Ok_inj in H. by subst.
Qed.

(** X24: reloading the device list while a stream is held terminates
    PortAudio, which closes the stream, and clears the running flag, but
    it never goes through [stop_stream]: the turn ends with the flag
    off, the stream closed, and [self.stream] still holding the closed
    stream object, not [None]; the session buffers are as they were. *)
Theorem reload_leaves_stale_stream (e : env) (ev : string)
    (values : gmap string pyval) (st st' : state) :
  ev = "reload_devices"%string ∨ ev = "sg_hostapi"%string →
  stream st = true →
  handle e (Some ev) values st = Ok (Continue st') →
  flag_vc st' = false ∧ stream_open st' = false ∧ stream st' = true
  ∧ session st' = session st.
Proof.
  intros Hev Hstream H. simpl in H.
  inv_bind H. inv_bind H. inv_bind H. apply Ok_inj in H. injection H as ->.
  assert (Hb : bool_decide (ev = "reload_devices"%string)
               || bool_decide (ev = "sg_hostapi"%string) = true).
  { destruct Hev as [-> | ->]; reflexivity. }
  rewrite Hb in Ha.
  assert (Hns : bool_decide (ev = "start_vc"%string) = false).
  { destruct Hev as [-> | ->]; reflexivity. }
  rewrite Hns in Ha0. simpl in Ha0. apply Ok_inj in Ha0. subst a0.
  rewrite (reload_event_hot_update _ _ _ Hev) in Ha1.
  apply Ok_inj in Ha1. subst st'.
  pose proof (reload_devices_flag _ _ _ _ Ha) as Hflag.
  pose proof (reload_devices_closes _ _ _ _ Ha) as Hclosed.
  apply reload_devices_frame in Ha as (_ & R2 & R3 & _).
  unfold stop_stream. rewrite Hflag. rewrite R3, R2. done.
Qed.

Lemma reload_leaves_stale_stream_witness :
  ∃ st', handle quiet_env (Some "reload_devices"%string)
                (<["sg_hostapi" := VStr "MME"]> ∅)
                (setattr "sg_output_device" (VStr "speakers")
                   (setattr "sg_input_device" (VStr "mic") running_defaults))
         = Ok (Continue st')
         ∧ flag_vc st' = false ∧ stream_open st' = false
         ∧ stream st' = true.
Proof.
  eexists. split; [reflexivity|].
  edestruct (reload_leaves_stale_stream quiet_env "reload_devices"
               (<["sg_hostapi" := VStr "MME"]> ∅)
               (setattr "sg_output_device" (VStr "speakers")
                  (setattr "sg_input_device" (VStr "mic") running_defaults)))
    as (H1 & H2 & H3 & _); [by left | reflexivity | reflexivity |].
  split; [exact H1|]. split; [exact H2 | exact H3].
Defined.

(** *** The radio flags *)

Lemma derive_flag_lookup key flag data data' k :
  derive_flag key flag data = Ok data' → k ≠ flag →
  data' !! k = data !! k.
Proof.
  unfold derive_flag. intros H Hk. inv_bind H. apply Ok_inj in H. subst.
  by rewrite lookup_insert_ne.
Qed.

Lemma derive_flag_set key flag data data' v :
  derive_flag key flag data = Ok data' → data !! key = Some v →
  data' !! flag = Some (VBool (match v with
                               | VStr s => bool_decide (s = flag)
                               | _ => false
                               end)).
Proof.
  unfold derive_flag, getitem. intros H Hv. rewrite Hv in H. simpl in H.
  apply Ok_inj in H. subst. apply lookup_insert_eq.
Qed.

Lemma derive_flags_f0 data data' v flag :
  derive_flags data = Ok data' → data !! "f0method"%string = Some v →
  flag ∈ f0methods →
  data' !! flag = Some (VBool (match v with
                               | VStr s => bool_decide (s = flag)
                               | _ => false
                               end)).
Proof.
  unfold derive_flags. intros H Hv Hflag.
  inv_bind H. inv_bind H. inv_bind H. inv_bind H. inv_bind H. inv_bind H.
  assert (V0 : a !! "f0method"%string = Some v)
    by (rewrite (derive_flag_lookup _ _ _ _ _ Ha); done).
  assert (V1 : a0 !! "f0method"%string = Some v)
    by (rewrite (derive_flag_lookup _ _ _ _ _ Ha0); done).
  assert (V2 : a1 !! "f0method"%string = Some v)
    by (rewrite (derive_flag_lookup _ _ _ _ _ Ha1); done).
  assert (V3 : a2 !! "f0method"%string = Some v)
    by (rewrite (derive_flag_lookup _ _ _ _ _ Ha2); done).
  assert (V4 : a3 !! "f0method"%string = Some v)
    by (rewrite (derive_flag_lookup _ _ _ _ _ Ha3); done).
  assert (V5 : a4 !! "f0method"%string = Some v)
    by (rewrite (derive_flag_lookup _ _ _ _ _ Ha4); done).
  unfold f0methods in Hflag. rewrite !elem_of_cons, elem_of_nil in Hflag.
  destruct Hflag as [->|[->|[->|[->|[->|[]]]]]].
  - rewrite (derive_flag_lookup _ _ _ _ _ H) by done.
    rewrite (derive_flag_lookup _ _ _ _ _ Ha4) by done.
    rewrite (derive_flag_lookup _ _ _ _ _ Ha3) by done.
    rewrite (derive_flag_lookup _ _ _ _ _ Ha2) by done.
    by apply (derive_flag_set _ _ _ _ _ Ha1).
  - rewrite (derive_flag_lookup _ _ _ _ _ H) by done.
    rewrite (derive_flag_lookup _ _ _ _ _ Ha4) by done.
    rewrite (derive_flag_lookup _ _ _ _ _ Ha3) by done.
    by apply (derive_flag_set _ _ _ _ _ Ha2).
  - rewrite (derive_flag_lookup _ _ _ _ _ H) by done.
    rewrite (derive_flag_lookup _ _ _ _ _ Ha4) by done.
    by apply (derive_flag_set _ _ _ _ _ Ha3).
  - rewrite (derive_flag_lookup _ _ _ _ _ H) by done.
    by apply (derive_flag_set _ _ _ _ _ Ha4).
  - by apply (derive_flag_set _ _ _ _ _ H).
Qed.

Lemma derive_flags_sr data data' v flag :
  derive_flags data = Ok data' → data !! "sr_type"%string = Some v →
  flag ∈ ["sr_model"; "sr_device"]%string →
  data' !! flag = Some (VBool (match v with
                               | VStr s => bool_decide (s = flag)
                               | _ => false
                               end)).
Proof.
  unfold derive_flags. intros H Hv Hflag.
  inv_bind H. inv_bind H. inv_bind H. inv_bind H. inv_bind H. inv_bind H.
  assert (V0 : a !! "sr_type"%string = Some v)
    by (rewrite (derive_flag_lookup _ _ _ _ _ Ha); done).
  rewrite !elem_of_cons, elem_of_nil in Hflag.
  destruct Hflag as [->|[->|[]]];
    rewrite (derive_flag_lookup _ _ _ _ _ H) by done;
    rewrite (derive_flag_lookup _ _ _ _ _ Ha4) by done;
    rewrite (derive_flag_lookup _ _ _ _ _ Ha3) by done;
    rewrite (derive_flag_lookup _ _ _ _ _ Ha2) by done;
    rewrite (derive_flag_lookup _ _ _ _ _ Ha1) by done.
  - rewrite (derive_flag_lookup _ _ _ _ _ Ha0) by done.
    by apply (derive_flag_set _ _ _ _ _ Ha).
  - by apply (derive_flag_set _ _ _ _ _ Ha0).
Qed.

(** X25: the two radio-button groups round-trip: from the flags that
    [load] derives from the saved sample-rate choice and the saved pitch
    method, [set_values] reads back those same names when each is one of
    the group's buttons; a saved name that is none of them sets no flag of
    its group and the reading raises [ValueError]. *)
Theorem radio_flags_round_trip (data data' : gmap string pyval)
    (sr m : string) :
  derive_flags data = Ok data' →
  data !! "sr_type"%string = Some (VStr sr) →
  data !! "f0method"%string = Some (VStr m) →
  chosen_sr_type data'
  = (if bool_decide (sr ∈ ["sr_model"; "sr_device"]%string) then Ok sr
     else Raise ValueError)
  ∧ chosen_f0method data'
    = (if bool_decide (m ∈ f0methods) then Ok m else Raise ValueError).
Proof.
  intros H Hsr Hm. split.
  - unfold chosen_sr_type.
    assert (Hf : ∀ flag, flag ∈ ["sr_model"; "sr_device"]%string →
              getitem data' flag = Ok (VBool (bool_decide (sr = flag)))).
    { intros flag Hflag. unfold getitem.
      by rewrite (derive_flags_sr _ _ _ _ H Hsr Hflag). }
    rewrite !Hf by (rewrite !elem_of_cons; tauto). simpl.
    destruct (decide (sr ∈ ["sr_model"; "sr_device"]%string)) as [Hin|Hout].
    + rewrite (bool_decide_true _ Hin).
      rewrite !elem_of_cons, elem_of_nil in Hin.
      destruct Hin as [->|[->|[]]]; reflexivity.
    + rewrite (bool_decide_false _ Hout).
      rewrite !elem_of_cons, elem_of_nil in Hout.
      rewrite !bool_decide_false by tauto. reflexivity.
  - unfold chosen_f0method.
    assert (Hf : ∀ flag, flag ∈ f0methods →
              getitem data' flag = Ok (VBool (bool_decide (m = flag)))).
    { intros flag Hflag. unfold getitem.
      by rewrite (derive_flags_f0 _ _ _ _ H Hm Hflag). }
    unfold f0methods in *. simpl.
    rewrite !Hf by (rewrite !elem_of_cons; tauto). simpl.
    destruct (decide (m ∈ ["pm"; "harvest"; "crepe"; "rmvpe"; "fcpe"]%string))
      as [Hin|Hout].
    + rewrite (bool_decide_true _ Hin).
      rewrite !elem_of_cons, elem_of_nil in Hin.
      destruct Hin as [->|[->|[->|[->|[->|[]]]]]]; reflexivity.
    + rewrite (bool_decide_false _ Hout).
      rewrite !elem_of_cons, elem_of_nil in Hout.
      rewrite !bool_decide_false by tauto. reflexivity.
Qed.

Lemma radio_flags_round_trip_witness :
  ∃ data', derive_flags (<["sr_type" := VStr "sr_device"]>
                           (<["f0method" := VStr "dio"]> ∅)) = Ok data'
           ∧ chosen_sr_type data'
             = (if bool_decide ("sr_device"%string
                                ∈ ["sr_model"; "sr_device"]%string)
                then Ok "sr_device"%string else Raise ValueError)
           ∧ chosen_f0method data'
             = (if bool_decide ("dio"%string ∈ f0methods)
                then Ok "dio"%string else Raise ValueError).
Proof.
  eexists. split; [reflexivity|].
  apply (radio_flags_round_trip
           (<["sr_type" := VStr "sr_device"]> (<["f0method" := VStr "dio"]> ∅))
           _ "sr_device"%string "dio"%string).
  - reflexivity.
  - reflexivity.
  - reflexivity.
Defined.

End EventsExtra.

Module VocoderExtra.
Import Session Stitch PhaseVocoder PyFacts SessionFacts StitchFacts EventsFacts
       RingBufferExtra FadeExtra SolaExtra.

#[local] Open Scope R_scope.

Lemma set_slice_onto {A} (l src : list A) a b :
  length src = length (get_slice l a b) →
  ∃ l', set_slice l a b src = Ok l' ∧ length l' = length l.
Proof.
  intros H. unfold set_slice, get_slice in *.
  destruct (slice_bounds (Z.of_nat (length l)) a b) as [s e] eqn:E.
  apply slice_bounds_range in E; [|lia].
  rewrite length_take, length_drop in H.
  rewrite decide_True by lia.
  eexists. split; [reflexivity|].
  rewrite !length_app, length_take, length_drop. lia.
Qed.

Lemma double_bins_ok n absab :
  ∃ l, double_bins n absab = Ok l ∧ length l = length absab.
Proof.
  unfold double_bins. apply set_slice_onto. by rewrite length_fmap.
Qed.

Lemma length_arange n : length (arange n) = Z.to_nat n.
Proof. unfold arange. by rewrite length_fmap, length_seqZ. Qed.

Section Vocoder.
Variable rfft : list R → res (list (R * R)).

(** The blend when the two signals and the two windows have one size
    and the transform returns the bins of that size: one output sample
    per input sample, each the direct mix plus the resynthesised part
    weighted by the window. *)
Lemma phase_vocoder_eq (a b fo fi : list R) :
  length b = length a → length fo = length a → length fi = length a →
  (∀ x, length x = length a →
        ∃ f, rfft x = Ok f
             ∧ Z.of_nat (length f) = (Z.of_nat (length a) / 2 + 1)%Z) →
  ∃ sums,
    length sums = length a
    ∧ phase_vocoder rfft a b fo fi
      = Ok (zip_with Rplus
              (zip_with Rplus (zip_with Rmult a ((λ v, v ^ 2) <$> fo))
                              (zip_with Rmult b ((λ v, v ^ 2) <$> fi)))
              ((λ v, v / IZR (Z.of_nat (length a)))
               <$> zip_with Rmult sums (sqrt <$> zip_with Rmult fo fi))).
Proof.
  intros Hb Hfo Hfi Hrfft. unfold phase_vocoder.
  rewrite (broadcast2_same Rmult fo fi) by lia. rewrite bind_Ok.
  set (window := sqrt <$> zip_with Rmult fo fi).
  assert (Hw : length window = length a).
  { unfold window. rewrite length_fmap, length_zip_with. lia. }
  rewrite (broadcast2_same Rmult a window) by lia. rewrite bind_Ok.
  destruct (Hrfft (zip_with Rmult a window)) as (fa & -> & Hfa).
  { rewrite length_zip_with. lia. }
  rewrite bind_Ok.
  rewrite (broadcast2_same Rmult b window) by lia. rewrite bind_Ok.
  destruct (Hrfft (zip_with Rmult b window)) as (fb & -> & Hfb).
  { rewrite length_zip_with. lia. }
  rewrite bind_Ok.
  rewrite (broadcast2_same Rplus (fst <$> fa) (fst <$> fb))
    by (rewrite !length_fmap; lia).
  rewrite bind_Ok.
  destruct (double_bins_ok (Z.of_nat (length a))
              (zip_with Rplus (fst <$> fa) (fst <$> fb)))
    as (absab & -> & Habs).
  rewrite length_zip_with, !length_fmap in Habs.
  rewrite bind_Ok.
  unfold deltaphase_of.
  rewrite (broadcast2_same Rminus (snd <$> fb) (snd <$> fa))
    by (rewrite !length_fmap; lia).
  rewrite !bind_Ok.
  set (dp := wrap_phase <$> zip_with Rminus (snd <$> fb) (snd <$> fa)).
  assert (Hdp : length dp = length fa).
  { unfold dp. rewrite length_fmap, length_zip_with, !length_fmap. lia. }
  rewrite (broadcast2_same Rplus _ dp)
    by (rewrite length_fmap, length_arange; lia).
  rewrite bind_Ok.
  set (w := zip_with Rplus _ dp).
  assert (Hlw : length w = length fa).
  { unfold w. rewrite length_zip_with, length_fmap, length_arange. lia. }
  rewrite (broadcast2_same pair w (snd <$> fa)) by (rewrite length_fmap; lia).
  rewrite bind_Ok.
  rewrite (broadcast2_same pair absab)
    by (rewrite length_zip_with, length_fmap; lia).
  rewrite bind_Ok.
  set (sums := _ <$> ((λ i, i / IZR (Z.of_nat (length a)))
                      <$> arange (Z.of_nat (length a)))).
  assert (Hsums : length sums = length a).
  { unfold sums. rewrite !length_fmap, length_arange. lia. }
  rewrite (broadcast2_same Rmult a) by (rewrite length_fmap; lia).
  rewrite bind_Ok.
  rewrite (broadcast2_same Rmult b) by (rewrite length_fmap; lia).
  rewrite bind_Ok.
  rewrite (broadcast2_same Rplus (zip_with Rmult a _))
    by (rewrite !length_zip_with, !length_fmap; lia).
  rewrite bind_Ok.
  rewrite (broadcast2_same Rmult sums window) by lia.
  rewrite bind_Ok.
  rewrite broadcast2_same
    by (rewrite length_fmap, !length_zip_with, !length_fmap; lia).
  exists sums. split; [exact Hsums | reflexivity].
Qed.

Lemma phase_vocoder_length (a b fo fi : list R) :
  length b = length a → length fo = length a → length fi = length a →
  (∀ x, length x = length a →
        ∃ f, rfft x = Ok f
             ∧ Z.of_nat (length f) = (Z.of_nat (length a) / 2 + 1)%Z) →
  ∃ r, phase_vocoder rfft a b fo fi = Ok r ∧ length r = length a.
Proof.
  intros Hb Hfo Hfi Hrfft.
  destruct (phase_vocoder_eq a b fo fi Hb Hfo Hfi Hrfft) as (sums & Hs & ->).
  eexists. split; [reflexivity|].
  rewrite length_zip_with, length_fmap, !length_zip_with, !length_fmap,
    length_zip_with. lia.
Qed.

(** One sample of the blend where the windows are at an end of the
    fade. *)
Lemma phase_vocoder_sample (a b fo fi r : list R) (i : nat) (x y p q : R) :
  length b = length a → length fo = length a → length fi = length a →
  (∀ x, length x = length a →
        ∃ f, rfft x = Ok f
             ∧ Z.of_nat (length f) = (Z.of_nat (length a) / 2 + 1)%Z) →
  phase_vocoder rfft a b fo fi = Ok r →
  a !! i = Some x → b !! i = Some y → fo !! i = Some p → fi !! i = Some q →
  p * q = 0 →
  r !! i = Some (x * p ^ 2 + y * q ^ 2).
Proof.
  intros Hb Hfo Hfi Hrfft Hr Hx Hy Hp Hq Hpq.
  destruct (phase_vocoder_eq a b fo fi Hb Hfo Hfi Hrfft) as (sums & Hs & E).
  rewrite E in Hr. apply Ok_inj in Hr. subst r.
  destruct (lookup_lt_is_Some_2 sums i) as [s Hsi].
  { rewrite Hs. by apply lookup_lt_Some in Hx. }
  rewrite !lookup_zip_with, !list_lookup_fmap, !lookup_zip_with.
  rewrite !list_lookup_fmap, lookup_zip_with.
  rewrite Hx, Hy, Hp, Hq, Hsi. simpl. f_equal.
  rewrite Hpq, sqrt_0. unfold Rdiv. ring.
Qed.

End Vocoder.

(** X26: the phase-vocoder blend starts on the old tail and ends on
    the new block: with the fade windows of a session (two points or
    more), whatever the spectra, the first output sample is the first
    sample of the tail [a] and the last one is the last sample of the
    block [b], and the blend has the size of its inputs. *)
Theorem phase_vocoder_ends (rfft : list R → res (list (R * R)))
    (n : Z) (fi a b : list R) :
  (2 <= n)%Z → fade_in_of n = Ok fi →
  Z.of_nat (length a) = n → Z.of_nat (length b) = n →
  (∀ x, length x = length a →
        ∃ f, rfft x = Ok f ∧ Z.of_nat (length f) = (n / 2 + 1)%Z) →
  ∃ r, phase_vocoder rfft a b (fade_out_of fi) fi = Ok r
       ∧ length r = length a
       ∧ r !! 0%nat = a !! 0%nat
       ∧ r !! (length a - 1)%nat = b !! (length a - 1)%nat.
Proof.
  intros Hn Hfi Ha Hb Hrfft.
  assert (Hlfi : Z.of_nat (length fi) = n).
  { pose proof (fade_in_length n fi Hfi). lia. }
  assert (Hlfo : length (fade_out_of fi) = length fi).
  { apply length_fade_out. }
  assert (Hrfft' : ∀ x, length x = length a →
            ∃ f, rfft x = Ok f
                 ∧ Z.of_nat (length f) = (Z.of_nat (length a) / 2 + 1)%Z).
  { rewrite Ha. exact Hrfft. }
  destruct (phase_vocoder_length rfft a b (fade_out_of fi) fi)
    as (r & Hr & Hlr); try lia; [exact Hrfft'|].
  exists r. split; [exact Hr|]. split; [exact Hlr|].
  destruct (lookup_lt_is_Some_2 a 0) as [x0 Hx0]; [lia|].
  destruct (lookup_lt_is_Some_2 b 0) as [y0 Hy0]; [lia|].
  destruct (lookup_lt_is_Some_2 fi 0) as [q0 Hq0]; [lia|].
  destruct (lookup_lt_is_Some_2 a (length a - 1)) as [x1 Hx1]; [lia|].
  destruct (lookup_lt_is_Some_2 b (length a - 1)) as [y1 Hy1]; [lia|].
  destruct (lookup_lt_is_Some_2 fi (length a - 1)) as [q1 Hq1]; [lia|].
  destruct (fade_in_first n fi q0 Hfi Hq0) as [-> Hp0].
  destruct (fade_in_last n fi _ q1 Hfi Hq1 Hn ltac:(lia)) as [-> Hp1].
  split.
  - rewrite (phase_vocoder_sample rfft a b (fade_out_of fi) fi r 0 x0 y0 1 0)
      by (try done; try lia; lra).
    rewrite Hx0. f_equal. lra.
  - rewrite (phase_vocoder_sample rfft a b (fade_out_of fi) fi r
               (length a - 1) x1 y1 0 1)
      by (try done; try lia; lra).
    rewrite Hy1. f_equal. lra.
Qed.

Lemma phase_vocoder_ends_witness :
  ∃ fi r,
    fade_in_of 2 = Ok fi
    ∧ phase_vocoder Standin.rfft [1; 2] [3; 4] (fade_out_of fi) fi = Ok r
    ∧ r !! 0%nat = Some 1 ∧ r !! 1%nat = Some 4.
Proof.
  destruct (fade_in_total 2 ltac:(lia)) as [fi Hfi].
  destruct (phase_vocoder_ends Standin.rfft 2 fi [1; 2] [3; 4])
    as (r & Hr & _ & H0 & H1).
  - lia.
  - exact Hfi.
  - reflexivity.
  - reflexivity.
  - intros x Hx. eexists. split; [reflexivity|].
    rewrite length_replicate, Hx. reflexivity.
  - exists fi, r. split; [exact Hfi|]. split; [exact Hr|].
    split; [exact H0 | exact H1].
Defined.

End VocoderExtra.
Module CallbackExtra.
Import Session Stitch NoiseGate RingBuffer PhaseVocoder Callback.
Import PyFacts RingBufferFacts SessionFacts StitchFacts NoiseGateFacts
       EventsFacts RingBufferExtra SessionExtra SolaExtra VocoderExtra.

Lemma get_tail {A} (l : list A) n :
  0 < n <= Z.of_nat (length l) →
  get_slice l (Some (- n)) None = drop (Z.to_nat (Z.of_nat (length l) - n)) l.
Proof.
  intros H. unfold get_slice, slice_bounds. simpl.
  rewrite adjust_neg by lia. rewrite Z.max_r by lia.
  apply take_ge. rewrite length_drop. lia.
Qed.

Lemma length_get_tail {A} (l : list A) n :
  0 < n <= Z.of_nat (length l) →
  Z.of_nat (length (get_slice l (Some (- n)) None)) = n.
Proof. intros H. rewrite get_tail by done. rewrite length_drop. lia. Qed.

Lemma set_tail {A} (l src : list A) n :
  Z.of_nat (length src) = n → (1 ≤ length src ≤ length l)%nat →
  set_slice l (Some (- n)) None src
  = Ok (take (length l - length src) l ++ src).
Proof. intros <- H. exact (write_tail_ok l src H). Qed.

Lemma set_tail_length {A} (l src : list A) n :
  Z.of_nat (length src) = n → (1 ≤ length src ≤ length l)%nat →
  ∃ l', set_slice l (Some (- n)) None src = Ok l' ∧ length l' = length l.
Proof.
  intros Hn H. rewrite set_tail by done. eexists. split; [reflexivity|].
  rewrite length_app, length_take. lia.
Qed.

Lemma shift_left_length {A} (buf : list A) n :
  1 <= n <= Z.of_nat (length buf) →
  ∃ buf', shift_left n buf = Ok buf' ∧ length buf' = length buf.
Proof.
  intros H. replace n with (Z.of_nat (Z.to_nat n)) by lia.
  rewrite shift_left_ok by lia. eexists. split; [reflexivity|].
  rewrite length_app, !length_drop. lia.
Qed.

Lemma update_input_wav_sized {A} (n : Z) (new buf : list A) :
  1 <= n <= Z.of_nat (length buf) → (1 ≤ length new ≤ length buf)%nat →
  ∃ buf', update_input_wav n new buf = Ok buf' ∧ length buf' = length buf
          ∧ (Z.of_nat (length new) = n → buf' = drop (length new) buf ++ new).
Proof.
  intros Hn Hnew. replace n with (Z.of_nat (Z.to_nat n)) by lia.
  rewrite update_input_wav_eq by lia. eexists. split; [reflexivity|]. split.
  - rewrite length_app, length_take, length_app, !length_drop. lia.
  - intros E. f_equal. replace (Z.to_nat n) with (length new) by lia.
    rewrite take_app_length'; [done|]. rewrite length_drop. lia.
Qed.

Lemma noise_gate_sizes (frames_below : list R → Z → Q → list bool)
    (z : Z) (th : Q) (rms indata : list R) :
  0 < z → Z.of_nat (length rms) = 4 * z →
  ∃ rb out,
    noise_gate 0%R frames_below z th rms indata = Ok (rb, out)
    ∧ length rb = length rms
    ∧ Z.of_nat (length out)
      = Z.of_nat (length indata) + (if decide (-60 < th)%Q then 2 * z else 0)
    ∧ (¬ (-60 < th)%Q → rb = rms ∧ out = indata).
Proof.
  intros Hz Hrms. unfold noise_gate.
  destruct (decide (-60 < th)%Q) as [Hth|Hth].
  - destruct (gated_eq 0%R frames_below z th rms indata Hz Hrms)
      as (out & -> & Hout).
    eexists _, _. split; [reflexivity|]. split; [|split; [exact Hout|done]].
    apply Nat2Z.inj. replace (- 4 * z) with (- (4 * z)) by lia.
    rewrite length_get_tail; [lia|].
    rewrite length_app. lia.
  - eexists _, _. split; [reflexivity|]. split; [done|]. split; [lia|done].
Qed.

Lemma write_outdata_ok (frames : nat) (block : list R) :
  length block = frames → write_outdata frames block = Ok block.
Proof. intros H. unfold write_outdata. by rewrite decide_True. Qed.

Lemma start_vc_buffers_copies bt ct et sr fr bufs :
  start_vc_buffers bt ct et sr = Ok (fr, bufs) →
  input_wav_denoise bufs = input_wav bufs
  ∧ output_buffer bufs = input_wav bufs
  ∧ nr_buffer bufs = sola_buffer bufs.
Proof.
  intros H. unfold start_vc_buffers in H.
  inv_bind H. inv_bind H. inv_bind H. inv_bind H. inv_bind H. inv_bind H.
  inv_bind H. inv_bind H. inv_bind H. inv_bind H. inv_bind H. inv_bind H.
  apply Ok_inj in H. injection H as <- <-. done.
Qed.

(** A started session with a block and an overlap of at least one
    sample is shaped. *)
Lemma start_vc_shaped bt ct et sr fr bufs :
  start_vc_buffers bt ct et sr = Ok (fr, bufs) →
  1 <= block_frame fr → 1 <= sola_buffer_frame fr → 0 <= extra_frame fr →
  shaped fr bufs.
Proof.
  intros H Hbf Hsbf Hef.
  destruct (start_vc_buffers_copies _ _ _ _ _ _ H) as (Ed & Eo & En).
  apply start_vc_buffers_inv in H. cbv zeta in H.
  set (z := sr / 100) in *.
  set (kb := np_round (bt * inject_Z sr / inject_Z z)) in *.
  set (kc := np_round (ct * inject_Z sr / inject_Z z)) in *.
  set (ke := np_round (et * inject_Z sr / inject_Z z)) in *.
  destruct H as (Hz & Hn & Hsb & -> & Hiw & Hres & Hrms & Hsola & Hfi & Hfo).
  simpl in Hbf, Hsbf, Hef.
  apply fade_in_length in Hfi.
  constructor; simpl.
  - exact Hz.
  - split; [exact Hbf | by exists kb].
  - replace (160 * (kb * z)) with (160 * kb * z) by ring.
    rewrite Z.div_mul by lia. ring.
  - by exists kc.
  - lia.
  - reflexivity.
  - split; [exact Hef | by exists ke].
  - lia.
  - by rewrite Ed.
  - by rewrite Eo.
  - rewrite Hres.
    replace (Z.of_nat (Z.to_nat (ke * z + kc * z + z + kb * z)))
      with ((ke + kc + 1 + kb) * z) by lia.
    replace (160 * ((ke + kc + 1 + kb) * z))
      with (160 * (ke + kc + 1 + kb) * z) by ring.
    rewrite Z.div_mul by lia.
    rewrite Z2Nat.id by nia.
    rewrite Hiw. rewrite Z2Nat.id by lia. ring.
  - lia.
  - lia.
  - rewrite En. lia.
  - lia.
  - rewrite Hfo, length_fade_out. lia.
Qed.

Section Engine.
Variable frames_below : list R → Z → Q → list bool.
Variable tg : list R → list R → list R.
Variable resampler : list R → list R.
Variable infer : list R → Z → Z → Z → string → res (list R).
Variable resampler2 : option (list R → list R).
Variable rms_contour : list R → Z → Z → nat → list R.
Variable torch_pow : R → R → R.
Variable rfft : list R → res (list (R * R)).
Variables platform device : string.
Variable fr : frames.
Hypothesis Hlib :
  library_sizes tg resampler infer resampler2 rms_contour rfft fr.
Hypothesis Hplatform : platform ≠ "darwin"%string.

(** The sizes of a shaped session in units of [zc]. *)
Lemma shaped_units b :
  shaped fr b →
  ∃ kb kc ke,
    1 <= kb ∧ 1 <= kc ∧ 0 <= ke
    ∧ block_frame fr = kb * zc fr ∧ crossfade_frame fr = kc * zc fr
    ∧ extra_frame fr = ke * zc fr ∧ block_frame_16k fr = 160 * kb
    ∧ Z.of_nat (length (input_wav b)) = (ke + kc + 1 + kb) * zc fr
    ∧ Z.of_nat (length (input_wav_res b)) = 160 * (ke + kc + 1 + kb).
Proof.
  intros [Hz [Hb1 [kb Hkb]] H16 [kc Hkc] Hs Hsearch [He [ke Hke]] Hin _ _ Hres
            _ _ _ _ _].
  exists kb, kc, ke.
  assert (1 <= kb) by nia. assert (1 <= kc) by nia. assert (0 <= ke) by nia.
  repeat split; try done.
  - rewrite Hkb in H16. nia.
  - rewrite Hin, Hsearch, Hkb, Hkc, Hke. ring.
  - rewrite Hin, Hsearch, Hkb, Hkc, Hke in Hres. nia.
Qed.

(** The write into the 16 kHz buffer: the last [m + 2·zc] samples of
    [x], resampled, without the first 160. *)
Lemma resample_write (x res1 : list R) (m k ss tt : Z) :
  0 < zc fr → 0 <= k → m = k * zc fr →
  m + 2 * zc fr <= Z.of_nat (length x) →
  ss = - (m + 2 * zc fr) → tt = - (160 * (k + 1)) →
  160 * (k + 1) <= Z.of_nat (length res1) →
  ∃ r, set_slice res1 (Some tt) None
         (get_slice (resampler (get_slice x (Some ss) None)) (Some 160) None)
       = Ok r
       ∧ length r = length res1.
Proof.
  intros Hz Hk Hm Hx -> -> Hres.
  assert (Hsrc : Z.of_nat (length (get_slice x (Some (- (m + 2 * zc fr))) None))
                 = (k + 2) * zc fr).
  { rewrite length_get_tail by lia. lia. }
  apply (resampler_size _ _ _ _ _ _ _ Hlib) in Hsrc.
  apply set_tail_length.
  - rewrite length_get_slice_from by lia. lia.
  - assert (Z.of_nat (length (get_slice (resampler
              (get_slice x (Some (- (m + 2 * zc fr))) None)) (Some 160) None))
            = 160 * (k + 1)).
    { rewrite length_get_slice_from by lia. lia. }
    lia.
Qed.

Lemma denoise_and_resample_sizes cfg b (indata iw res1 : list R) (k : Z) :
  shaped fr b → length iw = length (input_wav b) →
  length res1 = length (input_wav_res b) →
  0 <= k → Z.of_nat (length indata) = k * zc fr →
  Z.of_nat (length indata) + 2 * zc fr <= Z.of_nat (length iw) →
  ∃ d' nr' r',
    denoise_and_resample tg resampler cfg fr b indata iw res1
    = Ok (d', nr', r')
    ∧ length d' = length (input_wav_denoise b)
    ∧ length nr' = length (nr_buffer b)
    ∧ length r' = length res1
    ∧ (I_noise_reduce cfg = false →
       d' = input_wav_denoise b ∧ nr' = nr_buffer b).
Proof.
  intros Hs Hiw Hres1 Hk Hn Hfit.
  destruct (shaped_units b Hs)
    as (kb & kc & ke & Hkb & Hkc & Hke & Ebf & Ecf & Eef & E16 & Ein & Eres).
  destruct Hs as [Hz _ _ _ Hsola _ _ _ Hden _ _ _ _ Hnr Hfi Hfo].
  assert (Hbf : zc fr <= block_frame fr) by nia.
  assert (Hcf : zc fr <= crossfade_frame fr) by nia.
  assert (Hef : 0 <= extra_frame fr) by nia.
  assert (Hin : Z.of_nat (length (input_wav b))
                = extra_frame fr + crossfade_frame fr + zc fr + block_frame fr)
    by lia.
  unfold denoise_and_resample.
  destruct (I_noise_reduce cfg).
  - destruct (shift_left_length (input_wav_denoise b) (block_frame fr))
      as (d1 & -> & Hd1); [lia|].
    rewrite bind_Ok. cbv zeta.
    set (x0 := tg _ iw).
    assert (Hx0 : Z.of_nat (length x0)
                  = sola_buffer_frame fr + block_frame fr).
    { unfold x0. rewrite (tg_size _ _ _ _ _ _ _ Hlib).
      replace (- sola_buffer_frame fr - block_frame fr)
        with (- (sola_buffer_frame fr + block_frame fr)) by lia.
      rewrite length_get_tail by lia. reflexivity. }
    rewrite linear_crossfade_eq by lia. rewrite bind_Ok.
    set (iw2 := _ ++ drop _ x0).
    assert (Hiw2 : Z.of_nat (length iw2)
                   = sola_buffer_frame fr + block_frame fr).
    { unfold iw2.
      rewrite length_app, !length_zip_with, length_take, length_drop. lia. }
    destruct (set_tail_length d1 (get_slice iw2 None (Some (block_frame fr)))
                (block_frame fr)) as (d2 & -> & Hd2).
    { rewrite get_slice_to by lia. rewrite length_take. lia. }
    { rewrite get_slice_to by lia. rewrite length_take. lia. }
    rewrite bind_Ok.
    rewrite set_slice_all.
    2:{ apply Nat2Z.inj. rewrite length_get_slice_from by lia. lia. }
    rewrite bind_Ok.
    destruct (resample_write d2 res1 (block_frame fr) kb
                (- block_frame fr - 2 * zc fr) (- block_frame_16k fr - 160))
      as (r & -> & Hr); try lia.
    rewrite bind_Ok. eexists _, _, _. split; [reflexivity|].
    split; [lia|]. split.
    + apply Nat2Z.inj. rewrite length_get_slice_from by lia. lia.
    + split; [exact Hr | discriminate].
  - cbv zeta. rewrite py_floordiv_ok by lia. rewrite bind_Ok.
    assert (Hq : Z.of_nat (length indata) / zc fr = k).
    { rewrite Hn. apply Z.div_mul. lia. }
    rewrite Hq.
    assert (Hkm : k + 2 <= ke + kc + 1 + kb) by nia.
    destruct (resample_write iw res1 (Z.of_nat (length indata)) k
                (- Z.of_nat (length indata) - 2 * zc fr) (- 160 * (k + 1)))
      as (r & -> & Hr); try lia.
    rewrite bind_Ok. eexists _, _, _. split; [reflexivity|]. done.
Qed.

Lemma infer_block_sizes cfg b (iw d r : list R) :
  shaped fr b → length iw = length (input_wav b) →
  length d = length (input_wav b) →
  ∃ w, infer_block infer resampler2 cfg fr iw d r = Ok w
       ∧ block_frame fr + sola_buffer_frame fr + sola_search_frame fr
         <= Z.of_nat (length w)
       ∧ (function cfg ≠ "vc"%string → I_noise_reduce cfg = false →
          w = drop (Z.to_nat (extra_frame fr)) iw).
Proof.
  intros Hs Hiw Hd.
  destruct Hs as [Hz [Hbf _] _ _ Hsola Hsearch [Hef _] Hin _ _ _ _ _ _ _ _].
  unfold infer_block. destruct (decide (function cfg = "vc"%string)) as [E|E].
  - destruct (infer_size _ _ _ _ _ _ _ Hlib r (f0method cfg)) as (w & -> & Hw).
    rewrite bind_Ok. eexists. split; [reflexivity|]. done.
  - destruct (I_noise_reduce cfg).
    + eexists. split; [reflexivity|].
      rewrite length_get_slice_from by lia. split; [lia|]. intros _ [=].
    + eexists. split; [reflexivity|].
      rewrite length_get_slice_from by lia. split; [lia|].
      intros _ _. apply get_slice_from. lia.
Qed.

Lemma output_denoise_sizes cfg b (w : list R) :
  shaped fr b → block_frame fr <= Z.of_nat (length w) →
  ∃ ob w', output_denoise tg cfg fr b w = Ok (ob, w')
           ∧ length ob = length (output_buffer b)
           ∧ length w' = length w
           ∧ (function cfg ≠ "vc"%string → w' = w).
Proof.
  intros Hs Hw.
  destruct Hs as [Hz [Hbf _] _ _ Hsola Hsearch [Hef _] Hin _ Hout _ _ _ _ _ _].
  unfold output_denoise.
  destruct (O_noise_reduce cfg && bool_decide (function cfg = "vc"%string))
    eqn:E.
  - apply andb_prop in E as [_ E]. apply bool_decide_eq_true in E.
    destruct (shift_left_length (output_buffer b) (block_frame fr))
      as (ob & -> & Hob); [lia|].
    rewrite bind_Ok.
    destruct (set_tail_length ob (get_slice w (Some (- block_frame fr)) None)
                (block_frame fr)) as (ob2 & -> & Hob2).
    { apply length_get_tail. lia. }
    { pose proof (length_get_tail w (block_frame fr) ltac:(lia)). lia. }
    rewrite bind_Ok. eexists _, _. split; [reflexivity|].
    split; [lia|]. split; [apply (tg_size _ _ _ _ _ _ _ Hlib)|done].
  - eexists _, _. split; [reflexivity|]. done.
Qed.

Lemma envelope_mix_sizes cfg (z ef : Z) (iw d w : list R) :
  ∃ w' ops,
    envelope_mix rms_contour torch_pow (rms_mix_rate cfg) (I_noise_reduce cfg)
                 (function cfg) z ef iw d w = Ok (w', ops)
    ∧ length w' = length w
    ∧ (function cfg ≠ "vc"%string → w' = w).
Proof.
  unfold envelope_mix.
  destruct (bool_decide (rms_mix_rate cfg < 1)%Q
            && bool_decide (function cfg = "vc"%string)) eqn:E.
  - apply andb_prop in E as [_ E]. apply bool_decide_eq_true in E.
    cbv zeta.
    rewrite broadcast2_same
      by (rewrite length_fmap, !(rms_contour_size _ _ _ _ _ _ _ Hlib); done).
    rewrite bind_Ok.
    rewrite inplace2_same
      by (rewrite length_fmap, length_zip_with, length_fmap,
            !(rms_contour_size _ _ _ _ _ _ _ Hlib); lia).
    rewrite bind_Ok. eexists _, _. split; [reflexivity|].
    split; [|done].
    rewrite length_zip_with, length_fmap, length_zip_with, length_fmap,
      !(rms_contour_size _ _ _ _ _ _ _ Hlib). lia.
  - eexists _, _. split; [reflexivity|]. done.
Qed.

Lemma blend_eq cfg b (x : list R) :
  shaped fr b → sola_buffer_frame fr <= Z.of_nat (length x) →
  ∃ head, blend rfft device cfg fr b x
          = Ok (head ++ drop (Z.to_nat (sola_buffer_frame fr)) x)
          ∧ Z.of_nat (length head) = sola_buffer_frame fr.
Proof.
  intros Hs Hx.
  destruct Hs as [_ _ _ _ Hsola _ _ _ _ _ _ _ Hsb _ Hfi Hfo].
  unfold blend.
  destruct (bool_decide (is_Some (String.index 0 "privateuseone" device))
            || negb (use_pv cfg)).
  - rewrite linear_crossfade_eq by lia.
    replace (length (fade_in_window b))
      with (Z.to_nat (sola_buffer_frame fr)) by lia.
    eexists. split; [reflexivity|].
    rewrite !length_zip_with, length_take. lia.
  - destruct (phase_vocoder_length rfft (sola_buffer b)
                (get_slice x None (Some (sola_buffer_frame fr)))
                (fade_out_window b) (fade_in_window b))
      as (head & -> & Hhead); try lia.
    { rewrite get_slice_to by lia. rewrite length_take. lia. }
    { intros y Hy. destruct (rfft_size _ _ _ _ _ _ _ Hlib y) as (f & Hf & Hlf).
      exists f. split; [exact Hf|]. rewrite Hlf, Hy. reflexivity. }
    rewrite bind_Ok. rewrite set_slice_to by lia.
    eexists. split; [reflexivity|]. lia.
Qed.

Lemma stitch_eq cfg b (frames : nat) (w : list R) :
  shaped fr b →
  block_frame fr + sola_buffer_frame fr + sola_search_frame fr
  <= Z.of_nat (length w) →
  Z.of_nat frames = block_frame fr →
  ∃ sb' out scores (o : nat) head,
    sola_scores (sola_buffer_frame fr) (sola_search_frame fr) w
                (sola_buffer b) = Ok scores
    ∧ sola_offset platform scores = Ok o
    ∧ is_first_argmax scores o
    ∧ stitch rfft platform device cfg fr b frames w = Ok (sb', out)
    ∧ length sb' = length (sola_buffer b)
    ∧ length out = frames
    ∧ Z.of_nat o <= sola_search_frame fr
    ∧ Z.of_nat (length head) = sola_buffer_frame fr
    ∧ out = take frames (head ++ drop (Z.to_nat (sola_buffer_frame fr))
                                      (drop o w)).
Proof.
  intros Hs Hw Hframes.
  pose proof Hs as [Hz _ _ _ Hsola Hsearch _ _ _ _ _ _ Hsb _ _ _].
  destruct (sola_offset_bounded platform (sola_buffer_frame fr)
              (sola_search_frame fr) w (sola_buffer b))
    as (scores & o & Hsc & Ho & Hfirst & Hob); try lia; [done|].
  unfold stitch. rewrite Hsc, bind_Ok, Ho, bind_Ok. cbv zeta.
  rewrite get_slice_from by lia. rewrite Nat2Z.id.
  destruct (blend_eq cfg b (drop o w) Hs) as (head & -> & Hhead).
  { rewrite length_drop. lia. }
  rewrite bind_Ok.
  set (x2 := head ++ drop _ (drop o w)).
  assert (Hx2 : Z.of_nat (length x2) = Z.of_nat (length w) - Z.of_nat o).
  { unfold x2. rewrite length_app, !length_drop. lia. }
  rewrite get_slice_range by lia.
  rewrite set_slice_all by (rewrite length_take, length_drop; lia).
  rewrite bind_Ok. rewrite get_slice_to by lia.
  rewrite write_outdata_ok by (rewrite length_take; lia).
  rewrite bind_Ok.
  eexists _, _, scores, o, head.
  split; [first [exact Hsc | reflexivity]|].
  split; [first [exact Ho | reflexivity]|]. split; [exact Hfirst|].
  split; [reflexivity|].
  split; [rewrite length_take, length_drop; lia|].
  split; [rewrite length_take; lia|].
  split; [exact Hob|]. split; [exact Hhead|].
  f_equal. lia.
Qed.

(** One block through the whole callback. *)
Lemma callback_run cfg b (indata : list R) :
  shaped fr b → Z.of_nat (length indata) = block_frame fr →
  ((-60 < threhold cfg)%Q →
   3 * zc fr <= extra_frame fr + crossfade_frame fr) →
  ∃ b' out scores (o : nat) head w,
    audio_callback frames_below tg resampler infer resampler2 rms_contour
                   torch_pow rfft platform device cfg fr b indata
    = Ok (b', out)
    ∧ sola_scores (sola_buffer_frame fr) (sola_search_frame fr) w
                  (sola_buffer b) = Ok scores
    ∧ sola_offset platform scores = Ok o
    ∧ is_first_argmax scores o
    ∧ shaped fr b'
    ∧ length out = length indata
    ∧ fade_in_window b' = fade_in_window b
    ∧ fade_out_window b' = fade_out_window b
    ∧ Z.of_nat o <= sola_search_frame fr
    ∧ Z.of_nat (length head) = sola_buffer_frame fr
    ∧ out = take (length indata)
              (head ++ drop (Z.to_nat (sola_buffer_frame fr)) (drop o w))
    ∧ (¬ (-60 < threhold cfg)%Q →
       input_wav b' = drop (length indata) (input_wav b) ++ indata)
    ∧ (function cfg ≠ "vc"%string → I_noise_reduce cfg = false →
       w = drop (Z.to_nat (extra_frame fr)) (input_wav b')).
Proof.
  intros Hs Hn Hgate.
  destruct (shaped_units b Hs)
    as (kb & kc & ke & Hkb & Hkc & Hke & Ebf & Ecf & Eef & E16 & Ein & Eres).
  pose proof Hs as [Hz [Hb1 _] H16 Hcross Hsola Hsearch _ Hin Hden Hout
                      Hres Hrms Hsb Hnr Hfi Hfo].
  assert (Hbf : zc fr <= block_frame fr) by nia.
  assert (Hcf : zc fr <= crossfade_frame fr) by nia.
  assert (Hef : 0 <= extra_frame fr) by nia.
  unfold audio_callback. cbv zeta.
  destruct (noise_gate_sizes frames_below (zc fr) (threhold cfg)
              (rms_buffer b) indata Hz Hrms)
    as (rb & in' & -> & Hrb & Hin' & Hoff).
  rewrite bind_Ok. cbv beta iota.
  assert (Hk : ∃ k, 0 <= k ∧ Z.of_nat (length in') = k * zc fr
                    ∧ block_frame fr <= Z.of_nat (length in')
                    ∧ Z.of_nat (length in') + 2 * zc fr
                      <= Z.of_nat (length (input_wav b))).
  { destruct (decide (-60 < threhold cfg)%Q) as [Hth|Hth].
    - exists (kb + 2). specialize (Hgate Hth). lia.
    - exists kb. lia. }
  destruct Hk as (k & Hk0 & Hk & Hlow & Hfit).
  destruct (update_input_wav_sized (block_frame fr) in' (input_wav b))
    as (iw & -> & Hiw & Hiweq); [lia|lia|].
  rewrite bind_Ok.
  destruct (shift_left_length (input_wav_res b) (block_frame_16k fr))
    as (res1 & -> & Hres1); [lia|].
  rewrite bind_Ok.
  destruct (denoise_and_resample_sizes cfg b in' iw res1 k Hs Hiw Hres1 Hk0 Hk)
    as (d' & nr' & r' & -> & Hd' & Hnr' & Hr' & _); [lia|].
  rewrite bind_Ok. cbv beta iota.
  destruct (infer_block_sizes cfg b iw d' r' Hs Hiw ltac:(lia))
    as (w & -> & Hw & Hweq).
  rewrite bind_Ok.
  destruct (output_denoise_sizes cfg b w Hs ltac:(lia))
    as (ob & w1 & -> & Hob & Hw1 & Hw1eq).
  rewrite bind_Ok. cbv beta iota.
  destruct (envelope_mix_sizes cfg (zc fr) (extra_frame fr) iw d' w1)
    as (w2 & ops & -> & Hw2 & Hw2eq).
  rewrite bind_Ok. cbv beta iota.
  destruct (stitch_eq cfg b (length indata) w2 Hs ltac:(lia) Hn)
    as (sb' & out & scores & o & head & Hsc & Hsel & Hfirst & -> & Hsb'
        & Hlout & Ho & Hhead & Hout_eq).
  rewrite bind_Ok. cbv beta iota.
  eexists _, out, scores, o, head, w2. split; [reflexivity|].
  split; [exact Hsc|]. split; [exact Hsel|]. split; [exact Hfirst|].
  split; [|split; [exact Hlout|]].
  { constructor; simpl; try done; try lia;
      [exact (shaped_block _ _ Hs) | exact (shaped_extra _ _ Hs)]. }
  split; [reflexivity|]. split; [reflexivity|].
  split; [exact Ho|]. split; [exact Hhead|]. split; [exact Hout_eq|].
  simpl. split.
  - intros Hth. destruct (Hoff Hth) as [_ ->]. apply Hiweq. exact Hn.
  - intros Hf Hnr0. rewrite Hw2eq, Hw1eq by exact Hf. by apply Hweq.
Qed.

Lemma stream_run b (blocks : list (settings * list R)) :
  shaped fr b →
  Forall (λ cx : settings * list R,
            Z.of_nat (length cx.2) = block_frame fr
            ∧ ((-60 < threhold cx.1)%Q →
               3 * zc fr <= extra_frame fr + crossfade_frame fr)) blocks →
  ∃ b' outs,
    stream frames_below tg resampler infer resampler2 rms_contour torch_pow
           rfft platform device fr b blocks = Ok (b', outs)
    ∧ shaped fr b'
    ∧ length outs = length blocks
    ∧ Forall (λ out, Z.of_nat (length out) = block_frame fr) outs
    ∧ fade_in_window b' = fade_in_window b
    ∧ fade_out_window b' = fade_out_window b.
Proof.
  intros Hs Hall. revert b Hs.
  induction Hall as [|[cfg x] blocks [Hx Hg] Hall IH]; intros b Hs.
  - exists b, []. simpl. split; [done|]. split; [exact Hs|].
    split; [done|]. split; [constructor|]. done.
  - simpl in Hx, Hg.
    destruct (callback_run cfg b x Hs Hx Hg)
      as (b1 & out & _ & _ & _ & _ & E1 & _ & _ & _ & Hs1 & Hout & Hfi1
          & Hfo1 & _).
    destruct (IH b1 Hs1) as (b2 & outs & E2 & Hs2 & Hlen & Houts & Hfi2 & Hfo2).
    cbn [stream]. rewrite E1, bind_Ok. cbv beta iota.
    rewrite E2, bind_Ok. cbv beta iota.
    eexists _, _. split; [reflexivity|]. split; [exact Hs2|].
    split; [simpl; lia|]. split; [constructor; [lia|done]|].
    split; congruence.
Qed.

End Engine.

Lemma standin_sizes :
  library_sizes Standin.tg Standin.resampler Standin.infer None
                Standin.rms_contour Standin.rfft Standin.fr.
Proof.
  constructor.
  - done.
  - intros x k Hx. unfold Standin.resampler. rewrite length_replicate.
    simpl in Hx. lia.
  - intros. apply length_replicate.
  - intros x f0. eexists. split; [reflexivity|]. simpl. lia.
  - intros x. eexists. split; [reflexivity|].
    rewrite length_replicate, Nat2Z.inj_add, Nat2Z.inj_div. reflexivity.
Qed.

Lemma standin_shaped : shaped Standin.fr Standin.bufs.
Proof.
  constructor; simpl; try lia; try done.
  - split; [lia | apply Z.divide_1_l].
  - split; [lia | apply Z.divide_1_l].
Qed.

(** X27: one block keeps the session in shape.  On every platform but
    "darwin", for libraries that keep their sizes, whatever the settings
    of the moment (gate, both noise reductions, envelope mixing, phase
    vocoder, conversion or monitoring), the callback on a block of
    [block_frame] samples raises nothing, writes [block_frame] samples to
    [outdata], leaves every buffer with the size it had and does not
    touch the fade windows, provided that, when the gate is on, the
    input buffer holds three [zc] of history besides the search range
    and the block ([3·zc ≤ extra_frame + crossfade_frame]). *)
Theorem callback_keeps_shape
    (frames_below : list R → Z → Q → list bool)
    (tg : list R → list R → list R) (resampler : list R → list R)
    (infer : list R → Z → Z → Z → string → res (list R))
    (resampler2 : option (list R → list R))
    (rms_contour : list R → Z → Z → nat → list R) (torch_pow : R → R → R)
    (rfft : list R → res (list (R * R))) (platform device : string)
    (fr : frames)
    (cfg : settings) (b : buffers) (indata : list R) :
  library_sizes tg resampler infer resampler2 rms_contour rfft fr →
  platform ≠ "darwin"%string →
  shaped fr b → Z.of_nat (length indata) = block_frame fr →
  ((-60 < threhold cfg)%Q →
   3 * zc fr <= extra_frame fr + crossfade_frame fr) →
  ∃ b' out,
    audio_callback frames_below tg resampler infer resampler2 rms_contour
                   torch_pow rfft platform device cfg fr b indata
    = Ok (b', out)
    ∧ shaped fr b'
    ∧ length out = length indata
    ∧ fade_in_window b' = fade_in_window b
    ∧ fade_out_window b' = fade_out_window b.
Proof.
  intros Hlib Hp Hs Hn Hgate.
  destruct (callback_run frames_below tg resampler infer resampler2 rms_contour
              torch_pow rfft platform device fr Hlib Hp
              cfg b indata Hs Hn Hgate)
    as (b' & out & _ & _ & _ & _ & E & _ & _ & _ & Hs' & Hout & Hfi & Hfo
        & _).
  by exists b', out.
Qed.

(** X28: a started session streams.  After [start_vc] has computed the
    sizes and buffers (with a block and an overlap of at least one
    sample), on every platform but "darwin" and for libraries that keep
    their sizes, any number of blocks of [block_frame] samples goes
    through the callback without an exception, under settings that may
    change from block to block (the gate only with three [zc] of
    history), and every block written out has [block_frame] samples. *)
Theorem stream_from_start
    (frames_below : list R → Z → Q → list bool)
    (tg : list R → list R → list R) (resampler : list R → list R)
    (infer : list R → Z → Z → Z → string → res (list R))
    (resampler2 : option (list R → list R))
    (rms_contour : list R → Z → Z → nat → list R) (torch_pow : R → R → R)
    (rfft : list R → res (list (R * R))) (platform device : string)
    (fr : frames)
    (bt ct et : Q) (sr : Z) (b : buffers)
    (blocks : list (settings * list R)) :
  library_sizes tg resampler infer resampler2 rms_contour rfft fr →
  platform ≠ "darwin"%string →
  start_vc_buffers bt ct et sr = Ok (fr, b) →
  1 <= block_frame fr → 1 <= sola_buffer_frame fr → 0 <= extra_frame fr →
  Forall (λ cx : settings * list R,
            Z.of_nat (length cx.2) = block_frame fr
            ∧ ((-60 < threhold cx.1)%Q →
               3 * zc fr <= extra_frame fr + crossfade_frame fr)) blocks →
  ∃ b' outs,
    stream frames_below tg resampler infer resampler2 rms_contour torch_pow
           rfft platform device fr b blocks = Ok (b', outs)
    ∧ length outs = length blocks
    ∧ Forall (λ out, Z.of_nat (length out) = block_frame fr) outs.
Proof.
  intros Hlib Hp Hstart Hbf Hsbf Hef Hall.
  pose proof (start_vc_shaped _ _ _ _ _ _ Hstart Hbf Hsbf Hef) as Hs.
  destruct (stream_run frames_below tg resampler infer resampler2 rms_contour
              torch_pow rfft platform device fr Hlib Hp
              b blocks Hs Hall)
    as (b' & outs & E & _ & Hlen & Houts & _).
  by exists b', outs.
Qed.

(** X29: monitoring passes the microphone through.  With the gate and
    the input noise reduction off and [function] not "vc" (on every
    platform but "darwin", for libraries that keep their sizes), the
    input buffer is the old one shifted by the block with the block
    appended; the search runs on that buffer from position
    [extra_frame] on against the tail kept from the block before, and
    with [o] the offset it selects (the first maximum of its scores,
    at most [sola_search_frame]) every output sample past the
    crossfaded head is a sample of the buffer, unchanged: output sample
    [j] is the sample at position [extra_frame + o + j], whichever blend
    is in use. *)
Theorem monitor_passes_input
    (frames_below : list R → Z → Q → list bool)
    (tg : list R → list R → list R) (resampler : list R → list R)
    (infer : list R → Z → Z → Z → string → res (list R))
    (resampler2 : option (list R → list R))
    (rms_contour : list R → Z → Z → nat → list R) (torch_pow : R → R → R)
    (rfft : list R → res (list (R * R))) (platform device : string)
    (fr : frames)
    (cfg : settings) (b : buffers) (indata : list R) :
  library_sizes tg resampler infer resampler2 rms_contour rfft fr →
  platform ≠ "darwin"%string →
  shaped fr b → Z.of_nat (length indata) = block_frame fr →
  ¬ (-60 < threhold cfg)%Q → function cfg ≠ "vc"%string →
  I_noise_reduce cfg = false →
  ∃ b' out scores (o : nat),
    audio_callback frames_below tg resampler infer resampler2 rms_contour
                   torch_pow rfft platform device cfg fr b indata
    = Ok (b', out)
    ∧ input_wav b' = drop (length indata) (input_wav b) ++ indata
    ∧ sola_scores (sola_buffer_frame fr) (sola_search_frame fr)
                  (drop (Z.to_nat (extra_frame fr)) (input_wav b'))
                  (sola_buffer b) = Ok scores
    ∧ sola_offset platform scores = Ok o
    ∧ is_first_argmax scores o
    ∧ Z.of_nat o <= sola_search_frame fr
    ∧ ∀ j : nat,
        sola_buffer_frame fr <= Z.of_nat j < block_frame fr →
        out !! j = input_wav b' !! (Z.to_nat (extra_frame fr) + o + j)%nat.
Proof.
  intros Hlib Hp Hs Hn Hth Hf Hnr.
  destruct (callback_run frames_below tg resampler infer resampler2 rms_contour
              torch_pow rfft platform device fr Hlib Hp
              cfg b indata Hs Hn ltac:(done))
    as (b' & out & scores & o & head & w & E & Hsc & Hoff & Hfirst & _ & Hout
        & _ & _ & Ho & Hhead & Eout & Eiw & Ew).
  specialize (Ew Hf Hnr). subst w.
  exists b', out, scores, o. split; [exact E|]. split; [by apply Eiw|].
  split; [exact Hsc|]. split; [exact Hoff|]. split; [exact Hfirst|].
  split; [exact Ho|].
  intros j Hj. rewrite Eout.
  rewrite lookup_take_lt by lia.
  rewrite lookup_app_r by lia.
  rewrite !lookup_drop. f_equal. lia.
Qed.

Lemma callback_keeps_shape_witness :
  ∃ b' out,
    audio_callback Standin.frames_below Standin.tg Standin.resampler
      Standin.infer None Standin.rms_contour Standin.torch_pow Standin.rfft
      "linux" "cpu" Standin.convert Standin.fr Standin.bufs [1%R; 2%R]
    = Ok (b', out)
    ∧ shaped Standin.fr b' ∧ length out = 2%nat.
Proof.
  destruct (callback_keeps_shape Standin.frames_below Standin.tg
              Standin.resampler Standin.infer None Standin.rms_contour
              Standin.torch_pow Standin.rfft "linux" "cpu" Standin.fr
              Standin.convert Standin.bufs [1%R; 2%R]
              standin_sizes ltac:(discriminate) standin_shaped)
    as (b' & out & E & Hs & Hout & _).
  - reflexivity.
  - intros _. simpl. lia.
  - exists b', out. split; [exact E|]. split; [exact Hs | exact Hout].
Defined.

Lemma stream_from_start_witness :
  ∃ b b' outs,
    start_vc_buffers (2 # 100) (1 # 100) (2 # 100) 100 = Ok (Standin.fr, b)
    ∧ stream Standin.frames_below Standin.tg Standin.resampler Standin.infer
        None Standin.rms_contour Standin.torch_pow Standin.rfft
        "linux" "cpu" Standin.fr b
        [(Standin.monitor, [1%R; 2%R]); (Standin.convert, [3%R; 4%R])]
      = Ok (b', outs)
    ∧ length outs = 2%nat.
Proof.
  assert (E : ∃ b, start_vc_buffers (2 # 100) (1 # 100) (2 # 100) 100
                   = Ok (Standin.fr, b))
    by (eexists; vm_compute; reflexivity).
  destruct E as (b & E).
  destruct (stream_from_start Standin.frames_below Standin.tg
              Standin.resampler Standin.infer None Standin.rms_contour
              Standin.torch_pow Standin.rfft "linux" "cpu" Standin.fr
              _ _ _ _ b
              [(Standin.monitor, [1%R; 2%R]); (Standin.convert, [3%R; 4%R])]
              standin_sizes ltac:(discriminate) E)
    as (b' & outs & H1 & H2 & _).
  - simpl. lia.
  - simpl. lia.
  - simpl. lia.
  - constructor; [split; [reflexivity | intros _; simpl; lia]|].
    constructor; [split; [reflexivity | intros _; simpl; lia]|].
    constructor.
  - exists b, b', outs. split; [exact E|]. split; [exact H1 | exact H2].
Defined.

Lemma monitor_passes_input_witness :
  ∃ b' out,
    audio_callback Standin.frames_below Standin.tg Standin.resampler
      Standin.infer None Standin.rms_contour Standin.torch_pow Standin.rfft
      "linux" "cpu" Standin.monitor Standin.fr Standin.bufs [1%R; 2%R]
    = Ok (b', out)
    ∧ input_wav b' = [0%R; 0%R; 0%R; 0%R; 1%R; 2%R].
Proof.
  destruct (monitor_passes_input Standin.frames_below Standin.tg
              Standin.resampler Standin.infer None Standin.rms_contour
              Standin.torch_pow Standin.rfft "linux" "cpu" Standin.fr
              Standin.monitor Standin.bufs [1%R; 2%R]
              standin_sizes ltac:(discriminate) standin_shaped)
    as (b' & out & scores & o & E & Hiw & _).
  - reflexivity.
  - intros H. unfold Qlt in H. simpl in H. lia.
  - discriminate.
  - reflexivity.
  - exists b', out. split; [exact E | exact Hiw].
Defined.

End CallbackExtra.

Module LiveFacts.
Import Session Events Live.
Import PyFacts EventsFacts RingBufferExtra.

(** *** The callback keeps every buffer's size *)

Lemma shift_left_len {A} n (buf buf' : list A) :
  RingBuffer.shift_left n buf = Ok buf' → length buf' = length buf.
Proof. apply set_slice_length. Qed.

Lemma update_len {A} n (new buf buf' : list A) :
  RingBuffer.update_input_wav n new buf = Ok buf' → length buf' = length buf.
Proof.
  unfold RingBuffer.update_input_wav, RingBuffer.write_tail. intros H.
  inv_bind H. apply shift_left_len in Ha. apply set_slice_length in H.
  congruence.
Qed.

Lemma noise_gate_len (frames_below : list R → Z → Q → list bool)
    zc th (rms x rb y : list R) :
  NoiseGate.noise_gate 0%R frames_below zc th rms x = Ok (rb, y) →
  length rb = length rms.
Proof.
  unfold NoiseGate.noise_gate, NoiseGate.gated.
  destruct (decide (-60 < th)%Q).
  - intros H. inv_bind H. apply Ok_inj in H. injection H as <- _.
    by apply set_slice_length in Ha.
  - intros H. apply Ok_inj in H. by injection H as <- _.
Qed.

Section Engine.
Variable frames_below : list R → Z → Q → list bool.
Variable tg : list R → list R → list R.
Variable resampler : list R → list R.
Variable infer : list R → Z → Z → Z → string → res (list R).
Variable resampler2 : option (list R → list R).
Variable rms_contour : list R → Z → Z → nat → list R.
Variable torch_pow : R → R → R.
Variable rfft : list R → res (list (R * R)).
Variables platform device : string.

Lemma denoise_and_resample_len cfg fr b (indata iw res1 d nr r : list R) :
  Callback.denoise_and_resample tg resampler cfg fr b indata iw res1
  = Ok (d, nr, r) →
  length d = length (input_wav_denoise b)
  ∧ length nr = length (nr_buffer b)
  ∧ length r = length res1.
Proof.
  unfold Callback.denoise_and_resample.
  destruct (Callback.I_noise_reduce cfg); intros H.
  - apply bind_Ok_inv in H as (d1 & Hd1 & H). apply shift_left_len in Hd1.
    cbv zeta in H.
    apply bind_Ok_inv in H as (x & _ & H).
    apply bind_Ok_inv in H as (d2 & Hd2 & H). apply set_slice_length in Hd2.
    apply bind_Ok_inv in H as (nr' & Hnr & H). apply set_slice_length in Hnr.
    apply bind_Ok_inv in H as (r' & Hr & H). apply set_slice_length in Hr.
    apply Ok_inj in H. injection H as <- <- <-.
    repeat split; congruence.
  - cbv zeta in H.
    apply bind_Ok_inv in H as (q & _ & H).
    apply bind_Ok_inv in H as (r' & Hr & H). apply set_slice_length in Hr.
    apply Ok_inj in H. injection H as <- <- <-. done.
Qed.

Lemma output_denoise_len cfg fr b (w ob w' : list R) :
  Callback.output_denoise tg cfg fr b w = Ok (ob, w') →
  length ob = length (output_buffer b).
Proof.
  unfold Callback.output_denoise.
  destruct (_ && _); intros H.
  - apply bind_Ok_inv in H as (ob1 & H1 & H). apply shift_left_len in H1.
    apply bind_Ok_inv in H as (ob2 & H2 & H). apply set_slice_length in H2.
    apply Ok_inj in H. injection H as <- _. congruence.
  - apply Ok_inj in H. by injection H as <- _.
Qed.

Lemma stitch_len cfg fr b frames (w sb out : list R) :
  Callback.stitch rfft platform device cfg fr b frames w = Ok (sb, out) →
  length sb = length (sola_buffer b).
Proof.
  unfold Callback.stitch. intros H.
  apply bind_Ok_inv in H as (scores & _ & H).
  apply bind_Ok_inv in H as (o & _ & H). cbv zeta in H.
  apply bind_Ok_inv in H as (x & _ & H).
  apply bind_Ok_inv in H as (sb' & Hsb & H). apply set_slice_length in Hsb.
  apply bind_Ok_inv in H as (od & _ & H).
  apply Ok_inj in H. by injection H as <- _.
Qed.

(** Whenever the callback returns, whatever the libraries do, every
    buffer has the size it had and the fade windows are untouched. *)
Lemma audio_callback_sizes cfg fr b indata b' out :
  Callback.audio_callback frames_below tg resampler infer resampler2
    rms_contour torch_pow rfft platform device cfg fr b indata = Ok (b', out) →
  same_sizes b b'.
Proof.
  unfold Callback.audio_callback. cbv zeta. intros H.
  apply bind_Ok_inv in H as ([rb x] & Hgate & H). cbv beta iota in H.
  apply noise_gate_len in Hgate.
  apply bind_Ok_inv in H as (iw & Hiw & H). apply update_len in Hiw.
  apply bind_Ok_inv in H as (res1 & Hres1 & H). apply shift_left_len in Hres1.
  apply bind_Ok_inv in H as ([[d nr] r] & Hdr & H). cbv beta iota in H.
  apply denoise_and_resample_len in Hdr as (Hd & Hnr & Hr).
  apply bind_Ok_inv in H as (w & _ & H).
  apply bind_Ok_inv in H as ([ob w1] & Hob & H). cbv beta iota in H.
  apply output_denoise_len in Hob.
  apply bind_Ok_inv in H as ([w2 ops] & _ & H). cbv beta iota in H.
  apply bind_Ok_inv in H as ([sb o] & Hsb & H). cbv beta iota in H.
  apply stitch_len in Hsb.
  apply Ok_inj in H. injection H as <- _.
  unfold same_sizes. simpl. repeat split; congruence.
Qed.

Lemma same_sizes_refl b : same_sizes b b.
Proof. unfold same_sizes. done. Qed.

Lemma same_sizes_trans b1 b2 b3 :
  same_sizes b1 b2 → same_sizes b2 b3 → same_sizes b1 b3.
Proof. unfold same_sizes. intros ? ?. repeat split; intuition congruence. Qed.

Lemma same_session_refl s : same_session s s.
Proof.
  destruct s as [[fr b]|]; simpl; [|done].
  split; [done | apply same_sizes_refl].
Qed.

Lemma same_session_trans s1 s2 s3 :
  same_session s1 s2 → same_session s2 s3 → same_session s1 s3.
Proof.
  destruct s1 as [[f1 b1]|], s2 as [[f2 b2]|], s3 as [[f3 b3]|];
    simpl; try done.
  intros [-> H1] [-> H2]. split; [done|]. by eapply same_sizes_trans.
Qed.

(** A block changes nothing of the program's state but the contents of
    the session's buffers. *)
Lemma block_frame_rule indata st st' out :
  block frames_below tg resampler infer resampler2 rms_contour torch_pow
        rfft platform device indata st = Ok (st', out) →
  gui_config st' = gui_config st ∧ flag_vc st' = flag_vc st
  ∧ same_session (session st) (session st').
Proof.
  unfold block. destruct (session st) as [[fr b]|] eqn:Es; [|discriminate].
  intros H. apply bind_Ok_inv in H as (cfg & _ & H).
  apply bind_Ok_inv in H as ([b' o] & Hcb & H).
  apply audio_callback_sizes in Hcb.
  apply Ok_inj in H. injection H as <- _. simpl. done.
Qed.

Lemma live_step_frame st st' :
  live_step frames_below tg resampler infer resampler2 rms_contour torch_pow
            rfft platform device st st' →
  flag_vc st = true →
  flag_vc st' = true
  ∧ same_session (session st) (session st')
  ∧ ∀ k, k ∉ hot_updated → gui_config st' !! k = gui_config st !! k.
Proof.
  intros [st1 st2 Hturn | st1 indata st2 out Hopen Hblock] Hflag.
  - destruct (streaming_turn_frame _ _ Hturn) as [Hs Hc].
    destruct Hturn as (_ & Hf & _).
    split; [exact Hf|]. split; [rewrite Hs; apply same_session_refl | exact Hc].
  - apply block_frame_rule in Hblock as (Hc & Hf & Hs).
    split; [congruence|]. split; [exact Hs|]. intros k _. by rewrite Hc.
Qed.

Lemma live_run_frame st st' :
  live_run frames_below tg resampler infer resampler2 rms_contour torch_pow
           rfft platform device st st' →
  flag_vc st = true →
  flag_vc st' = true
  ∧ same_session (session st) (session st')
  ∧ ∀ k, k ∉ hot_updated → gui_config st' !! k = gui_config st !! k.
Proof.
  intros Hrun Hflag.
  induction Hrun as [st|st1 st2 st3 _ IH Hstep].
  - split; [exact Hflag|]. split; [apply same_session_refl | done].
  - destruct (IH Hflag) as (Hf2 & Hs2 & Hc2).
    destruct (live_step_frame _ _ Hstep Hf2) as (Hf3 & Hs3 & Hc3).
    split; [exact Hf3|]. split; [by eapply same_session_trans|].
    intros k Hk. rewrite Hc3 by exact Hk. by apply Hc2.
Qed.

End Engine.

(** *** The hot updates take effect *)

Lemma hot_slider_turn e values st k v :
  flag_vc st = true → k ∈ hot_sliders → values !! k = Some v →
  ∃ st', handle e (Some k) values st = Ok (Continue st')
         ∧ flag_vc st' = true
         ∧ gui_config st' !! k = Some v.
Proof.
  intros Hflag Hk Hv.
  assert (Hget : getitem values k = Ok v) by (unfold getitem; by rewrite Hv).
  unfold hot_sliders in Hk. rewrite !elem_of_cons, elem_of_nil in Hk.
  destruct Hk as [-> | [-> | [-> | [-> | [-> | [-> | [-> | [-> | []]]]]]]]];
    (eexists; split;
     [ unfold handle; cbn -[getitem setattr on_rvc];
       unfold hot_update; cbn -[getitem setattr on_rvc];
       rewrite Hget; reflexivity
     | split; [exact Hflag | apply lookup_insert_eq] ]).
Qed.

Lemma f0method_turn e values st m :
  flag_vc st = true → m ∈ f0methods →
  ∃ st', handle e (Some m) values st = Ok (Continue st')
         ∧ flag_vc st' = true
         ∧ gui_config st' !! "f0method"%string = Some (VStr m).
Proof.
  intros Hflag Hm.
  unfold f0methods in Hm. rewrite !elem_of_cons, elem_of_nil in Hm.
  destruct Hm as [-> | [-> | [-> | [-> | [-> | []]]]]];
    (eexists; split; [reflexivity|];
     split; [exact Hflag | apply lookup_insert_eq]).
Qed.

(** C6, as amended: a streaming session is a run of turns of the event
    loop, each with the running flag set before and after, and of blocks
    through the audio callback.  Over any such run the flag stays set;
    the block, crossfade and extra times and the worker count keep their
    values; the frame sizes of the session are unchanged and every
    buffer keeps its size (the callback rewrites their contents) with
    the fade windows as they were; and whatever attribute of the
    configuration does change is one of the hot-updated ones.  Those are
    updated indeed: at every point of the run, the event named after
    the threshold, pitch, formant, index rate, RMS mix rate, either
    noise-reduction flag or the phase-vocoder flag assigns the window's
    value to the configuration, and the event named after a pitch method
    selects it, the session going on. *)
Theorem streaming_run_changes
    (frames_below : list R → Z → Q → list bool)
    (tg : list R → list R → list R) (resampler : list R → list R)
    (infer : list R → Z → Z → Z → string → res (list R))
    (resampler2 : option (list R → list R))
    (rms_contour : list R → Z → Z → nat → list R) (torch_pow : R → R → R)
    (rfft : list R → res (list (R * R))) (platform device : string)
    (st st' : state) :
  flag_vc st = true →
  live_run frames_below tg resampler infer resampler2 rms_contour torch_pow
           rfft platform device st st' →
  flag_vc st' = true
  ∧ (∀ k, k ∈ fixed_parameters → gui_config st' !! k = gui_config st !! k)
  ∧ same_session (session st) (session st')
  ∧ (∀ k, gui_config st' !! k ≠ gui_config st !! k → k ∈ hot_updated)
  ∧ (∀ e values k v, k ∈ hot_sliders → values !! k = Some v →
       ∃ st'', handle e (Some k) values st' = Ok (Continue st'')
               ∧ live_run frames_below tg resampler infer resampler2
                          rms_contour torch_pow rfft platform device st st''
               ∧ gui_config st'' !! k = Some v)
  ∧ (∀ e values m, m ∈ f0methods →
       ∃ st'', handle e (Some m) values st' = Ok (Continue st'')
               ∧ live_run frames_below tg resampler infer resampler2
                          rms_contour torch_pow rfft platform device st st''
               ∧ gui_config st'' !! "f0method"%string = Some (VStr m)).
Proof.
  intros Hflag Hrun.
  destruct (live_run_frame _ _ _ _ _ _ _ _ _ _ _ _ Hrun Hflag)
    as (Hf & Hs & Hc).
  split; [exact Hf|]. split; [|split; [exact Hs|split; [|split]]].
  - intros k Hk. apply Hc. rewrite hot_updated_spec.
    unfold fixed_parameters in Hk. rewrite !elem_of_cons, elem_of_nil in Hk.
    destruct Hk as [-> | [-> | [-> | [-> | []]]]]; intros H;
      repeat destruct H as [H | H]; discriminate H.
  - intros k Hk. destruct (decide (k ∈ hot_updated)) as [Hin|Hout]; [exact Hin|].
    exfalso. by apply Hk, Hc.
  - intros e values k v Hk Hv.
    destruct (hot_slider_turn e values st' k v Hf Hk Hv) as (st'' & H & Hf'' & Hv'').
    exists st''. split; [exact H|]. split; [|exact Hv''].
    eapply live_cons; [exact Hrun|]. apply live_turn.
    split; [exact Hf|]. split; [exact Hf''|]. by exists e, (Some k), values.
  - intros e values m Hm.
    destruct (f0method_turn e values st' m Hf Hm) as (st'' & H & Hf'' & Hv'').
    exists st''. split; [exact H|]. split; [|exact Hv''].
    eapply live_cons; [exact Hrun|]. apply live_turn.
    split; [exact Hf|]. split; [exact Hf''|]. by exists e, (Some m), values.
Qed.

Lemma streaming_run_changes_witness :
  ∃ st',
    live_run Standin.frames_below Standin.tg Standin.resampler Standin.infer
      None Standin.rms_contour Standin.torch_pow Standin.rfft "linux" "cpu"
      monitoring st'
    ∧ gui_config st' !! "threhold"%string = Some (VFloat (-30 # 1))
    ∧ gui_config st' !! "block_time"%string = Some (VFloat (2 # 100))
    ∧ same_session (session monitoring) (session st').
Proof.
  set (st1 := setattr "threhold" (VFloat (-30 # 1)) monitoring).
  set (cfg1 := {| Callback.threhold := (-30 # 1)%Q;
                  Callback.I_noise_reduce := false;
                  Callback.O_noise_reduce := false;
                  Callback.rms_mix_rate := 1%Q;
                  Callback.use_pv := false;
                  Callback.f0method := ""%string;
                  Callback.function := "im"%string |}).
  destruct (CallbackExtra.callback_run Standin.frames_below Standin.tg
              Standin.resampler Standin.infer None Standin.rms_contour
              Standin.torch_pow Standin.rfft "linux" "cpu" Standin.fr
              CallbackExtra.standin_sizes ltac:(discriminate)
              cfg1 Standin.bufs [1%R; 2%R] CallbackExtra.standin_shaped
              eq_refl ltac:(intros _; simpl; lia))
    as (b' & out & _ & _ & _ & _ & E & _).
  assert (Hcfg : settings_of "cpu" st1 = Ok cfg1) by (vm_compute; reflexivity).
  assert (Hrun : live_run Standin.frames_below Standin.tg Standin.resampler
                   Standin.infer None Standin.rms_contour Standin.torch_pow
                   Standin.rfft "linux" "cpu" monitoring
                   (with_session (Some (Standin.fr, b')) st1)).
  { eapply live_cons with (st2 := st1);
      [eapply live_cons with (st2 := monitoring); [apply live_nil|]|].
    - apply live_turn. split; [reflexivity|]. split; [reflexivity|].
      exists quiet_env, (Some "threhold"%string), threshold_moved.
      reflexivity.
    - apply (live_block _ _ _ _ _ _ _ _ _ _ st1 [1%R; 2%R] _ out);
        [reflexivity|].
      unfold block.
      change (session st1) with (Some (Standin.fr, Standin.bufs)).
      cbv beta iota. rewrite Hcfg, bind_Ok, E, bind_Ok. reflexivity. }
  destruct (streaming_run_changes _ _ _ _ _ _ _ _ _ _ monitoring _
              eq_refl Hrun)
    as (_ & Hfix & Hs & _).
  eexists. split; [exact Hrun|]. split; [reflexivity|].
  split; [|exact Hs].
  rewrite (Hfix "block_time"%string); [reflexivity|].
  unfold fixed_parameters. apply list_elem_of_here.
Defined.

End LiveFacts.
